(** * Daily code-output statistics (scripts/metrics/daily_code_stats.py)

    A shallow embedding of the script's line classifier, diff aggregator,
    paginated API client, statistics collector, standards evaluator and
    notifier, together with the properties its specification states.

    Python [str] values are lists of Unicode code points; Python [int]
    values are [Z]; the [float] produced by integer true division is the
    exact rational value of the correctly rounded binary64 result.
    Effects (HTTP requests, console output, file output) are threaded
    through a state-and-exception monad over a trace of events. *)

From Stdlib Require Import String Ascii.
From Stdlib Require Import ZArith NArith QArith Lia.
From stdpp Require Import gmap list.

Close Scope Q_scope.
Local Open Scope list_scope.

(** ** Strings *)

(** A Python [str]: a sequence of code points. *)
Abbreviation char := N.
Abbreviation str := (list N).

(** An ASCII literal of the script, as a [str]. *)
Definition lit (s : string) : str := List.map N_of_ascii (list_ascii_of_string s).

Definition NEWLINE : char := 10%N.

(** [s.startswith(p)] *)
Fixpoint startswith (s p : str) {struct p} : bool :=
  match p, s with
  | [], _ => true
  | _ :: _, [] => false
  | a :: p', b :: s' => N.eqb a b && startswith s' p'
  end.

(** [s.endswith(p)] *)
Definition endswith (s p : str) : bool := startswith (rev s) (rev p).

(** [s.split("\n")]: never empty, one more field than there are newlines. *)
Fixpoint split_newline (s : str) : list str :=
  match s with
  | [] => [[]]
  | c :: s' =>
      if N.eqb c NEWLINE then [] :: split_newline s'
      else match split_newline s' with
           | l :: ls => (c :: l) :: ls
           | [] => [[c]]
           end
  end.

(** ["\n".join(parts)] *)
Fixpoint join_newline (parts : list str) : str :=
  match parts with
  | [] => []
  | [p] => p
  | p :: ps => p ++ NEWLINE :: join_newline ps
  end.

(** ** Character classes of [re] on [str] patterns *)

Definition in_ranges (tbl : list (N * N)) (c : char) : bool :=
  existsb (fun r => N.leb (fst r) c && N.leb c (snd r)) tbl.

(** [\s]: the code points for which [str.isspace] holds. *)
Definition unicode_space : list (N * N) :=
  [(0x9, 0xd); (0x1c, 0x20); (0x85, 0x85); (0xa0, 0xa0); (0x1680, 0x1680);
   (0x2000, 0x200a); (0x2028, 0x2029); (0x202f, 0x202f); (0x205f, 0x205f);
   (0x3000, 0x3000)]%N.

Definition is_space (c : char) : bool := in_ranges unicode_space c.

(** The alphanumeric code points of the Unicode database (version 14.0,
    the one of CPython 3.11), as inclusive ranges. *)
Definition unicode_alnum : list (N * N) :=
 [
  (0x30, 0x39); (0x41, 0x5a); (0x61, 0x7a); (0xaa, 0xaa); (0xb2, 0xb3); (0xb5, 0xb5);
  (0xb9, 0xba); (0xbc, 0xbe); (0xc0, 0xd6); (0xd8, 0xf6); (0xf8, 0x2c1); (0x2c6, 0x2d1);
  (0x2e0, 0x2e4); (0x2ec, 0x2ec); (0x2ee, 0x2ee); (0x370, 0x374); (0x376, 0x377); (0x37a, 0x37d);
  (0x37f, 0x37f); (0x386, 0x386); (0x388, 0x38a); (0x38c, 0x38c); (0x38e, 0x3a1); (0x3a3, 0x3f5);
  (0x3f7, 0x481); (0x48a, 0x52f); (0x531, 0x556); (0x559, 0x559); (0x560, 0x588); (0x5d0, 0x5ea);
  (0x5ef, 0x5f2); (0x620, 0x64a); (0x660, 0x669); (0x66e, 0x66f); (0x671, 0x6d3); (0x6d5, 0x6d5);
  (0x6e5, 0x6e6); (0x6ee, 0x6fc); (0x6ff, 0x6ff); (0x710, 0x710); (0x712, 0x72f); (0x74d, 0x7a5);
  (0x7b1, 0x7b1); (0x7c0, 0x7ea); (0x7f4, 0x7f5); (0x7fa, 0x7fa); (0x800, 0x815); (0x81a, 0x81a);
  (0x824, 0x824); (0x828, 0x828); (0x840, 0x858); (0x860, 0x86a); (0x870, 0x887); (0x889, 0x88e);
  (0x8a0, 0x8c9); (0x904, 0x939); (0x93d, 0x93d); (0x950, 0x950); (0x958, 0x961); (0x966, 0x96f);
  (0x971, 0x980); (0x985, 0x98c); (0x98f, 0x990); (0x993, 0x9a8); (0x9aa, 0x9b0); (0x9b2, 0x9b2);
  (0x9b6, 0x9b9); (0x9bd, 0x9bd); (0x9ce, 0x9ce); (0x9dc, 0x9dd); (0x9df, 0x9e1); (0x9e6, 0x9f1);
  (0x9f4, 0x9f9); (0x9fc, 0x9fc); (0xa05, 0xa0a); (0xa0f, 0xa10); (0xa13, 0xa28); (0xa2a, 0xa30);
  (0xa32, 0xa33); (0xa35, 0xa36); (0xa38, 0xa39); (0xa59, 0xa5c); (0xa5e, 0xa5e); (0xa66, 0xa6f);
  (0xa72, 0xa74); (0xa85, 0xa8d); (0xa8f, 0xa91); (0xa93, 0xaa8); (0xaaa, 0xab0); (0xab2, 0xab3);
  (0xab5, 0xab9); (0xabd, 0xabd); (0xad0, 0xad0); (0xae0, 0xae1); (0xae6, 0xaef); (0xaf9, 0xaf9);
  (0xb05, 0xb0c); (0xb0f, 0xb10); (0xb13, 0xb28); (0xb2a, 0xb30); (0xb32, 0xb33); (0xb35, 0xb39);
  (0xb3d, 0xb3d); (0xb5c, 0xb5d); (0xb5f, 0xb61); (0xb66, 0xb6f); (0xb71, 0xb77); (0xb83, 0xb83);
  (0xb85, 0xb8a); (0xb8e, 0xb90); (0xb92, 0xb95); (0xb99, 0xb9a); (0xb9c, 0xb9c); (0xb9e, 0xb9f);
  (0xba3, 0xba4); (0xba8, 0xbaa); (0xbae, 0xbb9); (0xbd0, 0xbd0); (0xbe6, 0xbf2); (0xc05, 0xc0c);
  (0xc0e, 0xc10); (0xc12, 0xc28); (0xc2a, 0xc39); (0xc3d, 0xc3d); (0xc58, 0xc5a); (0xc5d, 0xc5d);
  (0xc60, 0xc61); (0xc66, 0xc6f); (0xc78, 0xc7e); (0xc80, 0xc80); (0xc85, 0xc8c); (0xc8e, 0xc90);
  (0xc92, 0xca8); (0xcaa, 0xcb3); (0xcb5, 0xcb9); (0xcbd, 0xcbd); (0xcdd, 0xcde); (0xce0, 0xce1);
  (0xce6, 0xcef); (0xcf1, 0xcf2); (0xd04, 0xd0c); (0xd0e, 0xd10); (0xd12, 0xd3a); (0xd3d, 0xd3d);
  (0xd4e, 0xd4e); (0xd54, 0xd56); (0xd58, 0xd61); (0xd66, 0xd78); (0xd7a, 0xd7f); (0xd85, 0xd96);
  (0xd9a, 0xdb1); (0xdb3, 0xdbb); (0xdbd, 0xdbd); (0xdc0, 0xdc6); (0xde6, 0xdef); (0xe01, 0xe30);
  (0xe32, 0xe33); (0xe40, 0xe46); (0xe50, 0xe59); (0xe81, 0xe82); (0xe84, 0xe84); (0xe86, 0xe8a);
  (0xe8c, 0xea3); (0xea5, 0xea5); (0xea7, 0xeb0); (0xeb2, 0xeb3); (0xebd, 0xebd); (0xec0, 0xec4);
  (0xec6, 0xec6); (0xed0, 0xed9); (0xedc, 0xedf); (0xf00, 0xf00); (0xf20, 0xf33); (0xf40, 0xf47);
  (0xf49, 0xf6c); (0xf88, 0xf8c); (0x1000, 0x102a); (0x103f, 0x1049); (0x1050, 0x1055);
  (0x105a, 0x105d); (0x1061, 0x1061); (0x1065, 0x1066); (0x106e, 0x1070); (0x1075, 0x1081);
  (0x108e, 0x108e); (0x1090, 0x1099); (0x10a0, 0x10c5); (0x10c7, 0x10c7); (0x10cd, 0x10cd);
  (0x10d0, 0x10fa); (0x10fc, 0x1248); (0x124a, 0x124d); (0x1250, 0x1256); (0x1258, 0x1258);
  (0x125a, 0x125d); (0x1260, 0x1288); (0x128a, 0x128d); (0x1290, 0x12b0); (0x12b2, 0x12b5);
  (0x12b8, 0x12be); (0x12c0, 0x12c0); (0x12c2, 0x12c5); (0x12c8, 0x12d6); (0x12d8, 0x1310);
  (0x1312, 0x1315); (0x1318, 0x135a); (0x1369, 0x137c); (0x1380, 0x138f); (0x13a0, 0x13f5);
  (0x13f8, 0x13fd); (0x1401, 0x166c); (0x166f, 0x167f); (0x1681, 0x169a); (0x16a0, 0x16ea);
  (0x16ee, 0x16f8); (0x1700, 0x1711); (0x171f, 0x1731); (0x1740, 0x1751); (0x1760, 0x176c);
  (0x176e, 0x1770); (0x1780, 0x17b3); (0x17d7, 0x17d7); (0x17dc, 0x17dc); (0x17e0, 0x17e9);
  (0x17f0, 0x17f9); (0x1810, 0x1819); (0x1820, 0x1878); (0x1880, 0x1884); (0x1887, 0x18a8);
  (0x18aa, 0x18aa); (0x18b0, 0x18f5); (0x1900, 0x191e); (0x1946, 0x196d); (0x1970, 0x1974);
  (0x1980, 0x19ab); (0x19b0, 0x19c9); (0x19d0, 0x19da); (0x1a00, 0x1a16); (0x1a20, 0x1a54);
  (0x1a80, 0x1a89); (0x1a90, 0x1a99); (0x1aa7, 0x1aa7); (0x1b05, 0x1b33); (0x1b45, 0x1b4c);
  (0x1b50, 0x1b59); (0x1b83, 0x1ba0); (0x1bae, 0x1be5); (0x1c00, 0x1c23); (0x1c40, 0x1c49);
  (0x1c4d, 0x1c7d); (0x1c80, 0x1c88); (0x1c90, 0x1cba); (0x1cbd, 0x1cbf); (0x1ce9, 0x1cec);
  (0x1cee, 0x1cf3); (0x1cf5, 0x1cf6); (0x1cfa, 0x1cfa); (0x1d00, 0x1dbf); (0x1e00, 0x1f15);
  (0x1f18, 0x1f1d); (0x1f20, 0x1f45); (0x1f48, 0x1f4d); (0x1f50, 0x1f57); (0x1f59, 0x1f59);
  (0x1f5b, 0x1f5b); (0x1f5d, 0x1f5d); (0x1f5f, 0x1f7d); (0x1f80, 0x1fb4); (0x1fb6, 0x1fbc);
  (0x1fbe, 0x1fbe); (0x1fc2, 0x1fc4); (0x1fc6, 0x1fcc); (0x1fd0, 0x1fd3); (0x1fd6, 0x1fdb);
  (0x1fe0, 0x1fec); (0x1ff2, 0x1ff4); (0x1ff6, 0x1ffc); (0x2070, 0x2071); (0x2074, 0x2079);
  (0x207f, 0x2089); (0x2090, 0x209c); (0x2102, 0x2102); (0x2107, 0x2107); (0x210a, 0x2113);
  (0x2115, 0x2115); (0x2119, 0x211d); (0x2124, 0x2124); (0x2126, 0x2126); (0x2128, 0x2128);
  (0x212a, 0x212d); (0x212f, 0x2139); (0x213c, 0x213f); (0x2145, 0x2149); (0x214e, 0x214e);
  (0x2150, 0x2189); (0x2460, 0x249b); (0x24ea, 0x24ff); (0x2776, 0x2793); (0x2c00, 0x2ce4);
  (0x2ceb, 0x2cee); (0x2cf2, 0x2cf3); (0x2cfd, 0x2cfd); (0x2d00, 0x2d25); (0x2d27, 0x2d27);
  (0x2d2d, 0x2d2d); (0x2d30, 0x2d67); (0x2d6f, 0x2d6f); (0x2d80, 0x2d96); (0x2da0, 0x2da6);
  (0x2da8, 0x2dae); (0x2db0, 0x2db6); (0x2db8, 0x2dbe); (0x2dc0, 0x2dc6); (0x2dc8, 0x2dce);
  (0x2dd0, 0x2dd6); (0x2dd8, 0x2dde); (0x2e2f, 0x2e2f); (0x3005, 0x3007); (0x3021, 0x3029);
  (0x3031, 0x3035); (0x3038, 0x303c); (0x3041, 0x3096); (0x309d, 0x309f); (0x30a1, 0x30fa);
  (0x30fc, 0x30ff); (0x3105, 0x312f); (0x3131, 0x318e); (0x3192, 0x3195); (0x31a0, 0x31bf);
  (0x31f0, 0x31ff); (0x3220, 0x3229); (0x3248, 0x324f); (0x3251, 0x325f); (0x3280, 0x3289);
  (0x32b1, 0x32bf); (0x3400, 0x4dbf); (0x4e00, 0xa48c); (0xa4d0, 0xa4fd); (0xa500, 0xa60c);
  (0xa610, 0xa62b); (0xa640, 0xa66e); (0xa67f, 0xa69d); (0xa6a0, 0xa6ef); (0xa717, 0xa71f);
  (0xa722, 0xa788); (0xa78b, 0xa7ca); (0xa7d0, 0xa7d1); (0xa7d3, 0xa7d3); (0xa7d5, 0xa7d9);
  (0xa7f2, 0xa801); (0xa803, 0xa805); (0xa807, 0xa80a); (0xa80c, 0xa822); (0xa830, 0xa835);
  (0xa840, 0xa873); (0xa882, 0xa8b3); (0xa8d0, 0xa8d9); (0xa8f2, 0xa8f7); (0xa8fb, 0xa8fb);
  (0xa8fd, 0xa8fe); (0xa900, 0xa925); (0xa930, 0xa946); (0xa960, 0xa97c); (0xa984, 0xa9b2);
  (0xa9cf, 0xa9d9); (0xa9e0, 0xa9e4); (0xa9e6, 0xa9fe); (0xaa00, 0xaa28); (0xaa40, 0xaa42);
  (0xaa44, 0xaa4b); (0xaa50, 0xaa59); (0xaa60, 0xaa76); (0xaa7a, 0xaa7a); (0xaa7e, 0xaaaf);
  (0xaab1, 0xaab1); (0xaab5, 0xaab6); (0xaab9, 0xaabd); (0xaac0, 0xaac0); (0xaac2, 0xaac2);
  (0xaadb, 0xaadd); (0xaae0, 0xaaea); (0xaaf2, 0xaaf4); (0xab01, 0xab06); (0xab09, 0xab0e);
  (0xab11, 0xab16); (0xab20, 0xab26); (0xab28, 0xab2e); (0xab30, 0xab5a); (0xab5c, 0xab69);
  (0xab70, 0xabe2); (0xabf0, 0xabf9); (0xac00, 0xd7a3); (0xd7b0, 0xd7c6); (0xd7cb, 0xd7fb);
  (0xf900, 0xfa6d); (0xfa70, 0xfad9); (0xfb00, 0xfb06); (0xfb13, 0xfb17); (0xfb1d, 0xfb1d);
  (0xfb1f, 0xfb28); (0xfb2a, 0xfb36); (0xfb38, 0xfb3c); (0xfb3e, 0xfb3e); (0xfb40, 0xfb41);
  (0xfb43, 0xfb44); (0xfb46, 0xfbb1); (0xfbd3, 0xfd3d); (0xfd50, 0xfd8f); (0xfd92, 0xfdc7);
  (0xfdf0, 0xfdfb); (0xfe70, 0xfe74); (0xfe76, 0xfefc); (0xff10, 0xff19); (0xff21, 0xff3a);
  (0xff41, 0xff5a); (0xff66, 0xffbe); (0xffc2, 0xffc7); (0xffca, 0xffcf); (0xffd2, 0xffd7);
  (0xffda, 0xffdc); (0x10000, 0x1000b); (0x1000d, 0x10026); (0x10028, 0x1003a);
  (0x1003c, 0x1003d); (0x1003f, 0x1004d); (0x10050, 0x1005d); (0x10080, 0x100fa);
  (0x10107, 0x10133); (0x10140, 0x10178); (0x1018a, 0x1018b); (0x10280, 0x1029c);
  (0x102a0, 0x102d0); (0x102e1, 0x102fb); (0x10300, 0x10323); (0x1032d, 0x1034a);
  (0x10350, 0x10375); (0x10380, 0x1039d); (0x103a0, 0x103c3); (0x103c8, 0x103cf);
  (0x103d1, 0x103d5); (0x10400, 0x1049d); (0x104a0, 0x104a9); (0x104b0, 0x104d3);
  (0x104d8, 0x104fb); (0x10500, 0x10527); (0x10530, 0x10563); (0x10570, 0x1057a);
  (0x1057c, 0x1058a); (0x1058c, 0x10592); (0x10594, 0x10595); (0x10597, 0x105a1);
  (0x105a3, 0x105b1); (0x105b3, 0x105b9); (0x105bb, 0x105bc); (0x10600, 0x10736);
  (0x10740, 0x10755); (0x10760, 0x10767); (0x10780, 0x10785); (0x10787, 0x107b0);
  (0x107b2, 0x107ba); (0x10800, 0x10805); (0x10808, 0x10808); (0x1080a, 0x10835);
  (0x10837, 0x10838); (0x1083c, 0x1083c); (0x1083f, 0x10855); (0x10858, 0x10876);
  (0x10879, 0x1089e); (0x108a7, 0x108af); (0x108e0, 0x108f2); (0x108f4, 0x108f5);
  (0x108fb, 0x1091b); (0x10920, 0x10939); (0x10980, 0x109b7); (0x109bc, 0x109cf);
  (0x109d2, 0x10a00); (0x10a10, 0x10a13); (0x10a15, 0x10a17); (0x10a19, 0x10a35);
  (0x10a40, 0x10a48); (0x10a60, 0x10a7e); (0x10a80, 0x10a9f); (0x10ac0, 0x10ac7);
  (0x10ac9, 0x10ae4); (0x10aeb, 0x10aef); (0x10b00, 0x10b35); (0x10b40, 0x10b55);
  (0x10b58, 0x10b72); (0x10b78, 0x10b91); (0x10ba9, 0x10baf); (0x10c00, 0x10c48);
  (0x10c80, 0x10cb2); (0x10cc0, 0x10cf2); (0x10cfa, 0x10d23); (0x10d30, 0x10d39);
  (0x10e60, 0x10e7e); (0x10e80, 0x10ea9); (0x10eb0, 0x10eb1); (0x10f00, 0x10f27);
  (0x10f30, 0x10f45); (0x10f51, 0x10f54); (0x10f70, 0x10f81); (0x10fb0, 0x10fcb);
  (0x10fe0, 0x10ff6); (0x11003, 0x11037); (0x11052, 0x1106f); (0x11071, 0x11072);
  (0x11075, 0x11075); (0x11083, 0x110af); (0x110d0, 0x110e8); (0x110f0, 0x110f9);
  (0x11103, 0x11126); (0x11136, 0x1113f); (0x11144, 0x11144); (0x11147, 0x11147);
  (0x11150, 0x11172); (0x11176, 0x11176); (0x11183, 0x111b2); (0x111c1, 0x111c4);
  (0x111d0, 0x111da); (0x111dc, 0x111dc); (0x111e1, 0x111f4); (0x11200, 0x11211);
  (0x11213, 0x1122b); (0x11280, 0x11286); (0x11288, 0x11288); (0x1128a, 0x1128d);
  (0x1128f, 0x1129d); (0x1129f, 0x112a8); (0x112b0, 0x112de); (0x112f0, 0x112f9);
  (0x11305, 0x1130c); (0x1130f, 0x11310); (0x11313, 0x11328); (0x1132a, 0x11330);
  (0x11332, 0x11333); (0x11335, 0x11339); (0x1133d, 0x1133d); (0x11350, 0x11350);
  (0x1135d, 0x11361); (0x11400, 0x11434); (0x11447, 0x1144a); (0x11450, 0x11459);
  (0x1145f, 0x11461); (0x11480, 0x114af); (0x114c4, 0x114c5); (0x114c7, 0x114c7);
  (0x114d0, 0x114d9); (0x11580, 0x115ae); (0x115d8, 0x115db); (0x11600, 0x1162f);
  (0x11644, 0x11644); (0x11650, 0x11659); (0x11680, 0x116aa); (0x116b8, 0x116b8);
  (0x116c0, 0x116c9); (0x11700, 0x1171a); (0x11730, 0x1173b); (0x11740, 0x11746);
  (0x11800, 0x1182b); (0x118a0, 0x118f2); (0x118ff, 0x11906); (0x11909, 0x11909);
  (0x1190c, 0x11913); (0x11915, 0x11916); (0x11918, 0x1192f); (0x1193f, 0x1193f);
  (0x11941, 0x11941); (0x11950, 0x11959); (0x119a0, 0x119a7); (0x119aa, 0x119d0);
  (0x119e1, 0x119e1); (0x119e3, 0x119e3); (0x11a00, 0x11a00); (0x11a0b, 0x11a32);
  (0x11a3a, 0x11a3a); (0x11a50, 0x11a50); (0x11a5c, 0x11a89); (0x11a9d, 0x11a9d);
  (0x11ab0, 0x11af8); (0x11c00, 0x11c08); (0x11c0a, 0x11c2e); (0x11c40, 0x11c40);
  (0x11c50, 0x11c6c); (0x11c72, 0x11c8f); (0x11d00, 0x11d06); (0x11d08, 0x11d09);
  (0x11d0b, 0x11d30); (0x11d46, 0x11d46); (0x11d50, 0x11d59); (0x11d60, 0x11d65);
  (0x11d67, 0x11d68); (0x11d6a, 0x11d89); (0x11d98, 0x11d98); (0x11da0, 0x11da9);
  (0x11ee0, 0x11ef2); (0x11fb0, 0x11fb0); (0x11fc0, 0x11fd4); (0x12000, 0x12399);
  (0x12400, 0x1246e); (0x12480, 0x12543); (0x12f90, 0x12ff0); (0x13000, 0x1342e);
  (0x14400, 0x14646); (0x16800, 0x16a38); (0x16a40, 0x16a5e); (0x16a60, 0x16a69);
  (0x16a70, 0x16abe); (0x16ac0, 0x16ac9); (0x16ad0, 0x16aed); (0x16b00, 0x16b2f);
  (0x16b40, 0x16b43); (0x16b50, 0x16b59); (0x16b5b, 0x16b61); (0x16b63, 0x16b77);
  (0x16b7d, 0x16b8f); (0x16e40, 0x16e96); (0x16f00, 0x16f4a); (0x16f50, 0x16f50);
  (0x16f93, 0x16f9f); (0x16fe0, 0x16fe1); (0x16fe3, 0x16fe3); (0x17000, 0x187f7);
  (0x18800, 0x18cd5); (0x18d00, 0x18d08); (0x1aff0, 0x1aff3); (0x1aff5, 0x1affb);
  (0x1affd, 0x1affe); (0x1b000, 0x1b122); (0x1b150, 0x1b152); (0x1b164, 0x1b167);
  (0x1b170, 0x1b2fb); (0x1bc00, 0x1bc6a); (0x1bc70, 0x1bc7c); (0x1bc80, 0x1bc88);
  (0x1bc90, 0x1bc99); (0x1d2e0, 0x1d2f3); (0x1d360, 0x1d378); (0x1d400, 0x1d454);
  (0x1d456, 0x1d49c); (0x1d49e, 0x1d49f); (0x1d4a2, 0x1d4a2); (0x1d4a5, 0x1d4a6);
  (0x1d4a9, 0x1d4ac); (0x1d4ae, 0x1d4b9); (0x1d4bb, 0x1d4bb); (0x1d4bd, 0x1d4c3);
  (0x1d4c5, 0x1d505); (0x1d507, 0x1d50a); (0x1d50d, 0x1d514); (0x1d516, 0x1d51c);
  (0x1d51e, 0x1d539); (0x1d53b, 0x1d53e); (0x1d540, 0x1d544); (0x1d546, 0x1d546);
  (0x1d54a, 0x1d550); (0x1d552, 0x1d6a5); (0x1d6a8, 0x1d6c0); (0x1d6c2, 0x1d6da);
  (0x1d6dc, 0x1d6fa); (0x1d6fc, 0x1d714); (0x1d716, 0x1d734); (0x1d736, 0x1d74e);
  (0x1d750, 0x1d76e); (0x1d770, 0x1d788); (0x1d78a, 0x1d7a8); (0x1d7aa, 0x1d7c2);
  (0x1d7c4, 0x1d7cb); (0x1d7ce, 0x1d7ff); (0x1df00, 0x1df1e); (0x1e100, 0x1e12c);
  (0x1e137, 0x1e13d); (0x1e140, 0x1e149); (0x1e14e, 0x1e14e); (0x1e290, 0x1e2ad);
  (0x1e2c0, 0x1e2eb); (0x1e2f0, 0x1e2f9); (0x1e7e0, 0x1e7e6); (0x1e7e8, 0x1e7eb);
  (0x1e7ed, 0x1e7ee); (0x1e7f0, 0x1e7fe); (0x1e800, 0x1e8c4); (0x1e8c7, 0x1e8cf);
  (0x1e900, 0x1e943); (0x1e94b, 0x1e94b); (0x1e950, 0x1e959); (0x1ec71, 0x1ecab);
  (0x1ecad, 0x1ecaf); (0x1ecb1, 0x1ecb4); (0x1ed01, 0x1ed2d); (0x1ed2f, 0x1ed3d);
  (0x1ee00, 0x1ee03); (0x1ee05, 0x1ee1f); (0x1ee21, 0x1ee22); (0x1ee24, 0x1ee24);
  (0x1ee27, 0x1ee27); (0x1ee29, 0x1ee32); (0x1ee34, 0x1ee37); (0x1ee39, 0x1ee39);
  (0x1ee3b, 0x1ee3b); (0x1ee42, 0x1ee42); (0x1ee47, 0x1ee47); (0x1ee49, 0x1ee49);
  (0x1ee4b, 0x1ee4b); (0x1ee4d, 0x1ee4f); (0x1ee51, 0x1ee52); (0x1ee54, 0x1ee54);
  (0x1ee57, 0x1ee57); (0x1ee59, 0x1ee59); (0x1ee5b, 0x1ee5b); (0x1ee5d, 0x1ee5d);
  (0x1ee5f, 0x1ee5f); (0x1ee61, 0x1ee62); (0x1ee64, 0x1ee64); (0x1ee67, 0x1ee6a);
  (0x1ee6c, 0x1ee72); (0x1ee74, 0x1ee77); (0x1ee79, 0x1ee7c); (0x1ee7e, 0x1ee7e);
  (0x1ee80, 0x1ee89); (0x1ee8b, 0x1ee9b); (0x1eea1, 0x1eea3); (0x1eea5, 0x1eea9);
  (0x1eeab, 0x1eebb); (0x1f100, 0x1f10c); (0x1fbf0, 0x1fbf9); (0x20000, 0x2a6df);
  (0x2a700, 0x2b738); (0x2b740, 0x2b81d); (0x2b820, 0x2cea1); (0x2ceb0, 0x2ebe0);
  (0x2f800, 0x2fa1d); (0x30000, 0x3134a)
 ]%N.

(** [\w]: alphanumeric, or the underscore. *)
Definition is_word (c : char) : bool := in_ranges unicode_alnum c || N.eqb c 0x5f.

(** ** The regular expressions of EXCLUDE_PATTERNS

    Every pattern of the script is a sequence of anchors and of single
    character atoms, each atom taken once or under one of [*], [+], [?]. *)

Inductive atom : Type :=
| Chr (c : char)        (* a literal character, escaped or not *)
| Space                 (* \s *)
| Word                  (* \w *)
| NotChr (c : char).    (* [^c] *)

Inductive piece : Type :=
| Bol                   (* ^ *)
| Eol                   (* $ *)
| One (a : atom)
| Star (a : atom)       (* a* *)
| Plus (a : atom)       (* a+ *)
| Opt (a : atom).       (* a? *)

Definition pattern := list piece.

Definition atom_matches (a : atom) (c : char) : bool :=
  match a with
  | Chr x => N.eqb x c
  | Space => is_space c
  | Word => is_word c
  | NotChr x => negb (N.eqb x c)
  end.

(** The literal text [s] as a pattern. *)
Definition chars (s : string) : pattern := List.map (fun c => One (Chr c)) (lit s).

Arguments lit : simpl never.
Arguments chars : simpl never.
Arguments is_space : simpl never.
Arguments is_word : simpl never.

(** Greedy repetition with backtracking: take one more character if it
    fits and the rest then matches, otherwise go on with the rest here. *)
Fixpoint star_loop (ok : char -> bool) (k : bool -> str -> bool) (bos : bool) (s : str) : bool :=
  match s with
  | c :: s' => (ok c && star_loop ok k false s') || k bos s
  | [] => k bos []
  end.

(** Whether [p] matches some prefix of [s]; [bos] tells whether [s] starts
    at the beginning of the subject string. [$] holds at the end of the
    string and just before a newline that ends it. *)
Fixpoint match_here (p : pattern) (bos : bool) (s : str) {struct p} : bool :=
  match p with
  | [] => true
  | Bol :: p' => bos && match_here p' bos s
  | Eol :: p' =>
      match s with
      | [] => match_here p' bos s
      | [c] => N.eqb c NEWLINE && match_here p' bos s
      | _ => false
      end
  | One a :: p' =>
      match s with
      | c :: s' => atom_matches a c && match_here p' false s'
      | [] => false
      end
  | Star a :: p' => star_loop (atom_matches a) (match_here p') bos s
  | Plus a :: p' =>
      match s with
      | c :: s' => atom_matches a c && star_loop (atom_matches a) (match_here p') false s'
      | [] => false
      end
  | Opt a :: p' =>
      match s with
      | c :: s' => (atom_matches a c && match_here p' false s') || match_here p' bos s
      | [] => match_here p' bos s
      end
  end.

(** [re.match(pattern, line)], read as a truth value. *)
Definition re_match (p : pattern) (line : str) : bool := match_here p true line.

Definition EXCLUDE_PATTERNS : list pattern :=
  [ [Bol; Star Space; Eol]                                         (* ^\s*$ *)
  ; [Bol; Star Space] ++ chars "//"                                (* ^\s*// *)
  ; [Bol; Star Space] ++ chars "/*"                                (* ^\s*/\* *)
  ; [Bol; Star Space] ++ chars "*"                                 (* ^\s*\* *)
  ; [Bol; Star Space] ++ chars "*/"                                (* ^\s*\*/ *)
  ; [Bol; Star Space] ++ chars "import" ++ [Plus Space]            (* ^\s*import\s+ *)
  ; [Bol; Star Space] ++ chars "package" ++ [Plus Space]           (* ^\s*package\s+ *)
  ; [Bol; Star Space] ++ chars "@" ++ [Plus Word; Star Space; Eol] (* ^\s*@\w+\s*$ *)
  ; [Bol; Star Space] ++ chars "@" ++ [Plus Word] ++ chars "("
      ++ [Star (NotChr 0x29)] ++ chars ")" ++ [Star Space; Eol]    (* ^\s*@\w+\([^)]*\)\s*$ *)
  ; [Bol; Star Space] ++ chars "}" ++ [Star Space; Eol]            (* ^\s*\}\s*$ *)
  ; [Bol; Star Space] ++ chars "{" ++ [Star Space; Eol]            (* ^\s*\{\s*$ *)
  ; [Bol; Star Space] ++ chars ")" ++ [Opt (Chr 0x3b); Star Space; Eol]  (* ^\s*\);?\s*$ *)
  ; [Bol; Star Space] ++ chars "private" ++ [Plus Space] ++ chars "static"
      ++ [Plus Space] ++ chars "final" ++ [Plus Space] ++ chars "long"
      ++ [Plus Space] ++ chars "serialVersionUID"
      (* ^\s*private\s+static\s+final\s+long\s+serialVersionUID *)
  ].

(** ** Exceptions *)

Inductive exn : Type :=
| HTTPError (status : Z)            (* resp.raise_for_status() *)
| RequestException (detail : str)   (* connection error, timeout, invalid body *)
| AttributeError                    (* a string method on a value that is no string *)
| ZeroDivisionError
| OverflowError
| OSError (detail : str).

Inductive result (A : Type) : Type :=
| Ok (a : A)
| Raise (e : exn).

Arguments Ok {A} a.
Arguments Raise {A} e.

Definition result_bind {A B} (r : result A) (k : A -> result B) : result B :=
  match r with
  | Ok a => k a
  | Raise e => Raise e
  end.

(** ** Code analysis *)

(** [is_effective_line]: the first pattern that matches makes the line
    non-effective. *)
Fixpoint first_match (patterns : list pattern) (line : str) : bool :=
  match patterns with
  | [] => false
  | p :: rest => if re_match p line then true else first_match rest line
  end.

Definition is_effective_line (line : str) : bool :=
  negb (first_match EXCLUDE_PATTERNS line).

(** [count_effective_lines]: one pass over the lines of the diff text. *)
Definition count_step (effective : Z) (line : str) : Z :=
  if startswith line (lit "+") && negb (startswith line (lit "+++")) then
    let actual_line := tail line in
    if is_effective_line actual_line then (effective + 1)%Z else effective
  else effective.

Definition count_effective_lines (diff_content : str) : Z :=
  fold_left count_step (split_newline diff_content) 0%Z.

(** A key of an API object that the script reads with [.get(key, "")] and
    uses as a string: absent, a string, or a value that is no string
    (null, a number). *)
Inductive field : Type :=
| Absent
| Text (s : str)
| NotText.

(** The use of such a value as a string: the default for an absent key,
    AttributeError for a value without string methods. *)
Definition as_text (f : field) : result str :=
  match f with
  | Absent => Ok []
  | Text s => Ok s
  | NotText => Raise AttributeError
  end.

(** One file entry of a commit's diff listing, as the API returns it. *)
Record Diff : Type := { new_path : field; diff : field }.

(** The loop of [analyze_commit_diff] over the entries of one commit. *)
Definition analyze_step (effective : Z) (d : Diff) : result Z :=
  result_bind (as_text (new_path d)) (fun path =>
  (* only Java files are counted *)
  if endswith path (lit ".java")
  then result_bind (as_text (diff d)) (fun diff_content =>
       Ok (effective + count_effective_lines diff_content)%Z)
  else Ok effective).

Fixpoint analyze_loop (diffs : list Diff) (effective : Z) : result Z :=
  match diffs with
  | [] => Ok effective
  | d :: rest => result_bind (analyze_step effective d) (analyze_loop rest)
  end.

Definition analyze_diffs (diffs : list Diff) : result Z := analyze_loop diffs 0%Z.

(** ** The classifier, stated without the matcher *)

Definition spaces (ws : str) : Prop := forallb is_space ws = true.

(** What a pattern without [^] accepts at a position that is not the
    beginning of the string: some prefix of [s] is in its language. *)
Fixpoint accepts (p : pattern) (s : str) : Prop :=
  match p with
  | [] => True
  | Bol :: _ => False
  | Eol :: p' => (s = [] \/ s = [NEWLINE]) /\ accepts p' s
  | One a :: p' => exists c s', s = c :: s' /\ atom_matches a c = true /\ accepts p' s'
  | Star a :: p' =>
      exists pre rest, s = pre ++ rest /\ forallb (atom_matches a) pre = true /\ accepts p' rest
  | Plus a :: p' =>
      exists pre rest, s = pre ++ rest /\ pre <> [] /\
        forallb (atom_matches a) pre = true /\ accepts p' rest
  | Opt a :: p' =>
      accepts p' s \/ exists c s', s = c :: s' /\ atom_matches a c = true /\ accepts p' s'
  end.

Definition no_bol (p : pattern) : bool :=
  forallb (fun x => match x with Bol => false | _ => true end) p.

(** The exclusion rules in words. *)
Definition blank_line (line : str) : Prop := spaces line.

Definition opens_with (marker : string) (line : str) : Prop :=
  exists ws rest, spaces ws /\ line = ws ++ lit marker ++ rest.

Definition keyword_statement (kw : string) (line : str) : Prop :=
  exists ws sp rest, spaces ws /\ spaces sp /\ sp <> [] /\ line = ws ++ lit kw ++ sp ++ rest.

Definition bare_annotation (line : str) : Prop :=
  exists ws name ws', spaces ws /\ name <> [] /\ forallb is_word name = true /\ spaces ws' /\
    line = ws ++ lit "@" ++ name ++ ws'.

Definition annotation_with_arguments (line : str) : Prop :=
  exists ws name args ws', spaces ws /\ name <> [] /\ forallb is_word name = true /\
    forallb (fun c => negb (N.eqb 0x29 c)) args = true /\ spaces ws' /\
    line = ws ++ lit "@" ++ name ++ lit "(" ++ args ++ lit ")" ++ ws'.

Definition lone (token : string) (line : str) : Prop :=
  exists ws ws', spaces ws /\ spaces ws' /\ line = ws ++ lit token ++ ws'.

Definition serial_version_uid (line : str) : Prop :=
  exists ws s1 s2 s3 s4 rest,
    spaces ws /\ (spaces s1 /\ s1 <> []) /\ (spaces s2 /\ s2 <> []) /\
    (spaces s3 /\ s3 <> []) /\ (spaces s4 /\ s4 <> []) /\
    line = ws ++ lit "private" ++ s1 ++ lit "static" ++ s2 ++ lit "final" ++ s3
              ++ lit "long" ++ s4 ++ lit "serialVersionUID" ++ rest.

Definition excluded (line : str) : Prop :=
  blank_line line \/ opens_with "//" line \/ opens_with "/*" line \/ opens_with "*" line \/
  opens_with "*/" line \/ keyword_statement "import" line \/ keyword_statement "package" line \/
  bare_annotation line \/ annotation_with_arguments line \/ lone "}" line \/ lone "{" line \/
  (lone ")" line \/ lone ");" line) \/ serial_version_uid line.

(** The diff aggregator in words: the lines that count, and their number
    over the Java entries. *)
Definition counted_line (line : str) : bool :=
  match line with
  | c :: rest =>
      N.eqb c 0x2b && negb (startswith line (lit "+++")) && is_effective_line rest
  | [] => false
  end.

Definition is_java (d : Diff) : bool :=
  match new_path d with
  | Text path => endswith path (lit ".java")
  | _ => false
  end.

Definition diff_text (d : Diff) : str :=
  match diff d with
  | Text s => s
  | _ => []
  end.

(** An entry whose path and diff text, when present, are strings. *)
Definition typed (d : Diff) : bool :=
  match new_path d, diff d with
  | NotText, _ | _, NotText => false
  | _, _ => true
  end.

Definition sum_Z (l : list Z) : Z := fold_right Z.add 0%Z l.

Definition counted_additions (diffs : list Diff) : Z :=
  sum_Z (List.map
           (fun d => Z.of_nat (length (List.filter counted_line
                                         (split_newline (diff_text d)))))
           (List.filter is_java diffs)).

(** ** Numbers *)

(** Division of [n] by [d > 0], rounded to the nearest integer, ties to even. *)
Definition round_half_even (n d : Z) : Z :=
  let q := (n / d)%Z in
  let r := (n mod d)%Z in
  if (2 * r <? d)%Z then q
  else if (d <? 2 * r)%Z then (q + 1)%Z
  else if Z.even q then q else (q + 1)%Z.

(** The integer part of the binary logarithm of [n / d], for [n, d > 0]. *)
Definition floor_log2_ratio (n d : Z) : Z :=
  let e := (Z.log2 n - Z.log2 d)%Z in
  let reached := if (0 <=? e)%Z then (d * 2 ^ e <=? n)%Z else (d <=? n * 2 ^ (- e))%Z in
  if reached then e else (e - 1)%Z.

(** The binary64 number nearest to [n / d], for [n, d > 0], as a rational:
    a 53-bit significand, the least exponent being that of the subnormal
    numbers. The value may exceed the binary64 range; the caller checks. *)
Definition nearest_binary64 (n d : Z) : Q :=
  let e := floor_log2_ratio n d in
  let ulp := (Z.max e (-1022) - 52)%Z in
  if (0 <=? ulp)%Z
  then inject_Z (round_half_even n (d * 2 ^ ulp) * 2 ^ ulp)
  else Qred (Qmake (round_half_even (n * 2 ^ (- ulp)) d) (Z.to_pos (2 ^ (- ulp)))).

(** A [float]: the rational value of a finite binary64 number. *)
Abbreviation float := Q.

(** A decimal literal of the script, [n / d] in lowest decimal terms. *)
Definition float_literal (n d : Z) : float :=
  if (n =? 0)%Z then 0%Q else nearest_binary64 n d.

Definition float_lt (x y : float) : bool := negb (Qle_bool y x).

(** [a / b] on [int]: correctly rounded, ZeroDivisionError on a zero
    divisor, OverflowError when the quotient exceeds the binary64 range. *)
Definition int_truediv (a b : Z) : result float :=
  if (b =? 0)%Z then Raise ZeroDivisionError
  else if (a =? 0)%Z then Ok 0%Q
  else
    let v := nearest_binary64 (Z.abs a) (Z.abs b) in
    if Qle_bool (inject_Z (2 ^ 1024)) v then Raise OverflowError
    else Ok (if (Z.sgn a * Z.sgn b <? 0)%Z then Qopp v else v).

(** ** Configuration *)

(** SENIOR_ENGINEER_STANDARDS *)
Record Standards : Type := {
  min_effective_lines : Z;
  min_commits : Z;
  effective_ratio_threshold : float;  (* key "effective_ratio" *)
}.

Definition SENIOR_ENGINEER_STANDARDS : Standards :=
  {| min_effective_lines := 80;
     min_commits := 2;
     effective_ratio_threshold := float_literal 6 10 |}.

(** ** Data structures *)

Module CommitStats.
Record t : Type := mk {
  sha : str;
  message : str;
  additions : Z;
  deletions : Z;
  effective_additions : Z;
  files_changed : Z;
}.
End CommitStats.

(** The issue strings of [meets_standard], each as its template with the
    values it interpolates. *)
Inductive issue : Type :=
| FewEffectiveLines (actual required : Z)
| FewCommits (actual required : Z)
| LowEffectiveRatio (actual required : float).

Module DeveloperStats.
Record t : Type := mk {
  name : str;
  email : str;
  commits : list CommitStats.t;
  total_additions : Z;
  total_deletions : Z;
  effective_additions : Z;
  files_changed : Z;
  projects : gset str;
}.

(** The dataclass constructor with its defaults. *)
Definition new (name email : str) : t := mk name email [] 0 0 0 0 ∅.

Definition commit_count (self : t) : Z := Z.of_nat (length (commits self)).

Definition effective_ratio (self : t) : result float :=
  if (total_additions self =? 0)%Z then Ok 0%Q
  else int_truediv (effective_additions self) (total_additions self).

Definition meets_standard (self : t) : result (bool * list issue) :=
  let issues : list issue := [] in
  let standards := SENIOR_ENGINEER_STANDARDS in
  let issues :=
    if (effective_additions self <? min_effective_lines standards)%Z
    then issues ++ [FewEffectiveLines (effective_additions self) (min_effective_lines standards)]
    else issues in
  let issues :=
    if (commit_count self <? min_commits standards)%Z
    then issues ++ [FewCommits (commit_count self) (min_commits standards)]
    else issues in
  result_bind (effective_ratio self) (fun ratio =>
  if float_lt ratio (effective_ratio_threshold standards) && (50 <? total_additions self)%Z
  then
    result_bind (effective_ratio self) (fun shown =>
    let issues := issues ++ [LowEffectiveRatio shown (effective_ratio_threshold standards)] in
    Ok (Nat.eqb (length issues) 0, issues))
  else Ok (Nat.eqb (length issues) 0, issues)).
End DeveloperStats.

(** ** The outside world *)

(** The objects of the hosting API, with the keys the script reads:
    subscripted keys are fields, keys read with [.get] are optional. *)
Record Project : Type := { project_id : Z; project_name : str }.

Record Stats : Type := { stats_additions : option Z; stats_deletions : option Z }.

Record Commit : Type := {
  commit_id : str;
  author_email : option str;
  author_name : option str;
  stats : option Stats;
  title : option str;
}.

Record GitLabClient : Type := { url : str; token : str }.

Inductive endpoint : Type :=
| GroupProjects (group : str)                       (* /groups/{group}/projects *)
| ProjectCommits (project : Z) (since until : str)  (* /projects/{id}/repository/commits *)
| CommitDiff (project : Z) (sha : str).             (* /projects/{id}/repository/commits/{sha}/diff *)

Record Response : Type := { status_code : Z; text : str }.

(** The JSON bodies the notifier posts. *)
Inductive payload : Type :=
| WecomMarkdown (content : str)
| DingtalkMarkdown (title text : str)
| TelegramMessage (chat_id text : str).   (* parse_mode Markdown, no link preview *)

(** The title of the second webhook's message: 代码产出日报. *)
Definition DINGTALK_TITLE : str := [0x4ee3; 0x7801; 0x4ea7; 0x51fa; 0x65e5; 0x62a5]%N.

(** The report date, in the two formats the script renders it. *)
Record Date : Type := {
  dashed : str;    (* strftime('%Y-%m-%d') *)
  compact : str;   (* strftime('%Y%m%d') *)
}.

(** What the script prints, each line as its template with the values it
    interpolates. *)
Inductive message : Type :=
| MissingVariable (variable : string)
| Banner
| ReportDate (date : str)
| Blank
| TimeRange (since until : str)
| ProjectsFound (n : nat)
| AnalyzingProject (name : str)
| CommitsFound (n : nat)
| AnalyzeWarning (sha : str) (e : exn)
| NoCommits
| Report (text : str)
| ReportSaved (file : str)
| WecomResult (status : Z)
| DingtalkResult (status : Z)
| TelegramSent (i n : nat)
| TelegramFailed (status : Z) (text : str)
| StatsFailed (e : exn)
| Traceback (e : exn).

Inductive event : Type :=
| Get (client : GitLabClient) (e : endpoint) (paging : option (nat * nat))  (* per_page, page *)
| Post (url : str) (body : payload)
| Print (m : message)
| WriteFile (file : str) (content : str).

(** The answers of the outside world: the hosting API, by endpoint, page
    size and page, the notification endpoints and the file system. An answer is a
    value or the exception the call raises. *)
Record World : Type := {
  projects_page : GitLabClient -> str -> nat -> nat -> result (list Project);
  commits_page : GitLabClient -> Z -> str -> str -> nat -> nat -> result (list Commit);
  commit_diff : GitLabClient -> Z -> str -> result (list Diff);
  http_post : str -> payload -> result Response;
  write_file : str -> str -> result unit;
}.

(** ** Effects

    A computation extends the trace of events and returns a value or
    raises; [None] stands for a loop that has not ended when the fuel ran
    out. *)

Definition M (A : Type) : Type := list event -> option (result A * list event).

Definition ret {A} (a : A) : M A := fun t => Some (Ok a, t).

Definition bind {A B} (m : M A) (k : A -> M B) : M B :=
  fun t =>
    match m t with
    | Some (Ok a, t') => k a t'
    | Some (Raise e, t') => Some (Raise e, t')
    | None => None
    end.

Definition lift {A} (r : result A) : M A := fun t => Some (r, t).

Definition emit (e : event) : M unit := fun t => Some (Ok tt, t ++ [e]).

(** [print]: the line is written to the console, which is taken to accept
    it; a console that cannot encode the text, on which [print] raises, is
    not part of the model. *)
Definition print (m : message) : M unit := emit (Print m).

Definition out_of_fuel {A} : M A := fun _ => None.

(** [try: body except Exception as e: handler e] *)
Definition try_except {A} (body : M A) (handler : exn -> M A) : M A :=
  fun t =>
    match body t with
    | Some (Raise e, t') => handler e t'
    | other => other
    end.

Declare Scope py_scope.
Delimit Scope py_scope with py.
Notation "x <- m ;; k" := (bind m (fun x => k))
  (at level 100, m at next level, right associativity) : py_scope.
Notation "m ;; k" := (bind m (fun _ => k))
  (at level 100, right associativity) : py_scope.
Local Open Scope py_scope.

(** [for x in l: s = body(s, x)] *)
Fixpoint for_each {A S} (l : list A) (body : S -> A -> M S) (s : S) : M S :=
  match l with
  | [] => ret s
  | x :: l' => s' <- body s x ;; for_each l' body s'
  end.

Definition is_empty {A} (l : list A) : bool :=
  match l with [] => true | _ => false end.

(** The environment variables, [None] when unset. *)
Record Env : Type := {
  GITLAB_URL : str;
  GITLAB_TOKEN : str;
  GITLAB_GROUP : str;
  PROJECT_PREFIXES : list str;
  WECOM_WEBHOOK : option str;
  DINGTALK_WEBHOOK : option str;
  TELEGRAM_BOT_TOKEN : option str;
  TELEGRAM_CHAT_ID : option str;
  report_dir : str;   (* the directory of the script *)
}.

(** The two report renderers, string templating over the aggregates: a
    text, or the exception the rendering raises. *)
Record Renderer : Type := {
  generate_report : gmap str DeveloperStats.t -> Date -> result str;
  generate_markdown_report : gmap str DeveloperStats.t -> Date -> result str;
}.

Section Script.

Variable world : World.

(** *** GitLab API *)

(** [GitLabClient.__init__]: [url.rstrip("/")] *)
Fixpoint lstrip_slash (u : str) : str :=
  match u with
  | c :: u' => if N.eqb c 0x2f then lstrip_slash u' else u
  | [] => []
  end.

Definition rstrip_slash (u : str) : str := rev (lstrip_slash (rev u)).

Definition new_client (u tok : str) : GitLabClient := {| url := rstrip_slash u; token := tok |}.

(** [_get] on each of the three endpoints: one request, whose answer is
    returned or whose exception is raised. *)
Definition _get_projects (self : GitLabClient) (group : str) (per_page page : nat)
  : M (list Project) :=
  emit (Get self (GroupProjects group) (Some (per_page, page))) ;;
  lift (projects_page world self group per_page page).

Definition _get_commits (self : GitLabClient) (project : Z) (since until : str)
  (per_page page : nat) : M (list Commit) :=
  emit (Get self (ProjectCommits project since until) (Some (per_page, page))) ;;
  lift (commits_page world self project since until per_page page).

(** [_get_all]: the [while True] loop, [fuel] bounding its iterations. *)
Fixpoint _get_all_loop {A} (fuel : nat) (get : nat -> nat -> M (list A)) (page : nat)
  (results : list A) : M (list A) :=
  match fuel with
  | O => out_of_fuel
  | S fuel' =>
      data <- get 100%nat page ;;
      if is_empty data then ret results
      else
        let results := results ++ data in
        if (length data <? 100)%nat then ret results
        else _get_all_loop fuel' get (page + 1)%nat results
  end.

Definition _get_all {A} (fuel : nat) (get : nat -> nat -> M (list A)) : M (list A) :=
  _get_all_loop fuel get 1%nat [].

(** [p["name"].startswith(PROJECT_PREFIXES)], a tuple of prefixes *)
Definition startswith_any (s : str) (prefixes : list str) : bool :=
  existsb (startswith s) prefixes.

Definition get_group_projects (fuel : nat) (prefixes : list str) (self : GitLabClient)
  (group : str) : M (list Project) :=
  projects <- _get_all fuel (_get_projects self group) ;;
  if is_empty prefixes then ret projects
  else ret (List.filter (fun p => startswith_any (project_name p) prefixes) projects).

Definition get_project_commits (fuel : nat) (self : GitLabClient) (project : Z)
  (since until : str) : M (list Commit) :=
  _get_all fuel (_get_commits self project since until).

Definition get_commit_diff (self : GitLabClient) (project : Z) (sha : str) : M (list Diff) :=
  emit (Get self (CommitDiff project sha) None) ;;
  lift (commit_diff world self project sha).

(** *** Code analysis *)

Definition analyze_commit_diff (client : GitLabClient) (project : Z) (sha : str) : M Z :=
  try_except
    (diffs <- get_commit_diff client project sha ;;
     lift (analyze_diffs diffs))
    (fun e => print (AnalyzeWarning sha e) ;; ret 0%Z).

(** *** Statistics *)

(** The body of the loop over the commits of one project. *)
Definition collect_commit (client : GitLabClient) (project : Project)
  (developers : gmap str DeveloperStats.t) (commit : Commit)
  : M (gmap str DeveloperStats.t) :=
  let author_email := default (lit "unknown") (author_email commit) in
  let author_name := default (lit "Unknown") (author_name commit) in
  (* the aggregate is created at the first commit of its email *)
  let dev :=
    match developers !! author_email with
    | Some dev => dev
    | None => DeveloperStats.new author_name author_email
    end in
  let projects := {[ project_name project ]} ∪ DeveloperStats.projects dev in
  let stats := default {| stats_additions := None; stats_deletions := None |} (stats commit) in
  let additions := default 0%Z (stats_additions stats) in
  let deletions := default 0%Z (stats_deletions stats) in
  effective <- analyze_commit_diff client (project_id project) (commit_id commit) ;;
  let commit_stats :=
    CommitStats.mk (take 8 (commit_id commit)) (take 50 (default [] (title commit)))
      additions deletions effective 0 in
  ret (<[ author_email :=
            DeveloperStats.mk (DeveloperStats.name dev) (DeveloperStats.email dev)
              (DeveloperStats.commits dev ++ [commit_stats])
              (DeveloperStats.total_additions dev + additions)
              (DeveloperStats.total_deletions dev + deletions)
              (DeveloperStats.effective_additions dev + effective)
              (DeveloperStats.files_changed dev)
              projects ]> developers).

(** The body of the loop over the projects. *)
Definition collect_project (fuel : nat) (client : GitLabClient) (since until : str)
  (developers : gmap str DeveloperStats.t) (project : Project)
  : M (gmap str DeveloperStats.t) :=
  print (AnalyzingProject (project_name project)) ;;
  commits <- get_project_commits fuel client (project_id project) since until ;;
  print (CommitsFound (length commits)) ;;
  for_each commits (collect_commit client project) developers.

Definition collect_stats (fuel : nat) (prefixes : list str) (group : str)
  (client : GitLabClient) (date : Date) : M (gmap str DeveloperStats.t) :=
  let since := dashed date ++ lit "T00:00:00+08:00" in
  let until := dashed date ++ lit "T23:59:59+08:00" in
  print (TimeRange since until) ;;
  projects <- get_group_projects fuel prefixes client group ;;
  print (ProjectsFound (length projects)) ;;
  for_each projects (collect_project fuel client since until) ∅.

(** *** Notifications *)

(** [requests.post(url, json=body, timeout=10)] *)
Definition post (url : str) (body : payload) : M Response :=
  emit (Post url body) ;;
  lift (http_post world url body).

Definition send_wecom (webhook content : str) : M unit :=
  resp <- post webhook (WecomMarkdown content) ;;
  print (WecomResult (status_code resp)).

Definition send_dingtalk (webhook content : str) : M unit :=
  resp <- post webhook (DingtalkMarkdown DINGTALK_TITLE content) ;;
  print (DingtalkResult (status_code resp)).

(** The split of [send_telegram]: lines are gathered into a part until
    the next one would take it over [max_len]. *)
Definition max_len : nat := 4000.

Definition split_step (st : list str * str) (line : str) : list str * str :=
  let '(parts, current) := st in
  if (max_len <? length current + length line + 1)%nat
  then (parts ++ [current], line)
  else (parts, if is_empty current then line else current ++ NEWLINE :: line).

Definition telegram_parts (content : str) : list str :=
  if (length content <=? max_len)%nat then [content]
  else
    let '(parts, current) := fold_left split_step (split_newline content) ([], []) in
    if is_empty current then parts else parts ++ [current].

Definition send_part (url chat_id : str) (n : nat) (i : nat) (part : str) : M nat :=
  resp <- post url (TelegramMessage chat_id part) ;;
  (if (status_code resp =? 200)%Z
   then print (TelegramSent (i + 1) n)
   else print (TelegramFailed (status_code resp) (text resp))) ;;
  ret (i + 1)%nat.

Definition send_telegram (bot_token chat_id content : str) : M unit :=
  let url := lit "https://api.telegram.org/bot" ++ bot_token ++ lit "/sendMessage" in
  let parts := telegram_parts content in
  for_each parts (send_part url chat_id (length parts)) 0%nat ;;
  ret tt.

(** *** Main *)

(** The truth value of an optional string. *)
Definition truthy (v : option str) : bool :=
  match v with
  | Some (_ :: _) => true
  | _ => false
  end.

(** The notification block of [main]. *)
Definition send_notifications (env : Env) (md_report : str) : M unit :=
  (if truthy (WECOM_WEBHOOK env)
   then send_wecom (default [] (WECOM_WEBHOOK env)) md_report
   else ret tt) ;;
  (if truthy (DINGTALK_WEBHOOK env)
   then send_dingtalk (default [] (DINGTALK_WEBHOOK env)) md_report
   else ret tt) ;;
  if truthy (TELEGRAM_BOT_TOKEN env) && truthy (TELEGRAM_CHAT_ID env)
  then send_telegram (default [] (TELEGRAM_BOT_TOKEN env))
         (default [] (TELEGRAM_CHAT_ID env)) md_report
  else ret tt.

(** [main], [yesterday] being the report date; the value is the exit
    code. *)
Definition main (fuel : nat) (env : Env) (render : Renderer) (yesterday : Date) : M Z :=
  if is_empty (GITLAB_URL env) then print (MissingVariable "GITLAB_URL") ;; ret 1%Z
  else if is_empty (GITLAB_TOKEN env) then print (MissingVariable "GITLAB_TOKEN") ;; ret 1%Z
  else if is_empty (GITLAB_GROUP env) then print (MissingVariable "GITLAB_GROUP") ;; ret 1%Z
  else
    print Banner ;;
    print (ReportDate (dashed yesterday)) ;;
    print Blank ;;
    try_except
      (let client := new_client (GITLAB_URL env) (GITLAB_TOKEN env) in
       stats <- collect_stats fuel (PROJECT_PREFIXES env) (GITLAB_GROUP env) client yesterday ;;
       if bool_decide (stats = ∅) then print NoCommits ;; ret 0%Z
       else
         text_report <- lift (generate_report render stats yesterday) ;;
         md_report <- lift (generate_markdown_report render stats yesterday) ;;
         print (Report text_report) ;;
         let report_file :=
           report_dir env ++ lit "/report_" ++ compact yesterday ++ lit ".md" in
         emit (WriteFile report_file md_report) ;;
         lift (write_file world report_file md_report) ;;
         print (ReportSaved report_file) ;;
         send_notifications env md_report ;;
         ret 0%Z)
      (fun e => print (StatsFailed e) ;; print (Traceback e) ;; ret 1%Z).

End Script.

(** ** The collector, stated without effects *)

(** The analysis of a commit before any handling: the count over its diff
    entries, or the exception of the request or of the loop. *)
Definition analysis (world : World) (client : GitLabClient) (project : Z) (sha : str)
  : result Z :=
  result_bind (commit_diff world client project sha) analyze_diffs.

(** The value [analyze_commit_diff] returns for a commit: the count, or
    zero when the analysis raises. *)
Definition analysed (world : World) (client : GitLabClient) (project : Z) (sha : str) : Z :=
  match analysis world client project sha with
  | Ok effective => effective
  | Raise _ => 0%Z
  end.

(** The additions the API reports for a commit, zero when it reports none. *)
Definition reported_additions (commit : Commit) : Z :=
  default 0%Z (stats_additions
                 (default {| stats_additions := None; stats_deletions := None |} (stats commit))).

Definition reported_deletions (commit : Commit) : Z :=
  default 0%Z (stats_deletions
                 (default {| stats_additions := None; stats_deletions := None |} (stats commit))).

Definition commit_email (commit : Commit) : str := default (lit "unknown") (author_email commit).

Definition commit_name (commit : Commit) : str := default (lit "Unknown") (author_name commit).

(** The insertion of one commit, whose effective count is [effective],
    into the aggregates. *)
Definition record_commit (project : Project) (commit : Commit) (effective : Z)
  (developers : gmap str DeveloperStats.t) : gmap str DeveloperStats.t :=
  let dev := default (DeveloperStats.new (commit_name commit) (commit_email commit))
               (developers !! commit_email commit) in
  <[ commit_email commit :=
       DeveloperStats.mk (DeveloperStats.name dev) (DeveloperStats.email dev)
         (DeveloperStats.commits dev ++
            [CommitStats.mk (take 8 (commit_id commit)) (take 50 (default [] (title commit)))
               (reported_additions commit) (reported_deletions commit) effective 0])
         (DeveloperStats.total_additions dev + reported_additions commit)
         (DeveloperStats.total_deletions dev + reported_deletions commit)
         (DeveloperStats.effective_additions dev + effective)
         (DeveloperStats.files_changed dev)
         ({[ project_name project ]} ∪ DeveloperStats.projects dev) ]> developers.

(** The events of one run of [analyze_commit_diff]. *)
Definition analysis_events (world : World) (client : GitLabClient) (project : Z) (sha : str)
  : list event :=
  Get client (CommitDiff project sha) None ::
  match analysis world client project sha with
  | Ok _ => []
  | Raise e => [Print (AnalyzeWarning sha e)]
  end.

(** The invariant of an aggregate. *)
Definition effective_within_total (dev : DeveloperStats.t) : Prop :=
  (0 <= DeveloperStats.effective_additions dev <= DeveloperStats.total_additions dev)%Z.

(** A commit the API lists for a project, on some page of some time range. *)
Definition served (world : World) (client : GitLabClient) (project : Z) (commit : Commit) : Prop :=
  exists since until per_page page commits,
    commits_page world client project since until per_page page = Ok commits /\
    In commit commits.

(** The API's statistics agree with its diffs: for every commit it lists,
    the reported additions are at least the analysed effective count. *)
Definition additions_cover_analysis (world : World) : Prop :=
  forall client project commit,
    served world client project commit ->
    (analysed world client project (commit_id commit) <= reported_additions commit)%Z.

(** The display name of the first commit of [email] in [commits]. *)
Fixpoint first_seen_name (email : str) (commits : list Commit) : option str :=
  match commits with
  | [] => None
  | c :: rest =>
      if decide (commit_email c = email) then Some (commit_name c)
      else first_seen_name email rest
  end.

(** The display name of the last commit of [email] in [commits]. *)
Definition last_seen_name (email : str) (commits : list Commit) : option str :=
  first_seen_name email (rev commits).

(** The loop over the commits of a project, as a fold of insertions. *)
Definition insert_analysed (world : World) (client : GitLabClient) (project : Project)
  (developers : gmap str DeveloperStats.t) (commit : Commit) : gmap str DeveloperStats.t :=
  record_commit project commit
    (analysed world client (project_id project) (commit_id commit)) developers.


(** ** Sample worlds *)

Definition sample_client : GitLabClient := new_client (lit "https://gitlab.example.com/") (lit "t0ken").

Definition sample_date : Date := {| dashed := lit "2024-05-06"; compact := lit "20240506" |}.

Definition sample_project : Project := {| project_id := 7; project_name := lit "app-core" |}.

Definition sample_commit (name : string) (additions : option Z) : Commit :=
  {| commit_id := lit "0123456789abcdef";
     author_email := Some (lit "dev@example.com");
     author_name := Some (lit name);
     stats := option_map (fun a => {| stats_additions := Some a; stats_deletions := Some 0%Z |})
                additions;
     title := Some (lit "add a field") |}.

(** One Java file with one added statement. *)
Definition sample_diffs : list Diff :=
  [ {| new_path := Text (lit "src/A.java");
       diff := Text (lit "@@ -1,0 +1,1 @@" ++ NEWLINE :: lit "+int x = 1;") |} ].

(** A world with one project, whose commits come in the given pages, every
    commit having the same diff, every POST having the same answer. *)
Definition sample_world (pages : nat -> list Commit) (diffs : result (list Diff))
  (answer : result Response) : World :=
  {| projects_page := fun _ _ _ page => Ok (if (page =? 1)%nat then [sample_project] else []);
     commits_page := fun _ _ _ _ _ page => Ok (pages page);
     commit_diff := fun _ _ _ => diffs;
     http_post := fun _ _ => answer;
     write_file := fun _ _ => Ok tt |}.

Definition first_page (commits : list Commit) (page : nat) : list Commit :=
  if (page =? 1)%nat then commits else [].

(** The API reports no statistics for a commit that adds a line. *)
Definition understated_world : World :=
  sample_world (first_page [sample_commit "Dev" None]) (Ok sample_diffs)
    (Ok {| status_code := 200; text := [] |}).

(** The API reports three additions for a commit that adds a line. *)
Definition consistent_world : World :=
  sample_world (first_page [sample_commit "Dev" (Some 3%Z)]) (Ok sample_diffs)
    (Ok {| status_code := 200; text := [] |}).

(** Two commits of one email under two display names. *)
Definition renaming_world : World :=
  sample_world (first_page [sample_commit "Alice" (Some 3%Z); sample_commit "Alicia" (Some 3%Z)])
    (Ok sample_diffs) (Ok {| status_code := 200; text := [] |}).

(** The items of a page of a listing, none when the request fails. *)
Definition page_items {A} (listing : nat -> result (list A)) (page : nat) : list A :=
  match listing page with
  | Ok data => data
  | Raise _ => []
  end.

(** Two full pages of commits and a page of 37. *)
Definition three_pages (page : nat) : list Commit :=
  match page with
  | 1 | 2 => repeat (sample_commit "Dev" (Some 3%Z)) 100
  | 3 => repeat (sample_commit "Dev" (Some 3%Z)) 37
  | _ => []
  end%nat.

Definition three_pages_world : World :=
  sample_world three_pages (Ok sample_diffs) (Ok {| status_code := 200; text := [] |}).

(** The diff listing of every commit has a Java entry without diff text. *)
Definition null_diff_world : World :=
  sample_world (first_page [sample_commit "Dev" (Some 3%Z)])
    (Ok [ {| new_path := Text (lit "src/A.java"); diff := NotText |} ])
    (Ok {| status_code := 200; text := [] |}).

(** The diff of every commit fails to load. *)
Definition failing_diff_world : World :=
  sample_world (first_page [sample_commit "Dev" (Some 3%Z)]) (Raise (HTTPError 500))
    (Ok {| status_code := 200; text := [] |}).

(** The insertion of a commit of a project, in the order of the pass. *)
Definition insert_processed (world : World) (client : GitLabClient)
  (developers : gmap str DeveloperStats.t) (pc : Project * Commit) : gmap str DeveloperStats.t :=
  insert_analysed world client (fst pc) developers (snd pc).

(** ** The notifier, stated on the trace *)

(** The requests a trace posts, in order. *)
Definition posted (t : list event) : list (str * payload) :=
  flat_map (fun e => match e with Post u b => [(u, b)] | _ => [] end) t.

Definition telegram_url (bot_token : str) : str :=
  lit "https://api.telegram.org/bot" ++ bot_token ++ lit "/sendMessage".

(** The requests of the channels that are configured, in the order of
    [main]. *)
Definition expected_posts (env : Env) (md_report : str) : list (str * payload) :=
  (if truthy (WECOM_WEBHOOK env)
   then [(default [] (WECOM_WEBHOOK env), WecomMarkdown md_report)] else []) ++
  (if truthy (DINGTALK_WEBHOOK env)
   then [(default [] (DINGTALK_WEBHOOK env), DingtalkMarkdown DINGTALK_TITLE md_report)]
   else []) ++
  (if truthy (TELEGRAM_BOT_TOKEN env) && truthy (TELEGRAM_CHAT_ID env)
   then List.map (fun part => (telegram_url (default [] (TELEGRAM_BOT_TOKEN env)),
                               TelegramMessage (default [] (TELEGRAM_CHAT_ID env)) part))
          (telegram_parts md_report)
   else []).

Definition sample_env : Env :=
  {| GITLAB_URL := lit "https://gitlab.example.com";
     GITLAB_TOKEN := lit "t0ken";
     GITLAB_GROUP := lit "team";
     PROJECT_PREFIXES := [];
     WECOM_WEBHOOK := Some (lit "https://wecom.example.com/hook");
     DINGTALK_WEBHOOK := Some (lit "https://dingtalk.example.com/hook");
     TELEGRAM_BOT_TOKEN := Some (lit "42:secret");
     TELEGRAM_CHAT_ID := Some (lit "-1001");
     report_dir := lit "/opt/metrics" |}.

Definition sample_renderer : Renderer :=
  {| generate_report := fun _ _ => Ok (lit "report");
     generate_markdown_report := fun _ _ => Ok (lit "# report") |}.

(** Every notification endpoint answers with a server error. *)
Definition rejecting_world : World :=
  sample_world (first_page [sample_commit "Dev" (Some 3%Z)]) (Ok sample_diffs)
    (Ok {| status_code := 500; text := lit "internal error" |}).

(** No notification endpoint can be reached. *)
Definition unreachable_world : World :=
  sample_world (first_page [sample_commit "Dev" (Some 3%Z)]) (Ok sample_diffs)
    (Raise (RequestException (lit "connection timed out"))).

(** Every notification request gets a response, of whatever status. *)
Definition responsive (world : World) : Prop :=
  forall url body, exists resp, http_post world url body = Ok resp.

(** The path of the report file. *)
Definition report_path (env : Env) (date : Date) : str :=
  report_dir env ++ lit "/report_" ++ compact date ++ lit ".md".

(** The trace at the point where [main] starts collecting. *)
Definition main_prologue (t : list event) (date : Date) : list event :=
  ((t ++ [Print Banner]) ++ [Print (ReportDate (dashed date))]) ++ [Print Blank].

(** A report of four lines: two that fill a part to the limit, a blank
    line, and a last line. *)
Definition blank_boundary_content : str :=
  repeat 0x61%N 1999 ++ NEWLINE :: repeat 0x61%N 2000 ++ NEWLINE :: NEWLINE :: lit "b".


(** ** The project prefixes

    [PROJECT_PREFIXES]: the variable of the same name split on commas,
    each field stripped of the white space at its ends, the empty ones left
    out; no prefix at all when the variable is unset or empty. *)

(** [s.split(sep)] for a separator of one character. *)
Fixpoint split_on (sep : char) (s : str) : list str :=
  match s with
  | [] => [[]]
  | c :: s' =>
      if N.eqb c sep then [] :: split_on sep s'
      else match split_on sep s' with
           | l :: ls => (c :: l) :: ls
           | [] => [[c]]
           end
  end.

(** [s.lstrip()] *)
Fixpoint lstrip (s : str) : str :=
  match s with
  | c :: s' => if is_space c then lstrip s' else s
  | [] => []
  end.

(** [s.strip()] *)
Definition strip (s : str) : str := rev (lstrip (rev (lstrip s))).

Definition COMMA : char := 0x2c%N.

Definition parse_project_prefixes (_prefix_env : str) : list str :=
  if is_empty _prefix_env then []
  else List.filter (fun p => negb (is_empty p)) (List.map strip (split_on COMMA _prefix_env)).

(** The request of a page of the project listing of a group. *)
Definition projects_request (client : GitLabClient) (group : str) (page : nat) : event :=
  Get client (GroupProjects group) (Some (100%nat, page)).

(** The request of a page of the commit listing of a project. *)
Definition commits_request (client : GitLabClient) (project : Z) (since until : str)
  (page : nat) : event :=
  Get client (ProjectCommits project since until) (Some (100%nat, page)).

(** Every page of commits is full. *)
Definition endless_world : World :=
  sample_world (fun _ => repeat (sample_commit "Dev" (Some 3%Z)) 100) (Ok sample_diffs)
    (Ok {| status_code := 200; text := [] |}).

(** The second page of every listing of commits is refused. *)
Definition broken_second_page_world : World :=
  {| projects_page := fun _ _ _ page => Ok (if (page =? 1)%nat then [sample_project] else []);
     commits_page := fun _ _ _ _ _ page =>
       if (page =? 1)%nat then Ok (repeat (sample_commit "Dev" (Some 3%Z)) 100)
       else Raise (HTTPError 502);
     commit_diff := fun _ _ _ => Ok sample_diffs;
     http_post := fun _ _ => Ok {| status_code := 200; text := [] |};
     write_file := fun _ _ => Ok tt |}.

(** ** The aggregates, commit by commit *)

(** The record [collect_stats] appends for a commit of a project. *)
Definition commit_record (world : World) (client : GitLabClient) (pc : Project * Commit)
  : CommitStats.t :=
  CommitStats.mk (take 8 (commit_id (snd pc))) (take 50 (default [] (title (snd pc))))
    (reported_additions (snd pc)) (reported_deletions (snd pc))
    (analysed world client (project_id (fst pc)) (commit_id (snd pc))) 0.

(** The update of the aggregate of the author of a commit. *)
Definition apply_commit (world : World) (client : GitLabClient) (dev : DeveloperStats.t)
  (pc : Project * Commit) : DeveloperStats.t :=
  DeveloperStats.mk (DeveloperStats.name dev) (DeveloperStats.email dev)
    (DeveloperStats.commits dev ++ [commit_record world client pc])
    (DeveloperStats.total_additions dev + reported_additions (snd pc))
    (DeveloperStats.total_deletions dev + reported_deletions (snd pc))
    (DeveloperStats.effective_additions dev
     + analysed world client (project_id (fst pc)) (commit_id (snd pc)))
    (DeveloperStats.files_changed dev)
    ({[ project_name (fst pc) ]} ∪ DeveloperStats.projects dev).

(** The commits of an email among those of a pass, in order. *)
Definition commits_of (key : str) (processed : list (Project * Commit))
  : list (Project * Commit) :=
  List.filter (fun pc => bool_decide (commit_email (snd pc) = key)) processed.

(** ** Sample runs of [main] *)

(** The access token is not configured. *)
Definition tokenless_env : Env :=
  {| GITLAB_URL := lit "https://gitlab.example.com";
     GITLAB_TOKEN := [];
     GITLAB_GROUP := lit "team";
     PROJECT_PREFIXES := [];
     WECOM_WEBHOOK := Some (lit "https://wecom.example.com/hook");
     DINGTALK_WEBHOOK := None;
     TELEGRAM_BOT_TOKEN := None;
     TELEGRAM_CHAT_ID := None;
     report_dir := lit "/opt/metrics" |}.

(** The project has no commit on the report date. *)
Definition quiet_world : World :=
  sample_world (first_page []) (Ok sample_diffs) (Ok {| status_code := 200; text := [] |}).

(** The report file cannot be written. *)
Definition read_only_world : World :=
  {| projects_page := fun _ _ _ page => Ok (if (page =? 1)%nat then [sample_project] else []);
     commits_page := fun _ _ _ _ _ page => Ok (first_page [sample_commit "Dev" (Some 3%Z)] page);
     commit_diff := fun _ _ _ => Ok sample_diffs;
     http_post := fun _ _ => Ok {| status_code := 200; text := [] |};
     write_file := fun _ _ => Raise (OSError (lit "read-only file system")) |}.

(** All the required variables are set. *)
Definition configured (env : Env) : Prop :=
  is_empty (GITLAB_URL env) = false /\
  is_empty (GITLAB_TOKEN env) = false /\
  is_empty (GITLAB_GROUP env) = false.

(** The collection as [main] runs it. *)
Definition main_collection (world : World) (fuel : nat) (env : Env) (date : Date)
  : M (gmap str DeveloperStats.t) :=
  collect_stats world fuel (PROJECT_PREFIXES env) (GITLAB_GROUP env)
    (new_client (GITLAB_URL env) (GITLAB_TOKEN env)) date.

(** The listing of the commits of every project is refused. *)
Definition refused_commits_world : World :=
  {| projects_page := fun _ _ _ page => Ok (if (page =? 1)%nat then [sample_project] else []);
     commits_page := fun _ _ _ _ _ _ => Raise (HTTPError 403);
     commit_diff := fun _ _ _ => Ok sample_diffs;
     http_post := fun _ _ => Ok {| status_code := 200; text := [] |};
     write_file := fun _ _ => Ok tt |}.

(** The hosting API cannot be reached. *)
Definition offline_world : World :=
  {| projects_page := fun _ _ _ _ => Raise (RequestException (lit "connection refused"));
     commits_page := fun _ _ _ _ _ _ => Raise (RequestException (lit "connection refused"));
     commit_diff := fun _ _ _ => Raise (RequestException (lit "connection refused"));
     http_post := fun _ _ => Ok {| status_code := 200; text := [] |};
     write_file := fun _ _ => Ok tt |}.

(** The time window of a report date. *)
Definition window_start (date : Date) : str := dashed date ++ lit "T00:00:00+08:00".

Definition window_end (date : Date) : str := dashed date ++ lit "T23:59:59+08:00".

(** An aggregate of two commits with 80 effective additions out of 100. *)
Definition passing_aggregate : DeveloperStats.t :=
  DeveloperStats.mk (lit "Dev") (lit "dev@example.com")
    [CommitStats.mk (lit "01234567") (lit "one") 60 0 50 0;
     CommitStats.mk (lit "89abcdef") (lit "two") 40 0 30 0]
    100 0 80 0 {[ lit "app-core" ]}.

(** ** Sample messages *)

(** A first line of 4000 characters, then a short line. *)
Definition long_first_line_content : str := repeat 0x61%N 4000 ++ NEWLINE :: lit "b".

(** The outcome [send_telegram] prints for part [i] of [n]. *)
Definition part_outcome (resp : Response) (i n : nat) : message :=
  if (status_code resp =? 200)%Z then TelegramSent i n
  else TelegramFailed (status_code resp) (text resp).

(** ** The first visible character of a line *)

Definition first_visible (line : str) : option char := head (lstrip line).

(** The characters with which an excluded line that is not blank begins,
    after its indentation. *)
Definition MARKERS : str := lit "/*@}{)ip".

(** The two forms of the patterns of the script: [^\s*$], and [^\s*] before
    a literal character that is no white space. *)
Definition indentable (p : pattern) : bool :=
  match p with
  | [Bol; Star Space; Eol] => true
  | Bol :: Star Space :: One (Chr m) :: body => negb (is_space m) && no_bol body
  | _ => false
  end.

(** The literal character that follows [^\s*]. *)
Definition pattern_lead (p : pattern) : option char :=
  match p with
  | Bol :: Star Space :: One (Chr m) :: _ => Some m
  | _ => None
  end.

Definition lead_is_marker (p : pattern) : bool :=
  match pattern_lead p with
  | Some m => existsb (N.eqb m) MARKERS
  | None => true
  end.

(** An added Java line and an entry without diff text. *)
Definition mixed_diffs : list Diff :=
  sample_diffs ++ [ {| new_path := Text (lit "src/B.java"); diff := NotText |} ].

Definition mixed_diff_world : World :=
  sample_world (first_page [sample_commit "Dev" (Some 3%Z)]) (Ok mixed_diffs)
    (Ok {| status_code := 200; text := [] |}).

(** An entry on which the loop of [analyze_commit_diff] raises: a path
    that is no string, or a Java entry whose diff text is no string. *)
Definition malformed (d : Diff) : bool :=
  match new_path d, diff d with
  | NotText, _ => true
  | Text path, NotText => endswith path (lit ".java")
  | _, _ => false
  end.

(** ** What the API lists *)

(** A paginated listing that ends at page [n]: the pages before it hold at
    least 100 items each, page [n] holds fewer, and [items] are the items
    of the pages 1 to [n], in that order. *)
Definition listing_ends {A} (answers : nat -> result (list A)) (n : nat) (items : list A)
  : Prop :=
  (1 <= n)%nat /\
  (forall i, (1 <= i < n)%nat ->
     exists data, answers i = Ok data /\ (100 <= length data)%nat) /\
  (exists last, answers n = Ok last /\ (length last < 100)%nat) /\
  items = concat (List.map (page_items answers) (seq 1 n)).

(** The projects of a listing whose name begins with one of the prefixes;
    all of them without prefixes. *)
Definition selected (prefixes : list str) (projects : list Project) : list Project :=
  if is_empty prefixes then projects
  else List.filter (fun p => startswith_any (project_name p) prefixes) projects.

(** The API lists [projects] for the group, and for each of them that is
    selected the commits [commits_in] of the report date, each listing
    ending within [fuel] pages. *)
Definition api_lists (world : World) (fuel : nat) (prefixes : list str) (group : str)
  (client : GitLabClient) (date : Date) (projects : list Project)
  (commits_in : Project -> list Commit) : Prop :=
  (exists n, (n <= fuel)%nat /\
     listing_ends (projects_page world client group 100%nat) n projects) /\
  forall project, In project (selected prefixes projects) ->
    exists n, (n <= fuel)%nat /\
      listing_ends (commits_page world client (project_id project)
                      (window_start date) (window_end date) 100%nat)
        n (commits_in project).

(** The commits of the projects, each with its project, in the order of
    the listings: project after project, and within a project page after
    page. *)
Definition in_listing_order (projects : list Project) (commits_in : Project -> list Commit)
  : list (Project * Commit) :=
  flat_map (fun project => List.map (pair project) (commits_in project)) projects.

(** The events of the pass over a project whose first page of commits is
    empty. *)
Definition quiet_project_events (client : GitLabClient) (date : Date) (project : Project)
  : list event :=
  [Print (AnalyzingProject (project_name project));
   commits_request client (project_id project) (window_start date) (window_end date) 1;
   Print (CommitsFound 0)].

(** The events of a collection that finds [projects] on [n] pages and no
    commit in any of them. *)
Definition quiet_collection_events (client : GitLabClient) (group : str) (date : Date)
  (n : nat) (projects : list Project) : list event :=
  Print (TimeRange (window_start date) (window_end date)) ::
  List.map (projects_request client group) (seq 1 n) ++
  Print (ProjectsFound (length projects)) ::
  flat_map (quiet_project_events client date) projects.

(** ** The outcomes of the channels *)

(** The events of one notification request: the request, and the line
    printed from its answer when there is one. *)
Definition delivery (world : World) (url : str) (body : payload)
  (outcome : Response -> message) : list event :=
  Post url body ::
  match http_post world url body with
  | Ok resp => [Print (outcome resp)]
  | Raise _ => []
  end.

(** The events of the parts of a bot message, part [i + 1] of [n] first. *)
Fixpoint parts_events (world : World) (url chat_id : str) (n i : nat) (parts : list str)
  : list event :=
  match parts with
  | [] => []
  | part :: rest =>
      delivery world url (TelegramMessage chat_id part)
        (fun resp => part_outcome resp (i + 1) n) ++
      parts_events world url chat_id n (i + 1) rest
  end.

(** The events of the notification block of [main]: for every channel
    that is configured, in turn, its requests, each followed by the outcome
    printed from the status of its answer. *)
Definition notification_events (world : World) (env : Env) (md_report : str) : list event :=
  (if truthy (WECOM_WEBHOOK env)
   then delivery world (default [] (WECOM_WEBHOOK env)) (WecomMarkdown md_report)
          (fun resp => WecomResult (status_code resp))
   else []) ++
  (if truthy (DINGTALK_WEBHOOK env)
   then delivery world (default [] (DINGTALK_WEBHOOK env))
          (DingtalkMarkdown DINGTALK_TITLE md_report)
          (fun resp => DingtalkResult (status_code resp))
   else []) ++
  (if truthy (TELEGRAM_BOT_TOKEN env) && truthy (TELEGRAM_CHAT_ID env)
   then parts_events world (telegram_url (default [] (TELEGRAM_BOT_TOKEN env)))
          (default [] (TELEGRAM_CHAT_ID env)) (length (telegram_parts md_report)) 0
          (telegram_parts md_report)
   else []).

(** ** The split, stated on groups of whole lines *)

(** Lines gathered into groups, a group being the lines of one part: a
    line is added to the open group unless the group, joined by newlines,
    would pass the limit with it; then the group is closed and the line
    opens the next one. *)
Definition group_step (st : list (list str) * list str) (line : str)
  : list (list str) * list str :=
  let '(groups, open) := st in
  if is_empty open then (groups, [line])
  else if (max_len <? length (join_newline open) + length line + 1)%nat
       then (groups ++ [open], [line])
       else (groups, open ++ [line]).

(** The groups of the lines of a content, in order. *)
Definition line_groups (lines : list str) : list (list str) :=
  let '(groups, open) := fold_left group_step lines ([], []) in
  if is_empty open then groups else groups ++ [open].

(** A group whose first line is blank. *)
Definition opens_blank (group : list str) : bool :=
  match group with
  | [] :: _ => true
  | _ => false
  end.

(** A blank line opens a part: the content begins with a blank line, or a
    blank line comes when the part gathered so far has no room for it. *)
Definition blank_opens_part (content : str) : bool :=
  existsb opens_blank (line_groups (split_newline content)).

(** A report with a blank line inside its first part. *)
Definition blank_inside_content : str :=
  repeat 0x61%N 1999 ++ NEWLINE :: NEWLINE :: repeat 0x62%N 1999 ++ NEWLINE ::
  repeat 0x63%N 1999.

(** The invariant of the gathering: no group is empty and none, joined by
    newlines, exceeds the limit. *)
Definition groups_invariant (groups : list (list str)) (open : list str) : Prop :=
  Forall (fun g => g <> []) groups /\
  Forall (fun g => (length (join_newline g) <= max_len)%nat) groups /\
  (length (join_newline open) <= max_len)%nat.

(** The parts of a state of the loop of [send_telegram], were the loop to
    end there. *)
Definition parts_of (st : list str * str) : list str :=
  if is_empty (snd st) then fst st else fst st ++ [snd st].

(** The characters of some lines, counting a newline after each. *)
Fixpoint size (lines : list str) : nat :=
  match lines with
  | [] => 0
  | line :: rest => S (length line) + size rest
  end.

(** ** Sample aggregates *)

(** An aggregate whose count of effective additions is 2^1024, out of one
    addition in total. *)
Definition overflowing_aggregate : DeveloperStats.t :=
  DeveloperStats.mk (lit "Dev") (lit "dev@example.com") [] 1 0 (2 ^ 1024) 0 ∅.


(** * Properties *)

(** ** The matcher against the language of a pattern *)

Lemma star_loop_bos ok k b s :
  (forall b' s', k b' s' = k false s') -> star_loop ok k b s = star_loop ok k false s.
Proof.
  intros Hk. destruct s as [|c s]; simpl.
  - apply Hk.
  - now rewrite (Hk b).
Qed.

Lemma match_here_bos p : no_bol p = true -> forall b s, match_here p b s = match_here p false s.
Proof.
  induction p as [|x p IH]; intros Hp b s; [reflexivity|].
  simpl in Hp. apply andb_prop in Hp as [Hx Hp]. specialize (IH Hp).
  destruct x; simpl; try discriminate.
  - destruct s as [|c [|c' s]]; [apply IH | now rewrite (IH b) | reflexivity].
  - reflexivity.
  - apply star_loop_bos. intros; apply IH.
  - reflexivity.
  - destruct s as [|c s]; [apply IH | now rewrite (IH b)].
Qed.

Lemma star_loop_spec ok k s :
  star_loop ok k false s = true <->
  exists pre rest, s = pre ++ rest /\ forallb ok pre = true /\ k false rest = true.
Proof.
  induction s as [|c s IH]; simpl.
  - split.
    + intros H. exists [], []. auto.
    + intros (pre & rest & E & _ & H). symmetry in E. apply app_eq_nil in E as [-> ->]. exact H.
  - rewrite orb_true_iff, andb_true_iff, IH. split.
    + intros [(Hc & pre & rest & -> & Hpre & Hk) | Hk].
      * exists (c :: pre), rest. simpl. rewrite Hc, Hpre. auto.
      * exists [], (c :: s). auto.
    + intros (pre & rest & E & Hpre & Hk). destruct pre as [|c' pre]; simpl in *.
      * right. now subst rest.
      * injection E as <- ->. apply andb_prop in Hpre as [Hc Hpre].
        left. split; [exact Hc|]. now exists pre, rest.
Qed.

Lemma match_here_accepts p : forall s, match_here p false s = true <-> accepts p s.
Proof.
  induction p as [|x p IH]; intros s; [simpl; tauto|].
  destruct x; simpl.
  - split; [discriminate | tauto].
  - destruct s as [|c [|c' s]].
    + rewrite IH. intuition.
    + rewrite andb_true_iff, IH, N.eqb_eq. split.
      * intros [-> H]. auto.
      * intros [[E|E] H]; [discriminate|]. injection E as ->. auto.
    + split; [discriminate|]. intros [[E|E] _]; discriminate.
  - destruct s as [|c s].
    + split; [discriminate|]. intros (c & s' & E & _); discriminate.
    + rewrite andb_true_iff, IH. split.
      * intros [Hc H]. now exists c, s.
      * intros (c' & s' & E & Hc & H). injection E as <- <-. auto.
  - rewrite star_loop_spec. split; intros (pre & rest & E & Hpre & H);
      exists pre, rest; (split; [exact E|split; [exact Hpre|now apply IH]]).
  - destruct s as [|c s].
    + split; [discriminate|]. intros (pre & rest & E & Hne & _).
      symmetry in E. apply app_eq_nil in E as [-> _]. congruence.
    + rewrite andb_true_iff, star_loop_spec. split.
      * intros (Hc & pre & rest & -> & Hpre & H). exists (c :: pre), rest.
        simpl. rewrite Hc, Hpre. repeat split; [discriminate|now apply IH].
      * intros (pre & rest & E & Hne & Hpre & H). destruct pre as [|c' pre]; [congruence|].
        simpl in E, Hpre. injection E as <- ->. apply andb_prop in Hpre as [Hc Hpre].
        split; [exact Hc|]. exists pre, rest. repeat split; [exact Hpre|now apply IH].
  - destruct s as [|c s].
    + rewrite IH. split; [tauto|]. intros [H|(c & s' & E & _)]; [exact H|discriminate].
    + rewrite orb_true_iff, andb_true_iff, !IH. split.
      * intros [[Hc H]|H]; [right; now exists c, s | now left].
      * intros [H|(c' & s' & E & Hc & H)]; [now right|]. injection E as <- <-. now left.
Qed.

(** [re.match] against a pattern [^body] decides the language of [body]. *)
Lemma re_match_accepts body line :
  no_bol body = true -> (re_match (Bol :: body) line = true <-> accepts body line).
Proof.
  intros Hb. unfold re_match. simpl. rewrite (match_here_bos _ Hb). apply match_here_accepts.
Qed.

Lemma first_match_Exists ps line :
  first_match ps line = true <-> Exists (fun p => re_match p line = true) ps.
Proof.
  induction ps as [|p ps IH]; simpl.
  - rewrite Exists_nil. split; [discriminate|tauto].
  - rewrite Exists_cons, <- IH. destruct (re_match p line); intuition discriminate.
Qed.

Lemma spaces_app a b : spaces (a ++ b) <-> spaces a /\ spaces b.
Proof. unfold spaces. rewrite forallb_app, andb_true_iff. tauto. Qed.

Lemma accepts_literal l p s :
  accepts (List.map (fun c => One (Chr c)) l ++ p) s <-> exists rest, s = l ++ rest /\ accepts p rest.
Proof.
  revert s. induction l as [|x l IH]; intros s; cbn [List.map app accepts].
  - split; [intros H; now exists s | now intros (rest & -> & H)].
  - split.
    + intros (c & s' & -> & Hc & H). apply N.eqb_eq in Hc as ->.
      apply IH in H as (rest & -> & H). now exists rest.
    + intros (rest & -> & H). exists x, (l ++ rest). split; [reflexivity|].
      split; [apply N.eqb_refl|]. apply IH. now exists rest.
Qed.

Lemma accepts_chars w p s :
  accepts (chars w ++ p) s <-> exists rest, s = lit w ++ rest /\ accepts p rest.
Proof. apply accepts_literal. Qed.

Lemma accepts_chars_end w s : accepts (chars w) s <-> exists rest, s = lit w ++ rest.
Proof.
  rewrite <- (app_nil_r (chars w)), accepts_chars. cbn [accepts].
  split; intros (rest & H); exists rest; tauto.
Qed.

Lemma newline_is_space : is_space NEWLINE = true.
Proof. reflexivity. Qed.

Lemma accepts_trailing_spaces s : accepts [Star Space; Eol] s <-> spaces s.
Proof.
  cbn [accepts]. split.
  - intros (pre & rest & -> & Hpre & [-> | ->] & _); apply spaces_app; split; try exact Hpre.
    + reflexivity.
    + reflexivity.
  - intros H. exists s, []. rewrite app_nil_r. repeat split; auto.
Qed.

(** A pattern [^\s*body]: leading white space, then [body]. *)
Lemma re_match_indented body line :
  no_bol body = true ->
  re_match ([Bol; Star Space] ++ body) line = true <->
  exists ws rest, spaces ws /\ line = ws ++ rest /\ accepts body rest.
Proof.
  intros Hb. change ([Bol; Star Space] ++ body) with (Bol :: Star Space :: body).
  rewrite re_match_accepts by exact Hb. cbn [accepts].
  split; intros (ws & rest & H1 & H2 & H3); exists ws, rest; auto.
Qed.

Lemma no_bol_app p q : no_bol (p ++ q) = no_bol p && no_bol q.
Proof. apply forallb_app. Qed.

Lemma no_bol_chars w : no_bol (chars w) = true.
Proof. unfold chars. induction (lit w) as [|c l IH]; [reflexivity | exact IH]. Qed.

Ltac no_bol_tac := repeat (rewrite ?no_bol_app, ?no_bol_chars; simpl); reflexivity.

Lemma blank_pattern line : re_match [Bol; Star Space; Eol] line = true <-> blank_line line.
Proof.
  rewrite (re_match_accepts [Star Space; Eol]) by reflexivity.
  apply accepts_trailing_spaces.
Qed.

Lemma marker_pattern m line :
  re_match ([Bol; Star Space] ++ chars m) line = true <-> opens_with m line.
Proof.
  rewrite re_match_indented by apply no_bol_chars.
  unfold opens_with. split.
  - intros (ws & rest & Hws & -> & H). apply accepts_chars_end in H as (r & ->). now exists ws, r.
  - intros (ws & r & Hws & ->). exists ws, (lit m ++ r). repeat split; auto.
    apply accepts_chars_end. now exists r.
Qed.

Lemma keyword_pattern kw line :
  re_match ([Bol; Star Space] ++ chars kw ++ [Plus Space]) line = true <->
  keyword_statement kw line.
Proof.
  rewrite re_match_indented by no_bol_tac. unfold keyword_statement. split.
  - intros (ws & rest & Hws & -> & H). apply accepts_chars in H as (r & -> & H).
    cbn [accepts] in H. destruct H as (sp & r' & -> & Hne & Hsp & _). now exists ws, sp, r'.
  - intros (ws & sp & r & Hws & Hsp & Hne & ->). exists ws, (lit kw ++ sp ++ r).
    repeat split; auto. apply accepts_chars. exists (sp ++ r). split; [reflexivity|].
    cbn [accepts]. now exists sp, r.
Qed.

Lemma bare_annotation_pattern line :
  re_match ([Bol; Star Space] ++ chars "@" ++ [Plus Word; Star Space; Eol]) line = true <->
  bare_annotation line.
Proof.
  rewrite re_match_indented by no_bol_tac. unfold bare_annotation. split.
  - intros (ws & rest & Hws & -> & H). apply accepts_chars in H as (r & -> & H).
    destruct H as (name & r' & -> & Hne & Hname & H). apply accepts_trailing_spaces in H.
    now exists ws, name, r'.
  - intros (ws & name & ws' & Hws & Hne & Hname & Hws' & ->). exists ws, (lit "@" ++ name ++ ws').
    repeat split; auto. apply accepts_chars. exists (name ++ ws'). split; [reflexivity|].
    exists name, ws'. repeat split; auto. now apply accepts_trailing_spaces.
Qed.

Lemma annotation_arguments_pattern line :
  re_match ([Bol; Star Space] ++ chars "@" ++ [Plus Word] ++ chars "("
              ++ [Star (NotChr 0x29)] ++ chars ")" ++ [Star Space; Eol]) line = true <->
  annotation_with_arguments line.
Proof.
  rewrite re_match_indented by no_bol_tac. unfold annotation_with_arguments. split.
  - intros (ws & rest & Hws & -> & H). apply accepts_chars in H as (r & -> & H).
    destruct H as (name & r1 & -> & Hne & Hname & H).
    apply accepts_chars in H as (r2 & -> & H).
    destruct H as (args & r3 & -> & Hargs & H).
    apply accepts_chars in H as (r4 & -> & H). apply accepts_trailing_spaces in H.
    now exists ws, name, args, r4.
  - intros (ws & name & args & ws' & Hws & Hne & Hname & Hargs & Hws' & ->).
    eexists ws, _. split; [exact Hws|]. split; [reflexivity|].
    apply accepts_chars. eexists. split; [reflexivity|].
    exists name. eexists. split; [reflexivity|]. split; [exact Hne|]. split; [exact Hname|].
    apply accepts_chars. eexists. split; [reflexivity|].
    exists args. eexists. split; [reflexivity|]. split; [exact Hargs|].
    apply accepts_chars. eexists. split; [reflexivity|]. now apply accepts_trailing_spaces.
Qed.

Lemma lone_pattern tok line :
  re_match ([Bol; Star Space] ++ chars tok ++ [Star Space; Eol]) line = true <-> lone tok line.
Proof.
  rewrite re_match_indented by no_bol_tac. unfold lone. split.
  - intros (ws & rest & Hws & -> & H). apply accepts_chars in H as (r & -> & H).
    apply accepts_trailing_spaces in H. now exists ws, r.
  - intros (ws & ws' & Hws & Hws' & ->). eexists ws, _. split; [exact Hws|].
    split; [reflexivity|]. apply accepts_chars. eexists. split; [reflexivity|].
    now apply accepts_trailing_spaces.
Qed.

Lemma closing_parenthesis_pattern line :
  re_match ([Bol; Star Space] ++ chars ")" ++ [Opt (Chr 0x3b); Star Space; Eol]) line = true <->
  lone ")" line \/ lone ");" line.
Proof.
  rewrite re_match_indented by no_bol_tac. unfold lone. split.
  - intros (ws & rest & Hws & -> & H). apply accepts_chars in H as (r & -> & H).
    destruct H as [H | (c & r' & -> & Hc & H)]; apply accepts_trailing_spaces in H.
    + left. now exists ws, r.
    + right. cbn [atom_matches] in Hc. apply N.eqb_eq in Hc as <-. now exists ws, r'.
  - intros [(ws & ws' & Hws & Hws' & ->) | (ws & ws' & Hws & Hws' & ->)].
    + eexists ws, _. split; [exact Hws|]. split; [reflexivity|].
      apply accepts_chars. eexists. split; [reflexivity|].
      left. now apply accepts_trailing_spaces.
    + exists ws, (lit ")" ++ 0x3b%N :: ws'). split; [exact Hws|]. split; [reflexivity|].
      apply accepts_chars. eexists. split; [reflexivity|].
      right. exists 0x3b%N, ws'. repeat split. now apply accepts_trailing_spaces.
Qed.

Lemma accepts_keyword_spaces kw p s :
  accepts (chars kw ++ [Plus Space] ++ p) s <->
  exists sp rest, (spaces sp /\ sp <> []) /\ s = lit kw ++ sp ++ rest /\ accepts p rest.
Proof.
  rewrite accepts_chars. split.
  - intros (r & -> & sp & rest & -> & Hne & Hsp & H). now exists sp, rest.
  - intros (sp & rest & [Hsp Hne] & -> & H). eexists. split; [reflexivity|]. now exists sp, rest.
Qed.

Lemma serial_version_uid_pattern line :
  re_match ([Bol; Star Space] ++ chars "private" ++ [Plus Space] ++ chars "static"
              ++ [Plus Space] ++ chars "final" ++ [Plus Space] ++ chars "long"
              ++ [Plus Space] ++ chars "serialVersionUID") line = true <->
  serial_version_uid line.
Proof.
  rewrite re_match_indented by no_bol_tac. unfold serial_version_uid. split.
  - intros (ws & rest & Hws & -> & H).
    apply accepts_keyword_spaces in H as (s1 & r1 & H1 & -> & H).
    apply accepts_keyword_spaces in H as (s2 & r2 & H2 & -> & H).
    apply accepts_keyword_spaces in H as (s3 & r3 & H3 & -> & H).
    apply accepts_keyword_spaces in H as (s4 & r4 & H4 & -> & H).
    apply accepts_chars_end in H as (r & ->). now exists ws, s1, s2, s3, s4, r.
  - intros (ws & s1 & s2 & s3 & s4 & r & Hws & H1 & H2 & H3 & H4 & ->).
    eexists ws, _. split; [exact Hws|]. split; [reflexivity|].
    apply accepts_keyword_spaces. exists s1. eexists. split; [exact H1|]. split; [reflexivity|].
    apply accepts_keyword_spaces. exists s2. eexists. split; [exact H2|]. split; [reflexivity|].
    apply accepts_keyword_spaces. exists s3. eexists. split; [exact H3|]. split; [reflexivity|].
    apply accepts_keyword_spaces. exists s4. eexists. split; [exact H4|]. split; [reflexivity|].
    apply accepts_chars_end. now exists r.
Qed.

(** C2. [is_effective_line] returns false exactly on the lines that one of
    the exclusion rules describes: blank lines, lines that open with a
    comment marker, import and package statements, whole-line annotations
    with or without arguments, a lone brace, a lone closing parenthesis
    with an optional semicolon, and the serialVersionUID declaration. In
    particular a line of white space only is not effective, and a line that
    no rule describes is effective. *)
Theorem is_effective_line_excluded :
  forall line : str,
    (is_effective_line line = false <-> excluded line) /\
    (forallb is_space line = true -> is_effective_line line = false) /\
    (~ excluded line -> is_effective_line line = true).
Proof.
  intros line.
  assert (H : is_effective_line line = false <-> excluded line).
  { unfold is_effective_line. rewrite negb_false_iff, first_match_Exists.
    unfold EXCLUDE_PATTERNS, excluded.
    rewrite !Exists_cons, Exists_nil.
    rewrite blank_pattern, !marker_pattern, !keyword_pattern, bare_annotation_pattern,
      annotation_arguments_pattern, !lone_pattern, closing_parenthesis_pattern,
      serial_version_uid_pattern.
    tauto. }
  split; [exact H|]. split.
  - intros Hs. apply H. left. exact Hs.
  - intros Hn. destruct (is_effective_line line) eqn:E; [reflexivity|].
    exfalso. apply Hn, H. reflexivity.
Qed.

(** ** The diff aggregator *)

Lemma count_step_counted effective line :
  count_step effective line = (effective + if counted_line line then 1 else 0)%Z.
Proof.
  unfold count_step, counted_line. destruct line as [|c rest].
  - simpl. lia.
  - change (startswith (c :: rest) (lit "+")) with (N.eqb 0x2b c && true).
    rewrite andb_true_r, (N.eqb_sym c). cbn [tail].
    destruct (N.eqb 0x2b c); cbn [andb]; [|lia].
    destruct (startswith (c :: rest) (lit "+++")); cbn [negb andb]; [lia|].
    destruct (is_effective_line rest); lia.
Qed.

Lemma count_lines_from lines : forall effective,
  fold_left count_step lines effective =
  (effective + Z.of_nat (length (List.filter counted_line lines)))%Z.
Proof.
  induction lines as [|l lines IH]; intros effective; cbn [fold_left List.filter].
  - simpl. lia.
  - rewrite IH, count_step_counted. destruct (counted_line l); cbn [length]; lia.
Qed.

Lemma count_effective_lines_counted diff_content :
  count_effective_lines diff_content =
  Z.of_nat (length (List.filter counted_line (split_newline diff_content))).
Proof. unfold count_effective_lines. now rewrite count_lines_from. Qed.

Lemma count_effective_lines_nonneg diff_content : (0 <= count_effective_lines diff_content)%Z.
Proof. rewrite count_effective_lines_counted. lia. Qed.

Lemma analyze_loop_counted diffs : forall effective,
  forallb typed diffs = true ->
  analyze_loop diffs effective = Ok (effective + counted_additions diffs)%Z.
Proof.
  unfold counted_additions.
  induction diffs as [|d diffs IH]; intros effective Htyped;
    cbn [analyze_loop List.filter forallb] in *.
  - cbn [List.map sum_Z fold_right]. f_equal. lia.
  - apply andb_prop in Htyped as [Hd Htyped]. unfold analyze_step, is_java, typed in *.
    destruct (new_path d) as [|path|]; try discriminate; cbn [as_text result_bind].
    + change (endswith [] (lit ".java")) with false. cbn [result_bind]. now apply IH.
    + destruct (endswith path (lit ".java")); cbn [result_bind]; [|now apply IH].
      cbn [List.map sum_Z fold_right].
      change (diff_text d) with (match diff d with Text s => s | _ => [] end).
      destruct (diff d) as [|s|]; try discriminate; cbn [as_text result_bind];
        rewrite IH by exact Htyped; rewrite count_effective_lines_counted;
        unfold sum_Z; f_equal; lia.
Qed.

Lemma analyze_diffs_counted diffs :
  forallb typed diffs = true -> analyze_diffs diffs = Ok (counted_additions diffs).
Proof. intros H. unfold analyze_diffs. now rewrite analyze_loop_counted. Qed.

Lemma analyze_loop_ge diffs : forall effective n,
  analyze_loop diffs effective = Ok n -> (effective <= n)%Z.
Proof.
  induction diffs as [|d diffs IH]; intros effective n Hrun; cbn [analyze_loop] in Hrun.
  - injection Hrun as <-. lia.
  - destruct (analyze_step effective d) as [effective'|e] eqn:Hstep; [|discriminate].
    cbn [result_bind] in Hrun. apply IH in Hrun.
    unfold analyze_step in Hstep.
    destruct (as_text (new_path d)) as [path|]; [|discriminate]. cbn [result_bind] in Hstep.
    destruct (endswith path (lit ".java")).
    + destruct (as_text (diff d)) as [content|]; [|discriminate]. cbn [result_bind] in Hstep.
      injection Hstep as <-. pose proof (count_effective_lines_nonneg content). lia.
    + injection Hstep as <-. lia.
Qed.

Lemma counted_additions_nonneg diffs : (0 <= counted_additions diffs)%Z.
Proof.
  unfold counted_additions. induction (List.filter is_java diffs) as [|d l IH];
    cbn [List.map sum_Z fold_right]; [lia|].
  unfold sum_Z in IH. lia.
Qed.

(** ** The standards evaluator *)

Lemma length_zero_nil {A} (l : list A) : Nat.eqb (length l) 0 = true <-> l = [].
Proof. destruct l; simpl; split; congruence. Qed.

(** C4. An aggregate with 80 effective additions, two commits and 100
    total additions passes with no issue; one with 50 effective additions,
    one commit and 200 total additions fails with the three issues of line
    count, commit count and ratio, in this order; and whenever the
    evaluation returns, it passes exactly when the list of issues is
    empty. *)
Theorem meets_standard_cases :
  (forall name email c1 c2 deletions files projects,
     DeveloperStats.meets_standard
       (DeveloperStats.mk name email [c1; c2] 100 deletions 80 files projects)
     = Ok (true, [])) /\
  (forall name email c1 deletions files projects,
     DeveloperStats.meets_standard
       (DeveloperStats.mk name email [c1] 200 deletions 50 files projects)
     = Ok (false,
           [FewEffectiveLines 50 80; FewCommits 1 2;
            LowEffectiveRatio (1 # 4) (5404319552844595 # 9007199254740992)])) /\
  (forall self : DeveloperStats.t,
     match DeveloperStats.meets_standard self with
     | Ok (passed, issues) => passed = true <-> issues = []
     | Raise _ => True
     end).
Proof.
  split; [|split].
  - intros. vm_compute. reflexivity.
  - intros. vm_compute. reflexivity.
  - intros self. unfold DeveloperStats.meets_standard, result_bind.
    destruct (DeveloperStats.effective_ratio self) as [ratio|e]; [|exact I].
    destruct (float_lt ratio _ && _); apply length_zero_nil.
Qed.

(** ** The ratio accessor *)

Lemma round_half_even_le n d : (0 <= n -> 0 < d -> round_half_even n d <= n / d + 1)%Z.
Proof.
  intros Hn Hd. unfold round_half_even.
  destruct (2 * (n mod d) <? d)%Z; [lia|].
  destruct (d <? 2 * (n mod d))%Z; [lia|]. destruct (Z.even (n / d)); lia.
Qed.

Lemma floor_log2_ratio_le n d : (0 < n -> 0 < d -> floor_log2_ratio n d <= Z.log2 n)%Z.
Proof.
  intros Hn Hd. unfold floor_log2_ratio.
  pose proof (Z.log2_nonneg d).
  destruct (if (0 <=? Z.log2 n - Z.log2 d)%Z then _ else _); lia.
Qed.

(** Below 2^1023 the rounded quotient stays within the binary64 range. *)
Lemma nearest_binary64_in_range n d :
  (0 < n < 2 ^ 1023)%Z -> (0 < d)%Z ->
  Qle_bool (inject_Z (2 ^ 1024)) (nearest_binary64 n d) = false.
Proof.
  intros Hn Hd. apply not_true_is_false. rewrite Qle_bool_iff.
  unfold nearest_binary64.
  pose proof (floor_log2_ratio_le n d ltac:(lia) Hd) as He.
  assert (Hlog : (Z.log2 n < 1023)%Z) by (apply Z.log2_lt_pow2; lia).
  set (e := floor_log2_ratio n d) in *.
  set (ulp := (Z.max e (-1022) - 52)%Z).
  assert (Hulp : (-1074 <= ulp <= 970)%Z) by (unfold ulp; lia).
  destruct (0 <=? ulp)%Z eqn:Hsign.
  - apply Z.leb_le in Hsign.
    assert (Hp : (0 < 2 ^ ulp)%Z) by (apply Z.pow_pos_nonneg; lia).
    assert (Hp' : (2 ^ ulp <= 2 ^ 970)%Z) by (apply Z.pow_le_mono_r; lia).
    pose proof (round_half_even_le n (d * 2 ^ ulp) ltac:(lia) ltac:(nia)) as Hr.
    assert (Hq : (n / (d * 2 ^ ulp) * 2 ^ ulp <= n)%Z).
    { rewrite (Z.mul_comm d), <- Z.div_div by lia.
      transitivity (n / 2 ^ ulp * 2 ^ ulp)%Z.
      - apply Z.mul_le_mono_nonneg_r; [lia|]. apply Z.div_le_upper_bound; [lia|].
        pose proof (Z.div_pos n (2 ^ ulp) ltac:(lia) Hp). nia.
      - rewrite Z.mul_comm. apply Z.mul_div_le. lia. }
    rewrite <- Zle_Qle. intros Hle.
    assert (Hb : (2 ^ 1023 + 2 ^ 970 < 2 ^ 1024)%Z) by (vm_compute; reflexivity).
    nia.
  - apply Z.leb_gt in Hsign.
    assert (Hp : (0 < 2 ^ (- ulp))%Z) by (apply Z.pow_pos_nonneg; lia).
    pose proof (round_half_even_le (n * 2 ^ (- ulp)) d ltac:(nia) Hd) as Hr.
    assert (Hq : (n * 2 ^ (- ulp) / d <= n * 2 ^ (- ulp))%Z).
    { apply Z.div_le_upper_bound; [lia|]. nia. }
    rewrite Qred_correct. unfold Qle. cbn [Qnum Qden inject_Z].
    rewrite Z2Pos.id by lia. intros Hle.
    assert (Hb : (2 ^ 1023 + 1 <= 2 ^ 1024)%Z) by (vm_compute; discriminate).
    nia.
Qed.

Lemma floor_log2_ratio_spec n d :
  (0 < n)%Z -> (0 < d)%Z ->
  let e := floor_log2_ratio n d in
  ((0 <= e)%Z -> (d * 2 ^ e <= n < d * 2 ^ (e + 1))%Z) /\
  ((e < 0)%Z -> (d <= n * 2 ^ (- e) /\ n * 2 ^ (- e) < 2 * d)%Z).
Proof.
  intros Hn Hd. unfold floor_log2_ratio.
  destruct (Z.log2_spec n Hn) as [Hna Hnb]. destruct (Z.log2_spec d Hd) as [Hda Hdb].
  pose proof (Z.log2_nonneg n) as Ha. pose proof (Z.log2_nonneg d) as Hb.
  set (a := Z.log2 n) in *. set (b := Z.log2 d) in *.
  rewrite Z.pow_succ_r in Hnb, Hdb by lia.
  assert (Hpa : (0 < 2 ^ a)%Z) by (apply Z.pow_pos_nonneg; lia).
  assert (Hpb : (0 < 2 ^ b)%Z) by (apply Z.pow_pos_nonneg; lia).
  destruct (0 <=? a - b)%Z eqn:Hsign.
  - apply Z.leb_le in Hsign.
    assert (Hab : (2 ^ a = 2 ^ (a - b) * 2 ^ b)%Z) by (rewrite <- Z.pow_add_r by lia; f_equal; lia).
    assert (Hp : (0 < 2 ^ (a - b))%Z) by (apply Z.pow_pos_nonneg; lia).
    destruct (d * 2 ^ (a - b) <=? n)%Z eqn:Hreached; cbn zeta.
    + apply Z.leb_le in Hreached. split; [|lia]. intros _.
      rewrite Z.pow_add_r, Z.pow_1_r by lia. nia.
    + apply Z.leb_gt in Hreached. replace (a - b - 1 + 1)%Z with (a - b)%Z by lia. split.
      * intros He. split; [|lia].
        assert (Hs : (2 ^ (a - b) = 2 * 2 ^ (a - b - 1))%Z)
          by (rewrite <- Z.pow_succ_r by lia; f_equal; lia).
        assert (0 < 2 ^ (a - b - 1))%Z by (apply Z.pow_pos_nonneg; lia). nia.
      * intros He. assert (Heq : (a - b = 0)%Z) by lia. rewrite Heq in *.
        replace (- (0 - 1))%Z with 1%Z by lia. rewrite Z.pow_1_r, Z.pow_0_r in *. nia.
  - apply Z.leb_gt in Hsign.
    assert (Hab : (2 ^ b = 2 ^ (- (a - b)) * 2 ^ a)%Z) by (rewrite <- Z.pow_add_r by lia; f_equal; lia).
    assert (Hp : (0 < 2 ^ (- (a - b)))%Z) by (apply Z.pow_pos_nonneg; lia).
    destruct (d <=? n * 2 ^ (- (a - b)))%Z eqn:Hreached; cbn zeta.
    + apply Z.leb_le in Hreached. split; [lia|]. intros _. split; [exact Hreached|nia].
    + apply Z.leb_gt in Hreached. split; [lia|]. intros _.
      replace (- (a - b - 1))%Z with (Z.succ (- (a - b)))%Z by lia.
      rewrite Z.pow_succ_r by lia. nia.
Qed.

Lemma round_half_even_cases n d :
  (0 < d)%Z ->
  let q := (n / d)%Z in
  let r := (n mod d)%Z in
  (round_half_even n d = q /\ (2 * r <= d)%Z) \/
  (round_half_even n d = (q + 1)%Z /\ (d <= 2 * r)%Z).
Proof.
  intros Hd q r. unfold round_half_even. fold q r.
  destruct (2 * r <? d)%Z eqn:H1; [left; split; [reflexivity|lia]|].
  destruct (d <? 2 * r)%Z eqn:H2; [right; split; [reflexivity|lia]|].
  destruct (Z.even q); [left|right]; split; try reflexivity; lia.
Qed.

Lemma round_half_even_odd_tie n d :
  (0 < d)%Z -> Z.even (n / d) = false -> (d <= 2 * (n mod d))%Z ->
  round_half_even n d = (n / d + 1)%Z.
Proof.
  intros Hd Hodd Hr. unfold round_half_even.
  destruct (2 * (n mod d) <? d)%Z eqn:H1; [lia|].
  destruct (d <? 2 * (n mod d))%Z; [reflexivity|]. now rewrite Hodd.
Qed.

(** The rounded quotient leaves the binary64 range exactly from
    2^1024 - 2^970 on, half-way between the largest binary64 number and
    2^1024. *)
Lemma nearest_binary64_overflows n d :
  (0 < n)%Z -> (0 < d)%Z ->
  Qle_bool (inject_Z (2 ^ 1024)) (nearest_binary64 n d) = true <->
  ((2 ^ 1025 - 2 ^ 971) * d <= 2 * n)%Z.
Proof.
  intros Hn Hd. rewrite Qle_bool_iff. unfold nearest_binary64.
  destruct (floor_log2_ratio_spec n d Hn Hd) as [Hpos Hneg]. cbn zeta in Hpos, Hneg.
  set (e := floor_log2_ratio n d) in *.
  set (ulp := (Z.max e (-1022) - 52)%Z).
  remember (2 ^ 971)%Z as U eqn:HU.
  assert (HUpos : (0 < U)%Z) by (subst U; apply Z.pow_pos_nonneg; lia).
  assert (H1024 : (2 ^ 1024 = 2 ^ 53 * U)%Z) by (subst U; vm_compute; reflexivity).
  assert (H1025 : (2 ^ 1025 = 2 ^ 54 * U)%Z) by (subst U; vm_compute; reflexivity).
  rewrite H1024, H1025. clear H1024 H1025.
  remember (2 ^ 52)%Z as C eqn:HC.
  assert (HCpos : (0 < C)%Z) by (subst C; reflexivity).
  replace (2 ^ 53)%Z with (2 * C)%Z by (subst C; reflexivity).
  replace (2 ^ 54)%Z with (4 * C)%Z by (subst C; reflexivity).
  destruct (Z_le_gt_dec 1023 e) as [Hbig|Hsmall].
  - assert (Hulp : (ulp = e - 52)%Z) by (unfold ulp; lia).
    assert (Hsign : (0 <=? ulp)%Z = true) by (apply Z.leb_le; lia).
    rewrite Hsign. rewrite <- Zle_Qle.
    destruct (Hpos ltac:(lia)) as [Hlo Hhi].
    assert (He : (2 ^ e = C * 2 ^ ulp)%Z)
      by (subst C; rewrite <- Z.pow_add_r by lia; f_equal; lia).
    assert (He1 : (2 ^ (e + 1) = 2 * C * 2 ^ ulp)%Z)
      by (rewrite Z.pow_add_r, He by lia; lia).
    assert (Hu : (2 ^ ulp = U * 2 ^ (ulp - 971))%Z)
      by (subst U; rewrite <- Z.pow_add_r by lia; f_equal; lia).
    assert (Hk : (0 < 2 ^ (ulp - 971))%Z) by (apply Z.pow_pos_nonneg; lia).
    rewrite He in Hlo. rewrite He1 in Hhi. clear He He1.
    set (P := (2 ^ ulp)%Z) in *.
    assert (HP : (0 < P)%Z) by (rewrite Hu; apply Z.mul_pos_pos; assumption).
    assert (HD : (0 < d * P)%Z) by (apply Z.mul_pos_pos; assumption).
    pose proof (Z.div_mod n (d * P) ltac:(lia)) as Hdiv.
    pose proof (Z.mod_pos_bound n (d * P) HD) as Hmod.
    assert (Hq1 : (C <= n / (d * P))%Z) by (apply Z.div_le_lower_bound; lia).
    assert (Hq2 : (n / (d * P) < 2 * C)%Z) by (apply Z.div_lt_upper_bound; lia).
    set (q := (n / (d * P))%Z) in *. set (r := (n mod (d * P))%Z) in *.
    destruct (Z_le_gt_dec 1024 e) as [Hover|Hedge].
    + assert (Hk2 : (2 <= 2 ^ (ulp - 971))%Z).
      { change 2%Z with (2 ^ 1)%Z at 1. apply Z.pow_le_mono_r; lia. }
      assert (HP2 : (2 * U <= P)%Z).
      { rewrite Hu. rewrite (Z.mul_comm 2 U). apply Z.mul_le_mono_nonneg_l; lia. }
      assert (HdP : (2 * (d * U) <= d * P)%Z).
      { replace (2 * (d * U))%Z with (d * (2 * U))%Z by lia.
        apply Z.mul_le_mono_nonneg_l; lia. }
      assert (Hr : (C <= round_half_even n (d * P))%Z)
        by (destruct (round_half_even_cases n (d * P) HD) as [[-> _]|[-> _]]; fold q; lia).
      assert (Hv : (C * P <= round_half_even n (d * P) * P)%Z)
        by (apply Z.mul_le_mono_nonneg_r; lia).
      assert (HCP : (C * (2 * U) <= C * P)%Z) by (apply Z.mul_le_mono_nonneg_l; lia).
      assert (HCd : (C * (2 * (d * U)) <= C * (d * P))%Z)
        by (apply Z.mul_le_mono_nonneg_l; lia).
      split; intros _; lia.
    + assert (Hu1 : P = U) by (rewrite Hu; replace (ulp - 971)%Z with 0%Z by lia; lia).
      clear Hu Hk. subst q r. unfold P in *. clear P. rewrite Hu1 in *. clear Hu1.
      set (q := (n / (d * U))%Z) in *. set (r := (n mod (d * U))%Z) in *.
      split.
      * intros Hle.
        assert (Hge : (2 * C <= round_half_even n (d * U))%Z)
          by (apply (Z.mul_le_mono_pos_r _ _ U); assumption).
        destruct (round_half_even_cases n (d * U) HD) as [[Hr Hh]|[Hr Hh]];
          fold q r in Hr, Hh; rewrite Hr in Hge; [lia|].
        assert (Hq' : q = (2 * C - 1)%Z) by lia. rewrite Hq' in Hdiv. lia.
      * intros Hle.
        assert (Hlt : (d * U * (4 * C - 1) < d * U * (2 * q + 2))%Z) by lia.
        apply Z.mul_lt_mono_pos_l in Hlt; [|exact HD].
        assert (Hq' : q = (2 * C - 1)%Z) by lia.
        rewrite round_half_even_odd_tie; fold q r; [|exact HD| |].
        -- rewrite Hq'. lia.
        -- rewrite Hq'. subst C. reflexivity.
        -- rewrite Hq' in Hdiv. lia.
  - assert (Hfalse : ~ ((4 * C * U - U) * d <= 2 * n)%Z).
    { destruct (Z_le_gt_dec 0 e) as [Hnn|Hng].
      - destruct (Hpos Hnn) as [_ Hhi].
        assert (Hle : (2 ^ (e + 1) <= 2 ^ 1023)%Z) by (apply Z.pow_le_mono_r; lia).
        assert (H1023 : (2 ^ 1023 = C * U)%Z) by (subst U C; vm_compute; reflexivity).
        rewrite H1023 in Hle.
        assert (Hd' : (d * 2 ^ (e + 1) <= d * (C * U))%Z)
          by (apply Z.mul_le_mono_nonneg_l; lia).
        assert (HdU : (0 < d * U)%Z) by (apply Z.mul_pos_pos; assumption).
        assert (HCdU : (0 < C * (d * U))%Z) by (apply Z.mul_pos_pos; assumption).
        lia.
      - destruct (Hneg ltac:(lia)) as [_ Hhi].
        assert (Hp : (1 <= 2 ^ (- e))%Z) by (apply Z.lt_le_incl, Z.pow_gt_1; lia).
        assert (Hnp : (n * 1 <= n * 2 ^ (- e))%Z) by (apply Z.mul_le_mono_nonneg_l; lia).
        assert (HdU : (d * 1 <= d * U)%Z) by (apply Z.mul_le_mono_nonneg_l; lia).
        assert (HCdU : (1 * (d * U) <= C * (d * U))%Z)
          by (apply Z.mul_le_mono_nonneg_r; lia).
        lia. }
    split; [|intros H; now apply Hfalse in H]. intros Hle. exfalso. clear Hfalse.
    destruct (0 <=? ulp)%Z eqn:Hsign.
    + apply Z.leb_le in Hsign. rewrite <- Zle_Qle in Hle.
      assert (Hulp : (ulp = e - 52)%Z) by (unfold ulp; lia).
      destruct (Hpos ltac:(lia)) as [_ Hhi].
      assert (He1 : (2 ^ (e + 1) = 2 * C * 2 ^ ulp)%Z).
      { replace (e + 1)%Z with (1 + 52 + ulp)%Z by lia.
        rewrite !Z.pow_add_r by lia. subst C. lia. }
      rewrite He1 in Hhi. clear He1.
      assert (HPU : (2 ^ ulp < U)%Z) by (subst U; apply Z.pow_lt_mono_r; lia).
      assert (HP : (0 < 2 ^ ulp)%Z) by (apply Z.pow_pos_nonneg; lia).
      set (P := (2 ^ ulp)%Z) in *.
      assert (HD : (0 < d * P)%Z) by (apply Z.mul_pos_pos; assumption).
      assert (Hq2 : (n / (d * P) < 2 * C)%Z) by (apply Z.div_lt_upper_bound; lia).
      assert (Hr : (round_half_even n (d * P) <= 2 * C)%Z)
        by (destruct (round_half_even_cases n (d * P) HD) as [[-> _]|[-> _]]; lia).
      assert (Hv : (round_half_even n (d * P) * P <= 2 * C * P)%Z)
        by (apply Z.mul_le_mono_nonneg_r; lia).
      assert (HCP : (2 * C * P < 2 * C * U)%Z) by (apply Z.mul_lt_mono_pos_l; lia).
      lia.
    + apply Z.leb_gt in Hsign.
      assert (HM : (0 < 2 ^ (- ulp))%Z) by (apply Z.pow_pos_nonneg; lia).
      rewrite Qred_correct in Hle. unfold Qle in Hle. cbn [Qnum Qden inject_Z] in Hle.
      rewrite Z2Pos.id in Hle by exact HM.
      assert (HnM : (n * 2 ^ (- ulp) < d * (2 * C))%Z).
      { destruct (Z_le_gt_dec 0 e) as [Hnn|Hng].
        - destruct (Hpos Hnn) as [_ Hhi].
          assert (Hulp : (ulp = e - 52)%Z) by (unfold ulp; lia).
          assert (Hpow : (2 ^ (e + 1) * 2 ^ (- ulp) = 2 * C)%Z).
          { rewrite <- Z.pow_add_r by lia. replace (e + 1 + - ulp)%Z with 53%Z by lia.
            subst C. reflexivity. }
          apply (Z.mul_lt_mono_pos_r (2 ^ (- ulp))) in Hhi; [|exact HM].
          rewrite <- Z.mul_assoc, Hpow in Hhi. exact Hhi.
        - destruct (Hneg ltac:(lia)) as [_ Hhi].
          assert (Hle' : (2 ^ (- ulp) <= 2 ^ (52 + - e))%Z)
            by (apply Z.pow_le_mono_r; unfold ulp; lia).
          rewrite Z.pow_add_r in Hle' by lia. rewrite <- HC in Hle'.
          assert (H1 : (n * 2 ^ (- ulp) <= n * (C * 2 ^ (- e)))%Z)
            by (apply Z.mul_le_mono_nonneg_l; lia).
          assert (H2 : (C * (n * 2 ^ (- e)) < C * (2 * d))%Z)
            by (apply Z.mul_lt_mono_pos_l; lia).
          lia. }
      set (M := (2 ^ (- ulp))%Z) in *.
      assert (Hq2 : (n * M / d < 2 * C)%Z) by (apply Z.div_lt_upper_bound; lia).
      assert (Hr : (round_half_even (n * M) d <= 2 * C)%Z)
        by (destruct (round_half_even_cases (n * M) d Hd) as [[-> _]|[-> _]]; lia).
      assert (HUM : (1 * 1 <= U * M)%Z) by (apply Z.mul_le_mono_nonneg; lia).
      assert (HCUM : (2 * C * 1 <= 2 * C * (U * M))%Z)
        by (apply Z.mul_le_mono_nonneg_l; lia).
      assert (HU1 : (1 < U)%Z) by (subst U; apply Z.pow_gt_1; lia).
      assert (HUM' : (1 * 1 < U * M)%Z) by (apply Z.mul_lt_mono_nonneg; lia).
      assert (HCUM' : (2 * C * 1 < 2 * C * (U * M))%Z)
        by (apply Z.mul_lt_mono_pos_l; lia).
      lia.
Qed.
(** C10, as the code has it. An aggregate without additions has the ratio
    0.0, and the accessor never raises ZeroDivisionError. It is not total:
    it returns a ratio exactly when the total is 0 or the quotient of the
    two counts is below 2^1024 - 2^970 in absolute value, where rounding
    stays within the binary64 range, and raises OverflowError otherwise;
    in particular it returns a ratio whenever the count of effective
    additions is below 2^1023 in absolute value. *)
Theorem effective_ratio_guarded :
  forall self : DeveloperStats.t,
    (DeveloperStats.total_additions self = 0%Z ->
     DeveloperStats.effective_ratio self = Ok 0%Q) /\
    DeveloperStats.effective_ratio self <> Raise ZeroDivisionError /\
    ((DeveloperStats.total_additions self = 0 \/
      2 * Z.abs (DeveloperStats.effective_additions self)
      < (2 ^ 1025 - 2 ^ 971) * Z.abs (DeveloperStats.total_additions self))%Z ->
     exists ratio, DeveloperStats.effective_ratio self = Ok ratio) /\
    ((DeveloperStats.total_additions self <> 0)%Z ->
     ((2 ^ 1025 - 2 ^ 971) * Z.abs (DeveloperStats.total_additions self)
      <= 2 * Z.abs (DeveloperStats.effective_additions self))%Z ->
     DeveloperStats.effective_ratio self = Raise OverflowError) /\
    ((Z.abs (DeveloperStats.effective_additions self) < 2 ^ 1023)%Z ->
     exists ratio, DeveloperStats.effective_ratio self = Ok ratio).
Proof.
  intros self. unfold DeveloperStats.effective_ratio, int_truediv.
  destruct (DeveloperStats.total_additions self =? 0)%Z eqn:Ht.
  - apply Z.eqb_eq in Ht.
    split; [reflexivity|]. split; [discriminate|]. split; [intros _; now exists 0%Q|].
    split; [congruence|]. intros _. now exists 0%Q.
  - apply Z.eqb_neq in Ht. split; [congruence|].
    destruct (DeveloperStats.effective_additions self =? 0)%Z eqn:Hz.
    + apply Z.eqb_eq in Hz.
      split; [discriminate|]. split; [intros _; now exists 0%Q|]. split.
      * intros _ Hle. exfalso. rewrite Hz in Hle. cbn [Z.abs Z.mul] in Hle.
        assert (Hpos : (0 < 2 ^ 1025 - 2 ^ 971)%Z) by (vm_compute; reflexivity).
        assert (0 < (2 ^ 1025 - 2 ^ 971) * Z.abs (DeveloperStats.total_additions self))%Z
          by (apply Z.mul_pos_pos; lia).
        lia.
      * intros _. now exists 0%Q.
    + apply Z.eqb_neq in Hz.
      pose proof (nearest_binary64_overflows (Z.abs (DeveloperStats.effective_additions self))
                    (Z.abs (DeveloperStats.total_additions self)) ltac:(lia) ltac:(lia))
        as Hover.
      split; [destruct (Qle_bool _ _); discriminate|]. split; [|split].
      * intros [Hzero|Hlt]; [congruence|].
        destruct (Qle_bool _ _); [|eauto]. exfalso.
        pose proof (proj1 Hover eq_refl) as Hle.
        set (bound := (2 ^ 1025 - 2 ^ 971)%Z) in *. lia.
      * intros _ Hle. now rewrite (proj2 Hover Hle).
      * intros Hb. rewrite nearest_binary64_in_range by lia. eauto.
Qed.

(** C10, as stated, fails: the accessor is not total. For an aggregate of
    2^1024 effective additions out of one addition in total the division
    raises OverflowError, the quotient being beyond the binary64 range. *)
Lemma effective_ratio_overflows :
  DeveloperStats.total_additions overflowing_aggregate = 1%Z /\
  DeveloperStats.effective_additions overflowing_aggregate = (2 ^ 1024)%Z /\
  DeveloperStats.effective_ratio overflowing_aggregate = Raise OverflowError /\
  ~ exists ratio, DeveloperStats.effective_ratio overflowing_aggregate = Ok ratio.
Proof.
  split; [reflexivity|]. split; [reflexivity|].
  assert (Hraise : DeveloperStats.effective_ratio overflowing_aggregate = Raise OverflowError)
    by (vm_compute; reflexivity).
  split; [exact Hraise|]. intros [ratio Hratio]. rewrite Hraise in Hratio. discriminate.
Qed.

(** ** Runs of the effectful functions *)

Lemma analyze_commit_diff_run world client project sha t :
  analyze_commit_diff world client project sha t =
  Some (Ok (analysed world client project sha),
        t ++ analysis_events world client project sha).
Proof.
  unfold analyze_commit_diff, try_except, get_commit_diff, print, bind, emit, lift, ret,
    analysed, analysis_events, analysis.
  destruct (commit_diff world client project sha) as [diffs|e]; cbn [result_bind].
  - destruct (analyze_diffs diffs) as [effective|e]; [reflexivity|].
    now rewrite <- app_assoc.
  - now rewrite <- app_assoc.
Qed.

Lemma collect_commit_run world client project developers commit t :
  collect_commit world client project developers commit t =
  Some (Ok (record_commit project commit
              (analysed world client (project_id project) (commit_id commit)) developers),
        t ++ analysis_events world client (project_id project) (commit_id commit)).
Proof.
  unfold collect_commit, bind. rewrite analyze_commit_diff_run.
  unfold ret, record_commit, commit_email, commit_name, reported_additions, reported_deletions.
  destruct (developers !! default (lit "unknown") (author_email commit)); reflexivity.
Qed.

Lemma collect_commits_run world client project commits : forall developers t,
  exists t',
    for_each commits (collect_commit world client project) developers t =
    Some (Ok (fold_left (insert_analysed world client project) commits developers), t').
Proof.
  induction commits as [|c commits IH]; intros developers t; cbn [for_each fold_left].
  - now exists t.
  - unfold bind. rewrite collect_commit_run. apply IH.
Qed.

Lemma record_commit_other project commit effective developers email :
  email <> commit_email commit ->
  record_commit project commit effective developers !! email = developers !! email.
Proof. intros Hne. unfold record_commit. now rewrite lookup_insert_ne. Qed.

(** C5. When the request for the diff of a commit or the loop over its
    entries raises, whatever the exception, the analysis returns 0 after
    logging a warning, the commit is inserted with zero effective
    additions, the loop goes on with the remaining commits and completes,
    and the aggregates of the other developers and the effective count of
    the author are left as they were. *)
Theorem analyze_failure_contributes_zero :
  forall world client project commit e,
    analysis world client (project_id project) (commit_id commit) = Raise e ->
    forall developers t,
      let t1 := t ++ [Get client (CommitDiff (project_id project) (commit_id commit)) None;
                      Print (AnalyzeWarning (commit_id commit) e)] in
      analyze_commit_diff world client (project_id project) (commit_id commit) t
        = Some (Ok 0%Z, t1) /\
      collect_commit world client project developers commit t
        = Some (Ok (record_commit project commit 0 developers), t1) /\
      (forall rest, exists t',
          for_each (commit :: rest) (collect_commit world client project) developers t
          = Some (Ok (fold_left (insert_analysed world client project) rest
                        (record_commit project commit 0 developers)), t')) /\
      (forall email, email <> commit_email commit ->
          record_commit project commit 0 developers !! email = developers !! email) /\
      DeveloperStats.effective_additions <$>
        (record_commit project commit 0 developers !! commit_email commit)
      = Some (from_option DeveloperStats.effective_additions 0%Z
                (developers !! commit_email commit)).
Proof.
  intros world client project commit e He developers t t1.
  assert (Ha : analysed world client (project_id project) (commit_id commit) = 0%Z)
    by (unfold analysed; now rewrite He).
  assert (Hev : analysis_events world client (project_id project) (commit_id commit)
                = [Get client (CommitDiff (project_id project) (commit_id commit)) None;
                   Print (AnalyzeWarning (commit_id commit) e)])
    by (unfold analysis_events; now rewrite He).
  split; [|split; [|split; [|split]]].
  - now rewrite analyze_commit_diff_run, Ha, Hev.
  - now rewrite collect_commit_run, Ha, Hev.
  - intros rest. cbn [for_each]. unfold bind. rewrite collect_commit_run, Ha.
    apply collect_commits_run.
  - intros email. apply record_commit_other.
  - unfold record_commit. rewrite lookup_insert_eq. cbn.
    destruct (developers !! commit_email commit); cbn; f_equal; lia.
Qed.

(** ** The invariant of the aggregates *)

Lemma analysed_nonneg world client project sha : (0 <= analysed world client project sha)%Z.
Proof.
  unfold analysed, analysis.
  destruct (commit_diff world client project sha) as [diffs|e]; cbn [result_bind]; [|lia].
  destruct (analyze_diffs diffs) as [n|e] eqn:Hrun; [|lia].
  now apply analyze_loop_ge in Hrun.
Qed.

Lemma for_each_invariant {A S} (I : S -> Prop) (body : S -> A -> M S) (l : list A) :
  (forall s x t s' t', In x l -> I s -> body s x t = Some (Ok s', t') -> I s') ->
  forall s t s' t', I s -> for_each l body s t = Some (Ok s', t') -> I s'.
Proof.
  induction l as [|x l IH]; intros Hbody s t s' t' Hs Hrun; cbn [for_each] in Hrun.
  - unfold ret in Hrun. congruence.
  - unfold bind in Hrun. destruct (body s x t) as [[[s1|e] t1]|] eqn:Hx; try discriminate.
    apply (IH (fun s x t s' t' Hin => Hbody s x t s' t' (or_intror Hin)) s1 t1 s' t');
      [|exact Hrun].
    apply (Hbody s x t s1 t1); [now left | exact Hs | exact Hx].
Qed.

(** What [_get_all] returns was returned by its [get], page by page. *)
Lemma get_all_loop_Forall {A} (P : A -> Prop) (get : nat -> nat -> M (list A)) :
  (forall per_page page t data t', get per_page page t = Some (Ok data, t') -> Forall P data) ->
  forall fuel page results t res t',
    Forall P results ->
    _get_all_loop fuel get page results t = Some (Ok res, t') -> Forall P res.
Proof.
  intros Hget. induction fuel as [|fuel IH]; intros page results t res t' Hres Hrun;
    cbn [_get_all_loop] in Hrun; [discriminate|].
  unfold bind in Hrun. destruct (get 100%nat page t) as [[[data|e] t1]|] eqn:Hpage; try discriminate.
  pose proof (Hget _ _ _ _ _ Hpage) as Hdata.
  destruct (is_empty data).
  - unfold ret in Hrun. congruence.
  - assert (Hall : Forall P (results ++ data)) by (apply Forall_app; auto).
    destruct (length data <? 100)%nat.
    + unfold ret in Hrun. congruence.
    + eapply IH; eauto.
Qed.

Lemma get_project_commits_served world fuel client project since until t commits t' :
  get_project_commits world fuel client project since until t = Some (Ok commits, t') ->
  Forall (served world client project) commits.
Proof.
  unfold get_project_commits, _get_all. apply get_all_loop_Forall; [|constructor].
  intros per_page page t0 data t0' Hpage. unfold _get_commits, bind, emit, lift in Hpage.
  injection Hpage as Hpage _. apply List.Forall_forall. intros c Hc.
  now exists since, until, per_page, page, data.
Qed.

Lemma collect_project_run world fuel client since until developers project t developers' t' :
  collect_project world fuel client since until developers project t
    = Some (Ok developers', t') ->
  exists commits,
    Forall (served world client (project_id project)) commits /\
    developers' = fold_left (insert_analysed world client project) commits developers.
Proof.
  unfold collect_project, bind, print, emit. intros Hrun.
  destruct (get_project_commits _ _ _ _ _ _ _) as [[[commits|e] t1]|] eqn:Hget;
    try discriminate.
  exists commits. split; [eapply get_project_commits_served; eauto|].
  destruct (collect_commits_run world client project commits developers
              (t1 ++ [Print (CommitsFound (length commits))])) as [t2 Ht2].
  rewrite Ht2 in Hrun. congruence.
Qed.

Lemma collect_stats_invariant (P : DeveloperStats.t -> Prop) world fuel prefixes group client
  date t developers t' :
  (forall project commit developers,
      served world client (project_id project) commit ->
      map_Forall (fun _ => P) developers ->
      map_Forall (fun _ => P) (insert_analysed world client project developers commit)) ->
  collect_stats world fuel prefixes group client date t = Some (Ok developers, t') ->
  map_Forall (fun _ => P) developers.
Proof.
  intros Hstep. unfold collect_stats, bind, print, emit. intros Hrun.
  destruct (get_group_projects _ _ _ _ _ _) as [[[projects|e] t1]|]; try discriminate.
  revert Hrun. apply for_each_invariant; [|apply map_Forall_empty].
  intros s project t0 s' t0' _ Hs Hproject.
  apply collect_project_run in Hproject as (commits & Hserved & ->).
  clear t0 t0'. revert s Hs. induction Hserved as [|c commits Hc _ IH]; intros s Hs.
  - exact Hs.
  - cbn [fold_left]. apply IH. now apply Hstep.
Qed.

Lemma record_commit_Forall (P : DeveloperStats.t -> Prop) project commit effective developers :
  map_Forall (fun _ => P) developers ->
  (forall dev, P dev ->
     P (DeveloperStats.mk (DeveloperStats.name dev) (DeveloperStats.email dev)
          (DeveloperStats.commits dev ++
             [CommitStats.mk (take 8 (commit_id commit))
                (take 50 (default [] (title commit)))
                (reported_additions commit) (reported_deletions commit) effective 0])
          (DeveloperStats.total_additions dev + reported_additions commit)
          (DeveloperStats.total_deletions dev + reported_deletions commit)
          (DeveloperStats.effective_additions dev + effective)
          (DeveloperStats.files_changed dev)
          ({[ project_name project ]} ∪ DeveloperStats.projects dev))) ->
  P (DeveloperStats.new (commit_name commit) (commit_email commit)) ->
  map_Forall (fun _ => P) (record_commit project commit effective developers).
Proof.
  intros Hall Hupdate Hnew. unfold record_commit. apply map_Forall_insert_2; [|exact Hall].
  apply Hupdate. destruct (developers !! commit_email commit) as [dev|] eqn:Hdev; cbn.
  - exact (Hall _ _ Hdev).
  - exact Hnew.
Qed.

(** C1, as the code has it. After a collection pass every aggregate has a
    count of effective additions that is at least 0, and that is at most
    its total additions provided the API's statistics cover the analysis
    of every commit it lists. *)
Theorem effective_bounds_collected :
  forall world fuel prefixes group client date t developers t',
    collect_stats world fuel prefixes group client date t = Some (Ok developers, t') ->
    forall email dev,
      developers !! email = Some dev ->
      (0 <= DeveloperStats.effective_additions dev)%Z /\
      (additions_cover_analysis world -> effective_within_total dev).
Proof.
  intros world fuel prefixes group client date t developers t' Hrun email dev Hdev.
  assert (Hnonneg : map_Forall (fun _ d => (0 <= DeveloperStats.effective_additions d)%Z)
                      developers).
  { eapply collect_stats_invariant; [|exact Hrun].
    intros project commit devs _ Hall. apply record_commit_Forall; [exact Hall| |cbn; lia].
    intros d Hd. cbn. pose proof (analysed_nonneg world client (project_id project)
                                    (commit_id commit)). lia. }
  split; [exact (Hnonneg _ _ Hdev)|].
  intros Hcover.
  assert (Hwithin : map_Forall (fun _ => effective_within_total) developers).
  { eapply collect_stats_invariant; [|exact Hrun].
    intros project commit devs Hserved Hall.
    apply record_commit_Forall; [exact Hall| |unfold effective_within_total; cbn; lia].
    unfold effective_within_total. intros d Hd. cbn.
    pose proof (analysed_nonneg world client (project_id project) (commit_id commit)).
    pose proof (Hcover client (project_id project) commit Hserved). lia. }
  exact (Hwithin _ _ Hdev).
Qed.

Lemma consistent_world_covered : additions_cover_analysis consistent_world.
Proof.
  intros client project commit (since & until & per_page & page & commits & Hpage & Hin).
  cbn in Hpage. injection Hpage as <-. unfold first_page in Hin.
  destruct (page =? 1)%nat; [|destruct Hin].
  destruct Hin as [<-|[]]. vm_compute. discriminate.
Qed.

Lemma effective_bounds_collected_witness :
  exists developers t dev,
    collect_stats consistent_world 1 [] (lit "team") sample_client sample_date []
      = Some (Ok developers, t) /\
    developers !! lit "dev@example.com" = Some dev /\
    (0 <= DeveloperStats.effective_additions dev)%Z /\
    effective_within_total dev.
Proof.
  assert (Hrun : exists developers t,
             collect_stats consistent_world 1 [] (lit "team") sample_client sample_date []
               = Some (Ok developers, t) /\
             exists dev, developers !! lit "dev@example.com" = Some dev).
  { do 2 eexists. split; [vm_compute; reflexivity|]. eexists. vm_compute. reflexivity. }
  destruct Hrun as (developers & t & Hrun & dev & Hdev).
  exists developers, t, dev. split; [exact Hrun|]. split; [exact Hdev|].
  destruct (effective_bounds_collected _ _ _ _ _ _ _ _ _ Hrun _ _ Hdev) as [Hnonneg Hwithin].
  split; [exact Hnonneg|]. apply Hwithin. exact consistent_world_covered.
Defined.

(** C1, as stated, fails: a commit for which the API reports no statistics
    and whose diff adds one effective Java line leaves its author with one
    effective addition out of zero total additions. *)
Lemma understated_additions_exceed_total :
  exists developers t dev,
    collect_stats understated_world 1 [] (lit "team") sample_client sample_date []
      = Some (Ok developers, t) /\
    developers !! lit "dev@example.com" = Some dev /\
    DeveloperStats.effective_additions dev = 1%Z /\
    DeveloperStats.total_additions dev = 0%Z /\
    ~ effective_within_total dev.
Proof.
  do 3 eexists. split; [vm_compute; reflexivity|].
  split; [vm_compute; reflexivity|]. cbn.
  split; [reflexivity|]. split; [reflexivity|].
  unfold effective_within_total. cbn. lia.
Qed.

(** ** Display names *)

Lemma record_commit_name project commit effective developers email :
  DeveloperStats.name <$> record_commit project commit effective developers !! email =
  if decide (commit_email commit = email)
  then Some (from_option DeveloperStats.name (commit_name commit)
               (developers !! commit_email commit))
  else DeveloperStats.name <$> developers !! email.
Proof.
  unfold record_commit. destruct (decide (commit_email commit = email)) as [<-|Hne].
  - rewrite lookup_insert_eq. cbn. now destruct (developers !! commit_email commit).
  - now rewrite lookup_insert_ne.
Qed.

Lemma processed_names world client processed : forall developers email,
  DeveloperStats.name <$> fold_left (insert_processed world client) processed developers !! email =
  match DeveloperStats.name <$> developers !! email with
  | Some n => Some n
  | None => first_seen_name email (List.map snd processed)
  end.
Proof.
  induction processed as [|[project commit] processed IH]; intros developers email;
    cbn [fold_left List.map first_seen_name snd].
  - now destruct (DeveloperStats.name <$> developers !! email).
  - rewrite IH. unfold insert_processed, insert_analysed. cbn [fst snd].
    rewrite record_commit_name. destruct (decide (commit_email commit = email)) as [<-|Hne].
    + now destruct (developers !! commit_email commit).
    + reflexivity.
Qed.

Lemma collect_stats_processed world fuel prefixes group client date t developers t' :
  collect_stats world fuel prefixes group client date t = Some (Ok developers, t') ->
  exists processed,
    Forall (fun pc => served world client (project_id (fst pc)) (snd pc)) processed /\
    developers = fold_left (insert_processed world client) processed ∅.
Proof.
  unfold collect_stats, bind, print, emit. intros Hrun.
  destruct (get_group_projects _ _ _ _ _ _) as [[[projects|e] t1]|]; try discriminate.
  revert Hrun.
  apply (for_each_invariant
           (fun s => exists processed,
                Forall (fun pc => served world client (project_id (fst pc)) (snd pc)) processed /\
                s = fold_left (insert_processed world client) processed ∅)).
  - intros s project t0 s' t0' _ (processed & Hserved & ->) Hproject.
    apply collect_project_run in Hproject as (commits & Hcommits & ->).
    exists (processed ++ List.map (pair project) commits). split.
    + apply Forall_app. split; [exact Hserved|].
      apply Forall_map. eapply Forall_impl; [exact Hcommits|]. now intros c Hc.
    + rewrite fold_left_app. generalize (fold_left (insert_processed world client) processed ∅).
      clear. induction commits as [|c commits IH]; intros s; cbn [fold_left List.map];
        [reflexivity|apply IH].
  - exists []. split; [constructor|reflexivity].
Qed.

(** C9, as stated, fails: of two commits of one email named Alice and then
    Alicia, the aggregate keeps Alice, not the name seen last. *)
Lemma last_seen_name_not_kept :
  exists developers t dev,
    collect_stats renaming_world 1 [] (lit "team") sample_client sample_date []
      = Some (Ok developers, t) /\
    developers !! lit "dev@example.com" = Some dev /\
    last_seen_name (lit "dev@example.com")
      [sample_commit "Alice" (Some 3%Z); sample_commit "Alicia" (Some 3%Z)]
      = Some (lit "Alicia") /\
    DeveloperStats.name dev = lit "Alice" /\
    DeveloperStats.name dev <> lit "Alicia".
Proof.
  do 3 eexists. split; [vm_compute; reflexivity|].
  split; [vm_compute; reflexivity|]. cbn.
  split; [vm_compute; reflexivity|]. split; [reflexivity|]. vm_compute. discriminate.
Qed.

(** ** Pagination *)

Lemma get_all_loop_pages {A} (ev : nat -> nat -> event) (listing : nat -> nat -> result (list A)) :
  forall k fuel page results t last,
    (forall i, (i < k)%nat ->
       exists data, listing 100%nat (page + i)%nat = Ok data /\ (100 <= length data)%nat) ->
    listing 100%nat (page + k)%nat = Ok last ->
    (length last < 100)%nat ->
    (k < fuel)%nat ->
    _get_all_loop fuel (fun per_page p => emit (ev per_page p) ;; lift (listing per_page p))
      page results t
    = Some (Ok (results ++ concat (List.map (page_items (listing 100%nat)) (seq page (S k)))),
            t ++ List.map (ev 100%nat) (seq page (S k))).
Proof.
  induction k as [|k IH]; intros fuel page results t last Hfull Hlast Hshort Hfuel;
    (destruct fuel as [|fuel]; [lia|]); cbn [_get_all_loop]; unfold bind at 1.
  - rewrite Nat.add_0_r in Hlast. unfold bind, emit, lift. rewrite Hlast.
    cbn [seq List.map concat]. unfold page_items. rewrite Hlast, app_nil_r.
    destruct last as [|x last]; cbn [is_empty].
    + unfold ret. now rewrite app_nil_r.
    + apply Nat.ltb_lt in Hshort. rewrite Hshort. reflexivity.
  - destruct (Hfull 0%nat ltac:(lia)) as (data & Hdata & Hlen).
    rewrite Nat.add_0_r in Hdata. unfold bind at 1, emit, lift. rewrite Hdata.
    destruct data as [|x data]; [cbn in Hlen; lia|]. cbn [is_empty].
    assert (Hge : (length (x :: data) <? 100)%nat = false) by (apply Nat.ltb_ge; exact Hlen).
    rewrite Hge.
    etransitivity;
      [apply (IH fuel (page + 1)%nat (results ++ x :: data) (t ++ [ev 100%nat page]) last)|].
    5: { rewrite Nat.add_1_r.
         change (seq page (S (S k))) with (page :: seq (S page) (S k)).
         cbn [List.map concat].
         assert (Hitems : page_items (listing 100%nat) page = x :: data)
           by (unfold page_items; now rewrite Hdata).
         rewrite Hitems, <- !app_assoc. reflexivity. }
    + intros i Hi. destruct (Hfull (S i) ltac:(lia)) as (d & Hd & Hl).
      exists d. split; [|exact Hl]. rewrite <- Hd. f_equal. lia.
    + rewrite <- Hlast. f_equal. lia.
    + exact Hshort.
    + lia.
Qed.

(** C8. The listing of a project's commits asks for pages of 100, one
    after the other from page 1, and stops at the first page that has
    fewer than 100 items, empty or not: it returns the items of all the
    pages up to that one, after exactly that many requests. For pages of
    100, 100 and 37 items it returns 237 items after 3 requests. *)
Theorem get_all_stops_at_short_page :
  forall world client project since until,
    let listing := commits_page world client project since until 100%nat in
    let request := fun page =>
      Get client (ProjectCommits project since until) (Some (100%nat, page)) in
    (forall n fuel t last,
        (forall i, (1 <= i < n)%nat ->
           exists data, listing i = Ok data /\ (100 <= length data)%nat) ->
        listing n = Ok last -> (length last < 100)%nat -> (1 <= n <= fuel)%nat ->
        get_project_commits world fuel client project since until t
        = Some (Ok (concat (List.map (page_items listing) (seq 1 n))),
                t ++ List.map request (seq 1 n))) /\
    (forall fuel t p1 p2 p3,
        listing 1%nat = Ok p1 -> listing 2%nat = Ok p2 -> listing 3%nat = Ok p3 ->
        length p1 = 100%nat -> length p2 = 100%nat -> length p3 = 37%nat ->
        (3 <= fuel)%nat ->
        exists commits,
          get_project_commits world fuel client project since until t
          = Some (Ok commits, t ++ [request 1%nat; request 2%nat; request 3%nat]) /\
          commits = p1 ++ p2 ++ p3 /\ length commits = 237%nat).
Proof.
  intros world client project since until listing request.
  assert (Hgen : forall n fuel t last,
             (forall i, (1 <= i < n)%nat ->
                exists data, listing i = Ok data /\ (100 <= length data)%nat) ->
             listing n = Ok last -> (length last < 100)%nat -> (1 <= n <= fuel)%nat ->
             get_project_commits world fuel client project since until t
             = Some (Ok (concat (List.map (page_items listing) (seq 1 n))),
                     t ++ List.map request (seq 1 n))).
  { intros n fuel t last Hfull Hlast Hshort Hn.
    destruct n as [|k]; [lia|].
    unfold get_project_commits, _get_all.
    apply (get_all_loop_pages
             (fun per_page page =>
                Get client (ProjectCommits project since until) (Some (per_page, page)))
             (commits_page world client project since until)
             k fuel 1%nat [] t last).
    - intros i Hi. apply Hfull. lia.
    - exact Hlast.
    - exact Hshort.
    - lia. }
  split; [exact Hgen|].
  intros fuel t p1 p2 p3 H1 H2 H3 L1 L2 L3 Hfuel.
  exists (p1 ++ p2 ++ p3). split; [|split; [reflexivity|]].
  - rewrite (Hgen 3%nat fuel t p3); [| |exact H3|lia|lia].
    + cbn [seq List.map concat]. unfold page_items. rewrite H1, H2, H3.
      now rewrite app_nil_r.
    + intros i Hi. assert (i = 1 \/ i = 2)%nat as [-> | ->] by lia; eauto with lia.
  - rewrite !length_app. lia.
Qed.

Lemma get_all_stops_at_short_page_witness :
  exists commits,
    get_project_commits three_pages_world 3 sample_client 7 [] [] []
    = Some (Ok commits,
            [Get sample_client (ProjectCommits 7 [] []) (Some (100%nat, 1%nat));
             Get sample_client (ProjectCommits 7 [] []) (Some (100%nat, 2%nat));
             Get sample_client (ProjectCommits 7 [] []) (Some (100%nat, 3%nat))]) /\
    commits = three_pages 1 ++ three_pages 2 ++ three_pages 3 /\
    length commits = 237%nat.
Proof.
  apply (proj2 (get_all_stops_at_short_page three_pages_world sample_client 7 [] [])
           3%nat [] (three_pages 1) (three_pages 2) (three_pages 3));
    first [reflexivity | lia].
Defined.

(** ** The pass, in the order of the listings *)

Lemma get_all_listing {A} (ev : nat -> nat -> event) (listing : nat -> nat -> result (list A))
  fuel n items t :
  listing_ends (listing 100%nat) n items -> (n <= fuel)%nat ->
  _get_all fuel (fun per_page p => emit (ev per_page p) ;; lift (listing per_page p)) t
  = Some (Ok items, t ++ List.map (ev 100%nat) (seq 1 n)).
Proof.
  intros (Hn & Hfull & (last & Hlast & Hshort) & ->) Hfuel.
  destruct n as [|k]; [lia|]. unfold _get_all.
  apply (get_all_loop_pages ev listing k fuel 1%nat [] t last).
  - intros i Hi. apply Hfull. lia.
  - exact Hlast.
  - exact Hshort.
  - lia.
Qed.

Lemma get_group_projects_listing world fuel prefixes client group n projects t :
  listing_ends (projects_page world client group 100%nat) n projects -> (n <= fuel)%nat ->
  get_group_projects world fuel prefixes client group t
  = Some (Ok (selected prefixes projects),
          t ++ List.map (projects_request client group) (seq 1 n)).
Proof.
  intros Hlist Hfuel.
  assert (Hrun : _get_all fuel (_get_projects world client group) t
                 = Some (Ok projects, t ++ List.map (projects_request client group) (seq 1 n)))
    by exact (get_all_listing
                (fun per_page page => Get client (GroupProjects group) (Some (per_page, page)))
                (projects_page world client group) fuel n projects t Hlist Hfuel).
  unfold get_group_projects, bind. rewrite Hrun.
  unfold selected. destruct (is_empty prefixes); reflexivity.
Qed.

Lemma get_project_commits_listing world fuel client project since until n commits t :
  listing_ends (commits_page world client project since until 100%nat) n commits ->
  (n <= fuel)%nat ->
  get_project_commits world fuel client project since until t
  = Some (Ok commits, t ++ List.map (commits_request client project since until) (seq 1 n)).
Proof.
  intros Hlist Hfuel. unfold get_project_commits.
  apply (get_all_listing
           (fun per_page page =>
              Get client (ProjectCommits project since until) (Some (per_page, page)))
           (commits_page world client project since until) fuel n commits t Hlist Hfuel).
Qed.

Lemma fold_insert_processed world client project commits developers :
  fold_left (insert_processed world client) (List.map (pair project) commits) developers
  = fold_left (insert_analysed world client project) commits developers.
Proof.
  revert developers. induction commits as [|c commits IH]; intros developers;
    cbn [fold_left List.map]; [reflexivity|apply IH].
Qed.

Lemma collect_projects_listed world fuel client date commits_in projects :
  (forall project, In project projects ->
     exists n, (n <= fuel)%nat /\
       listing_ends (commits_page world client (project_id project)
                       (window_start date) (window_end date) 100%nat)
         n (commits_in project)) ->
  forall developers t,
  exists t',
    for_each projects (collect_project world fuel client (window_start date) (window_end date))
      developers t
    = Some (Ok (fold_left (insert_processed world client)
                  (in_listing_order projects commits_in) developers), t').
Proof.
  induction projects as [|project projects IH]; intros Hlists developers t.
  - exists t. reflexivity.
  - destruct (Hlists project (or_introl eq_refl)) as (n & Hfuel & Hlist).
    cbn [for_each]. unfold bind at 1. unfold collect_project at 1.
    unfold bind at 1, print at 1, emit at 1. unfold bind at 1.
    rewrite (get_project_commits_listing _ _ _ _ _ _ _ _ _ Hlist Hfuel).
    unfold bind at 1, print at 1, emit at 1.
    destruct (collect_commits_run world client project (commits_in project) developers
                ((((t ++ [Print (AnalyzingProject (project_name project))]) ++
                  List.map (commits_request client (project_id project) (window_start date)
                              (window_end date)) (seq 1 n))) ++
                 [Print (CommitsFound (length (commits_in project)))])) as (t1 & Ht1).
    rewrite Ht1.
    destruct (IH (fun p Hp => Hlists p (or_intror Hp))
                (fold_left (insert_analysed world client project) (commits_in project) developers)
                t1) as (t' & Ht').
    exists t'. rewrite Ht'. unfold in_listing_order. cbn [flat_map].
    now rewrite fold_left_app, fold_insert_processed.
Qed.

(** A pass over listings that end collects the commits in the order of
    the listings. *)
Lemma collect_stats_listed world fuel prefixes group client date projects commits_in t :
  api_lists world fuel prefixes group client date projects commits_in ->
  exists t',
    collect_stats world fuel prefixes group client date t
    = Some (Ok (fold_left (insert_processed world client)
                  (in_listing_order (selected prefixes projects) commits_in) ∅), t').
Proof.
  intros [(n & Hfuel & Hlist) Hcommits]. unfold collect_stats.
  unfold bind at 1, print at 1, emit at 1. unfold bind at 1.
  rewrite (get_group_projects_listing _ _ _ _ _ _ _ _ Hlist Hfuel).
  unfold bind at 1, print at 1, emit at 1.
  apply (collect_projects_listed world fuel client date commits_in
           (selected prefixes projects) Hcommits).
Qed.

Lemma first_seen_name_first email : forall before commit after,
  commit_email commit = email ->
  Forall (fun earlier => commit_email earlier <> email) before ->
  first_seen_name email (before ++ commit :: after) = Some (commit_name commit).
Proof.
  induction before as [|c before IH]; intros commit after Hc Hbefore; cbn [app first_seen_name].
  - now rewrite decide_True.
  - apply Forall_cons_1 in Hbefore as [Hne Hbefore]. rewrite decide_False by exact Hne.
    now apply IH.
Qed.

(** C9, as the code has it. When the listings of the API end, the pass
    returns aggregates whose display names are those of the first commit
    of each email in the order of the listings, project after project and
    page after page: whenever the listed commits are [before], then
    [commit], then [after], and no commit of [before] has the email of
    [commit], the aggregate of that email bears the name of [commit],
    whatever the names of the commits of [after]. The name is set when the
    aggregate is created and is not updated. *)
Theorem first_seen_name_kept :
  forall world fuel prefixes group client date projects commits_in t,
    api_lists world fuel prefixes group client date projects commits_in ->
    exists developers t',
      collect_stats world fuel prefixes group client date t = Some (Ok developers, t') /\
      (forall email,
          DeveloperStats.name <$> developers !! email
          = first_seen_name email
              (List.map snd (in_listing_order (selected prefixes projects) commits_in))) /\
      (forall before commit after,
          List.map snd (in_listing_order (selected prefixes projects) commits_in)
          = before ++ commit :: after ->
          Forall (fun earlier => commit_email earlier <> commit_email commit) before ->
          DeveloperStats.name <$> developers !! commit_email commit
          = Some (commit_name commit)).
Proof.
  intros world fuel prefixes group client date projects commits_in t Hlists.
  destruct (collect_stats_listed _ _ _ _ _ _ _ _ t Hlists) as (t' & Hrun).
  eexists _, t'. split; [exact Hrun|].
  assert (Hnames : forall email,
             DeveloperStats.name <$>
               fold_left (insert_processed world client)
                 (in_listing_order (selected prefixes projects) commits_in) ∅ !! email
             = first_seen_name email
                 (List.map snd (in_listing_order (selected prefixes projects) commits_in))).
  { intros email. rewrite processed_names. now rewrite lookup_empty. }
  split; [exact Hnames|].
  intros before commit after Hsplit Hbefore. rewrite Hnames, Hsplit.
  now apply first_seen_name_first.
Qed.

Lemma listing_of_one_page {A} (answers : nat -> result (list A)) data :
  answers 1%nat = Ok data -> (length data < 100)%nat -> listing_ends answers 1 data.
Proof.
  intros Hpage Hshort. split; [lia|]. split; [intros i Hi; lia|]. split; [now exists data|].
  cbn [seq List.map concat]. unfold page_items. rewrite Hpage. now rewrite app_nil_r.
Qed.

Lemma sample_world_lists commits diffs answer fuel group client date :
  (length commits < 100)%nat -> (1 <= fuel)%nat ->
  api_lists (sample_world (first_page commits) diffs answer) fuel [] group client date
    [sample_project] (fun _ => commits).
Proof.
  intros Hshort Hfuel. split.
  - exists 1%nat. split; [exact Hfuel|]. apply listing_of_one_page; [reflexivity|cbn; lia].
  - intros project _. exists 1%nat. split; [exact Hfuel|].
    apply listing_of_one_page; [reflexivity|exact Hshort].
Qed.

Lemma first_seen_name_kept_witness :
  exists developers t',
    collect_stats renaming_world 1 [] (lit "team") sample_client sample_date []
      = Some (Ok developers, t') /\
    DeveloperStats.name <$> developers !! lit "dev@example.com" = Some (lit "Alice").
Proof.
  destruct (first_seen_name_kept renaming_world 1 [] (lit "team") sample_client sample_date
              [sample_project]
              (fun _ => [sample_commit "Alice" (Some 3%Z); sample_commit "Alicia" (Some 3%Z)])
              [])
    as (developers & t' & Hrun & _ & Hfirst).
  - apply sample_world_lists; cbn; lia.
  - exists developers, t'. split; [exact Hrun|].
    apply (Hfirst [] (sample_commit "Alice" (Some 3%Z)) [sample_commit "Alicia" (Some 3%Z)]);
      [reflexivity|constructor].
Defined.

(** ** Notifications *)

Lemma posted_app a b : posted (a ++ b) = posted a ++ posted b.
Proof. unfold posted. apply flat_map_app. Qed.

Lemma send_wecom_run world webhook content t resp :
  http_post world webhook (WecomMarkdown content) = Ok resp ->
  send_wecom world webhook content t
  = Some (Ok tt, t ++ [Post webhook (WecomMarkdown content);
                       Print (WecomResult (status_code resp))]).
Proof.
  intros H. unfold send_wecom, post, print, bind, emit, lift. rewrite H.
  cbn. now rewrite <- app_assoc.
Qed.

Lemma send_dingtalk_run world webhook content t resp :
  http_post world webhook (DingtalkMarkdown DINGTALK_TITLE content) = Ok resp ->
  send_dingtalk world webhook content t
  = Some (Ok tt, t ++ [Post webhook (DingtalkMarkdown DINGTALK_TITLE content);
                       Print (DingtalkResult (status_code resp))]).
Proof.
  intros H. unfold send_dingtalk, post, print, bind, emit, lift. rewrite H.
  cbn. now rewrite <- app_assoc.
Qed.

Lemma send_part_run world url chat_id n i part t resp :
  http_post world url (TelegramMessage chat_id part) = Ok resp ->
  send_part world url chat_id n i part t
  = Some (Ok (i + 1)%nat,
          t ++ [Post url (TelegramMessage chat_id part); Print (part_outcome resp (i + 1) n)]).
Proof.
  intros Hpost. unfold send_part, post, print, bind, emit, lift, ret, part_outcome.
  rewrite Hpost. destruct (status_code resp =? 200)%Z; cbn; now rewrite <- app_assoc.
Qed.

Lemma send_parts_events world url chat_id n :
  responsive world ->
  forall parts i t,
    for_each parts (send_part world url chat_id n) i t
    = Some (Ok (i + length parts)%nat, t ++ parts_events world url chat_id n i parts).
Proof.
  intros Hresp. induction parts as [|part parts IH]; intros i t; cbn [for_each parts_events].
  - unfold ret. now rewrite app_nil_r, Nat.add_0_r.
  - destruct (Hresp url (TelegramMessage chat_id part)) as [resp Hpart].
    unfold bind at 1. rewrite (send_part_run _ _ _ _ _ _ _ _ Hpart), IH.
    unfold delivery. rewrite Hpart. cbn [length app]. rewrite <- app_assoc. cbn [app].
    do 3 f_equal. lia.
Qed.

Lemma send_notifications_events world env md_report t :
  responsive world ->
  send_notifications world env md_report t
  = Some (Ok tt, t ++ notification_events world env md_report).
Proof.
  intros Hresp. unfold send_notifications, notification_events.
  set (wecom := default [] (WECOM_WEBHOOK env)).
  set (dingtalk := default [] (DINGTALK_WEBHOOK env)).
  set (bot := default [] (TELEGRAM_BOT_TOKEN env)).
  set (chat := default [] (TELEGRAM_CHAT_ID env)).
  unfold bind at 1.
  assert (H1 : (if truthy (WECOM_WEBHOOK env) then send_wecom world wecom md_report else ret tt) t
               = Some (Ok tt,
                       t ++ (if truthy (WECOM_WEBHOOK env)
                             then delivery world wecom (WecomMarkdown md_report)
                                    (fun resp => WecomResult (status_code resp))
                             else []))).
  { destruct (truthy (WECOM_WEBHOOK env)); [|unfold ret; now rewrite app_nil_r].
    destruct (Hresp wecom (WecomMarkdown md_report)) as [resp H].
    rewrite (send_wecom_run _ _ _ _ _ H). unfold delivery. now rewrite H. }
  rewrite H1. unfold bind at 1.
  set (t1 := t ++ _).
  assert (H2 : (if truthy (DINGTALK_WEBHOOK env) then send_dingtalk world dingtalk md_report
                else ret tt) t1
               = Some (Ok tt,
                       t1 ++ (if truthy (DINGTALK_WEBHOOK env)
                              then delivery world dingtalk
                                     (DingtalkMarkdown DINGTALK_TITLE md_report)
                                     (fun resp => DingtalkResult (status_code resp))
                              else []))).
  { destruct (truthy (DINGTALK_WEBHOOK env)); [|unfold ret; now rewrite app_nil_r].
    destruct (Hresp dingtalk (DingtalkMarkdown DINGTALK_TITLE md_report)) as [resp H].
    rewrite (send_dingtalk_run _ _ _ _ _ H). unfold delivery. now rewrite H. }
  rewrite H2. unfold t1. rewrite <- !app_assoc.
  destruct (truthy (TELEGRAM_BOT_TOKEN env) && truthy (TELEGRAM_CHAT_ID env)).
  - unfold send_telegram, bind. fold (telegram_url bot).
    rewrite (send_parts_events world (telegram_url bot) chat _ Hresp).
    unfold ret. now rewrite <- !app_assoc.
  - unfold ret. now rewrite app_nil_r.
Qed.

Lemma posted_delivery world url body outcome :
  posted (delivery world url body outcome) = [(url, body)].
Proof. unfold delivery. now destruct (http_post world url body). Qed.

Lemma posted_parts_events world url chat_id n : forall parts i,
  posted (parts_events world url chat_id n i parts)
  = List.map (fun part => (url, TelegramMessage chat_id part)) parts.
Proof.
  induction parts as [|part parts IH]; intros i; cbn [parts_events List.map]; [reflexivity|].
  now rewrite posted_app, posted_delivery, IH.
Qed.

Lemma posted_notification_events world env md_report :
  posted (notification_events world env md_report) = expected_posts env md_report.
Proof.
  unfold notification_events, expected_posts. rewrite !posted_app.
  f_equal; [|f_equal].
  - destruct (truthy (WECOM_WEBHOOK env)); [apply posted_delivery|reflexivity].
  - destruct (truthy (DINGTALK_WEBHOOK env)); [apply posted_delivery|reflexivity].
  - destruct (truthy (TELEGRAM_BOT_TOKEN env) && truthy (TELEGRAM_CHAT_ID env));
      [apply posted_parts_events|reflexivity].
Qed.

(** C6, as the code has it. When every notification request gets a
    response, of whatever status, each channel prints the status of the
    response to its own request right after the request and raises nothing:
    the first webhook and the second print the status code, the bot prints
    for each part either that the part was sent, when the status is 200, or
    the status and the body of the response; the notification block posts
    to every configured channel in turn; and [main], once the reports are
    rendered and written, ends with exit code 0 after these events. *)
Theorem bad_status_never_blocks :
  forall world,
    responsive world ->
    (forall webhook content t,
        exists resp,
          http_post world webhook (WecomMarkdown content) = Ok resp /\
          send_wecom world webhook content t
          = Some (Ok tt, t ++ [Post webhook (WecomMarkdown content);
                               Print (WecomResult (status_code resp))])) /\
    (forall webhook content t,
        exists resp,
          http_post world webhook (DingtalkMarkdown DINGTALK_TITLE content) = Ok resp /\
          send_dingtalk world webhook content t
          = Some (Ok tt, t ++ [Post webhook (DingtalkMarkdown DINGTALK_TITLE content);
                               Print (DingtalkResult (status_code resp))])) /\
    (forall url chat_id n i part t,
        exists resp,
          http_post world url (TelegramMessage chat_id part) = Ok resp /\
          send_part world url chat_id n i part t
          = Some (Ok (i + 1)%nat,
                  t ++ [Post url (TelegramMessage chat_id part);
                        Print (if (status_code resp =? 200)%Z
                               then TelegramSent (i + 1) n
                               else TelegramFailed (status_code resp) (text resp))])) /\
    (forall bot_token chat_id content t,
        send_telegram world bot_token chat_id content t
        = Some (Ok tt,
                t ++ parts_events world (telegram_url bot_token) chat_id
                       (length (telegram_parts content)) 0 (telegram_parts content))) /\
    (forall env md_report t,
        send_notifications world env md_report t
        = Some (Ok tt, t ++ notification_events world env md_report) /\
        posted (notification_events world env md_report) = expected_posts env md_report) /\
    (forall fuel env render date t stats t1 text_report md_report,
        is_empty (GITLAB_URL env) = false ->
        is_empty (GITLAB_TOKEN env) = false ->
        is_empty (GITLAB_GROUP env) = false ->
        collect_stats world fuel (PROJECT_PREFIXES env) (GITLAB_GROUP env)
          (new_client (GITLAB_URL env) (GITLAB_TOKEN env)) date (main_prologue t date)
        = Some (Ok stats, t1) ->
        stats <> ∅ ->
        generate_report render stats date = Ok text_report ->
        generate_markdown_report render stats date = Ok md_report ->
        write_file world (report_path env date) md_report = Ok tt ->
        main world fuel env render date t
        = Some (Ok 0%Z,
                t1 ++ [Print (Report text_report);
                       WriteFile (report_path env date) md_report;
                       Print (ReportSaved (report_path env date))] ++
                notification_events world env md_report)).
Proof.
  intros world Hresp. split; [|split; [|split; [|split; [|split]]]].
  - intros webhook content t. destruct (Hresp webhook (WecomMarkdown content)) as [resp H].
    exists resp. split; [exact H|now apply send_wecom_run].
  - intros webhook content t.
    destruct (Hresp webhook (DingtalkMarkdown DINGTALK_TITLE content)) as [resp H].
    exists resp. split; [exact H|now apply send_dingtalk_run].
  - intros url chat_id n i part t.
    destruct (Hresp url (TelegramMessage chat_id part)) as [resp H].
    exists resp. split; [exact H|]. exact (send_part_run _ _ _ _ _ _ _ _ H).
  - intros bot_token chat_id content t. unfold send_telegram, bind.
    fold (telegram_url bot_token).
    rewrite (send_parts_events world (telegram_url bot_token) chat_id _ Hresp).
    reflexivity.
  - intros env md_report t. split; [now apply send_notifications_events|].
    apply posted_notification_events.
  - intros fuel env render date t stats t1 text_report md_report Hurl Htoken Hgroup
      Hcollect Hstats Htext Hmd Hwrite.
    unfold main. rewrite Hurl, Htoken, Hgroup.
    unfold main_prologue in Hcollect.
    unfold bind at 1 2 3, print at 1 2 3, emit at 1 2 3, try_except.
    unfold bind at 1. rewrite Hcollect.
    rewrite (bool_decide_eq_false_2 _ Hstats).
    fold (report_path env date).
    unfold bind at 1, lift at 1. rewrite Htext.
    unfold bind at 1, lift at 1. rewrite Hmd.
    unfold bind at 1 2 3 4, print at 1 2, emit at 1 2 3, lift at 1. rewrite Hwrite.
    unfold bind. rewrite (send_notifications_events _ _ _ _ Hresp). unfold ret.
    rewrite <- !app_assoc. reflexivity.
Qed.

Lemma rejecting_world_responsive : responsive rejecting_world.
Proof. intros url body. eexists. reflexivity. Qed.

Lemma bad_status_never_blocks_witness :
  exists t1,
    main rejecting_world 1 sample_env sample_renderer sample_date []
    = Some (Ok 0%Z,
            t1 ++ [Print (Report (lit "report"));
                   WriteFile (report_path sample_env sample_date) (lit "# report");
                   Print (ReportSaved (report_path sample_env sample_date))] ++
            notification_events rejecting_world sample_env (lit "# report")) /\
    notification_events rejecting_world sample_env (lit "# report")
    = [Post (lit "https://wecom.example.com/hook") (WecomMarkdown (lit "# report"));
       Print (WecomResult 500);
       Post (lit "https://dingtalk.example.com/hook")
         (DingtalkMarkdown DINGTALK_TITLE (lit "# report"));
       Print (DingtalkResult 500);
       Post (telegram_url (lit "42:secret")) (TelegramMessage (lit "-1001") (lit "# report"));
       Print (TelegramFailed 500 (lit "internal error"))].
Proof.
  assert (Hrun : exists stats t1,
             collect_stats rejecting_world 1 (PROJECT_PREFIXES sample_env)
               (GITLAB_GROUP sample_env)
               (new_client (GITLAB_URL sample_env) (GITLAB_TOKEN sample_env)) sample_date
               (main_prologue [] sample_date)
             = Some (Ok stats, t1) /\
             exists dev, stats !! lit "dev@example.com" = Some dev).
  { do 2 eexists. split; [vm_compute; reflexivity|]. eexists. vm_compute. reflexivity. }
  destruct Hrun as (stats & t1 & Hrun & dev & Hdev).
  exists t1. split; [|vm_compute; reflexivity].
  apply (proj2 (proj2 (proj2 (proj2 (proj2
           (bad_status_never_blocks rejecting_world rejecting_world_responsive)))))
           1%nat sample_env sample_renderer sample_date [] stats t1 (lit "report")
           (lit "# report"));
    try reflexivity.
  - exact Hrun.
  - intros Hempty. rewrite Hempty, lookup_empty in Hdev. discriminate.
Defined.

(** C6, as stated, fails: with the three channels configured and no
    endpoint reachable, the first request raises, the other two channels
    are never tried and the exit code is 1. *)
Lemma unreachable_channel_blocks_the_rest :
  exists t,
    main unreachable_world 1 sample_env sample_renderer sample_date [] = Some (Ok 1%Z, t) /\
    posted t = [(lit "https://wecom.example.com/hook", WecomMarkdown (lit "# report"))] /\
    length (expected_posts sample_env (lit "# report")) = 3%nat.
Proof.
  eexists. split; [vm_compute; reflexivity|]. split; vm_compute; reflexivity.
Qed.

Lemma analyze_failure_contributes_zero_witness :
  analyze_commit_diff failing_diff_world sample_client (project_id sample_project)
    (commit_id (sample_commit "Dev" (Some 3%Z))) []
  = Some (Ok 0%Z,
          [] ++ [Get sample_client
                   (CommitDiff (project_id sample_project)
                      (commit_id (sample_commit "Dev" (Some 3%Z)))) None;
                 Print (AnalyzeWarning (commit_id (sample_commit "Dev" (Some 3%Z)))
                          (HTTPError 500))]) /\
  analyze_commit_diff null_diff_world sample_client (project_id sample_project)
    (commit_id (sample_commit "Dev" (Some 3%Z))) []
  = Some (Ok 0%Z,
          [] ++ [Get sample_client
                   (CommitDiff (project_id sample_project)
                      (commit_id (sample_commit "Dev" (Some 3%Z)))) None;
                 Print (AnalyzeWarning (commit_id (sample_commit "Dev" (Some 3%Z)))
                          AttributeError)]).
Proof.
  split.
  - apply (analyze_failure_contributes_zero failing_diff_world sample_client sample_project
             (sample_commit "Dev" (Some 3%Z)) (HTTPError 500) eq_refl ∅ []).
  - apply (analyze_failure_contributes_zero null_diff_world sample_client sample_project
             (sample_commit "Dev" (Some 3%Z)) AttributeError eq_refl ∅ []).
Defined.

(** C3. When the diff of a commit is fetched and the paths and diff texts
    of its entries are strings, the analysis returns the number of counted
    lines over the entries whose new path ends with ".java", a line being
    counted exactly when it begins with "+", does not begin with "+++",
    and is effective once the "+" is stripped; the other entries add
    nothing, and without a Java entry the count is 0. *)
Theorem analyze_commit_diff_counts :
  forall world client project sha diffs t,
    commit_diff world client project sha = Ok diffs ->
    forallb typed diffs = true ->
    analyze_commit_diff world client project sha t
    = Some (Ok (counted_additions diffs), t ++ [Get client (CommitDiff project sha) None]) /\
    counted_additions diffs = counted_additions (List.filter is_java diffs) /\
    (List.filter is_java diffs = [] -> counted_additions diffs = 0%Z) /\
    (forall line,
        counted_line line = true <->
        exists rest, line = 0x2b%N :: rest /\ startswith line (lit "+++") = false /\
                     is_effective_line rest = true).
Proof.
  intros world client project sha diffs t Hdiffs Htyped. split; [|split; [|split]].
  - rewrite analyze_commit_diff_run. unfold analysed, analysis_events, analysis.
    rewrite Hdiffs. cbn [result_bind]. now rewrite analyze_diffs_counted.
  - unfold counted_additions. f_equal. f_equal. clear Hdiffs Htyped.
    induction diffs as [|d diffs IH]; [reflexivity|]. cbn [List.filter].
    destruct (is_java d) eqn:Hd; [|exact IH].
    cbn [List.filter]. rewrite Hd. now f_equal.
  - intros Hnone. unfold counted_additions. now rewrite Hnone.
  - intros line. unfold counted_line. destruct line as [|c rest].
    + split; [discriminate|]. intros (rest & H & _). discriminate.
    + rewrite !andb_true_iff, negb_true_iff, N.eqb_eq. split.
      * intros [[-> Hh] He]. now exists rest.
      * intros (rest' & H & Hh & He). injection H as -> ->. auto.
Qed.

Lemma analyze_commit_diff_counts_witness :
  analyze_commit_diff consistent_world sample_client 7 (lit "0123456789abcdef") []
  = Some (Ok (counted_additions sample_diffs),
          [] ++ [Get sample_client (CommitDiff 7 (lit "0123456789abcdef")) None]).
Proof.
  apply (analyze_commit_diff_counts consistent_world sample_client 7%Z
           (lit "0123456789abcdef") sample_diffs [] eq_refl eq_refl).
Defined.

Lemma is_effective_line_excluded_witness :
  is_effective_line (lit "    ") = false /\ is_effective_line (lit "int x = 1;") = true.
Proof.
  split.
  - apply (is_effective_line_excluded (lit "    ")). reflexivity.
  - vm_compute. reflexivity.
Defined.

(** ** The split of long messages *)

Lemma split_newline_nonempty s : split_newline s <> [].
Proof.
  destruct s as [|c s]; cbn [split_newline]; [discriminate|].
  destruct (N.eqb c NEWLINE); [discriminate|]. destruct (split_newline s); discriminate.
Qed.

Lemma join_newline_cons p ps :
  ps <> [] -> join_newline (p :: ps) = p ++ NEWLINE :: join_newline ps.
Proof. destruct ps; [congruence|reflexivity]. Qed.

Lemma join_split_newline s : join_newline (split_newline s) = s.
Proof.
  induction s as [|c s IH]; [reflexivity|]. cbn [split_newline].
  destruct (N.eqb c NEWLINE) eqn:Hc.
  - apply N.eqb_eq in Hc as ->.
    rewrite join_newline_cons by apply split_newline_nonempty. now rewrite IH.
  - destruct (split_newline s) as [|l ls] eqn:Hs; [now apply split_newline_nonempty in Hs|].
    destruct ls as [|l' ls].
    + cbn in *. now rewrite IH.
    + rewrite join_newline_cons by discriminate.
      rewrite join_newline_cons in IH by discriminate.
      rewrite <- app_comm_cons. now f_equal.
Qed.

Lemma join_newline_app a b :
  a <> [] -> b <> [] ->
  join_newline (a ++ b) = join_newline a ++ NEWLINE :: join_newline b.
Proof.
  intros Ha Hb. induction a as [|p a IH]; [congruence|].
  destruct a as [|p' a].
  - cbn [app]. now rewrite join_newline_cons.
  - rewrite <- app_comm_cons, join_newline_cons by discriminate.
    rewrite IH by discriminate. rewrite (join_newline_cons p) by discriminate.
    now rewrite <- app_assoc.
Qed.

Lemma join_newline_concat groups :
  Forall (fun g => g <> []) groups ->
  join_newline (List.map join_newline groups) = join_newline (concat groups).
Proof.
  induction groups as [|g groups IH]; intros Hall; [reflexivity|].
  apply Forall_cons_1 in Hall as [Hg Hall]. cbn [List.map concat].
  destruct groups as [|g' groups].
  - cbn. now rewrite app_nil_r.
  - rewrite join_newline_cons by discriminate. rewrite IH by exact Hall.
    rewrite join_newline_app; [reflexivity|exact Hg|].
    apply Forall_cons_1 in Hall as [Hg' _]. cbn [concat].
    destruct g'; [congruence|discriminate].
Qed.

Lemma is_empty_false {A} (l : list A) : l <> [] -> is_empty l = false.
Proof. destruct l; [congruence|reflexivity]. Qed.

Lemma existsb_snoc {A} (f : A -> bool) l x : existsb f (l ++ [x]) = existsb f l || f x.
Proof. rewrite existsb_app. cbn. now rewrite orb_false_r. Qed.

(** A group that opens with a blank line keeps doing so. *)
Lemma group_step_keeps_blank groups open line :
  existsb opens_blank (groups ++ [open]) = true ->
  existsb opens_blank (fst (group_step (groups, open) line)
                       ++ [snd (group_step (groups, open) line)]) = true.
Proof.
  rewrite existsb_snoc. intros Hblank. unfold group_step.
  destruct open as [|o open]; cbn [is_empty].
  - cbn [fst snd]. rewrite existsb_snoc. cbn [opens_blank] in Hblank.
    rewrite orb_false_r in Hblank. now rewrite Hblank.
  - destruct (max_len <? _)%nat; cbn [fst snd].
    + rewrite !existsb_snoc. rewrite Hblank. reflexivity.
    + rewrite existsb_snoc. rewrite <- Hblank. f_equal.
Qed.

Lemma fold_group_step_keeps_blank lines : forall groups open,
  existsb opens_blank (groups ++ [open]) = true ->
  existsb opens_blank (fst (fold_left group_step lines (groups, open))
                       ++ [snd (fold_left group_step lines (groups, open))]) = true.
Proof.
  induction lines as [|l lines IH]; intros groups open Hblank; cbn [fold_left];
    [exact Hblank|].
  destruct (group_step (groups, open) l) as [groups1 open1] eqn:Hstep.
  apply IH. pose proof (group_step_keeps_blank groups open l Hblank) as H.
  now rewrite Hstep in H.
Qed.

Lemma join_newline_empty g : opens_blank g = false -> g <> [] -> join_newline g <> [].
Proof.
  destruct g as [|l g]; [congruence|]. intros Hblank _.
  destruct l as [|c l]; [discriminate|]. destruct g; discriminate.
Qed.

(** While no group opens with a blank line, a step of the loop of
    [send_telegram] is a step of the gathering. *)
Lemma split_step_groups groups open line :
  opens_blank open = false ->
  (length line < max_len)%nat ->
  split_step (List.map join_newline groups, join_newline open) line
  = (List.map join_newline (fst (group_step (groups, open) line)),
     join_newline (snd (group_step (groups, open) line))).
Proof.
  intros Hblank Hline. unfold split_step, group_step.
  destruct open as [|o open]; cbn [is_empty].
  - cbn [join_newline length Nat.add fst snd].
    assert (Hroom : (max_len <? length line + 1)%nat = false) by (apply Nat.ltb_ge; lia).
    rewrite Hroom. reflexivity.
  - destruct (max_len <? _)%nat; cbn [fst snd].
    + now rewrite map_app.
    + rewrite is_empty_false by (now apply join_newline_empty).
      now rewrite join_newline_app by discriminate.
Qed.

Lemma group_step_invariant groups open line :
  groups_invariant groups open ->
  (length line < max_len)%nat ->
  groups_invariant (fst (group_step (groups, open) line))
    (snd (group_step (groups, open) line)) /\
  concat (fst (group_step (groups, open) line)) ++ snd (group_step (groups, open) line)
  = (concat groups ++ open) ++ [line] /\
  snd (group_step (groups, open) line) <> [].
Proof.
  intros (Hne & Hlen & Hopen) Hline. unfold group_step.
  destruct open as [|o open]; cbn [is_empty].
  - cbn [fst snd]. split; [|split; [now rewrite app_nil_r|discriminate]].
    split; [exact Hne|]. split; [exact Hlen|]. cbn. lia.
  - destruct (max_len <? _)%nat eqn:Hfull; cbn [fst snd].
    + split; [|split; [|discriminate]].
      * split; [|split].
        -- apply Forall_app. split; [exact Hne|]. now constructor.
        -- apply Forall_app. split; [exact Hlen|]. now constructor.
        -- cbn. lia.
      * rewrite concat_app. cbn [concat]. now rewrite app_nil_r, <- !app_assoc.
    + apply Nat.ltb_ge in Hfull. split; [|split].
      * split; [exact Hne|]. split; [exact Hlen|].
        rewrite join_newline_app by discriminate. rewrite length_app.
        change (join_newline [line]) with line. cbn [length]. lia.
      * now rewrite <- !app_assoc.
      * destruct open; discriminate.
Qed.

(** The loop of [send_telegram] over lines shorter than the limit gathers
    the lines into groups, as long as no group opens with a blank line. *)
Lemma split_fold_groups lines : forall groups open,
  groups_invariant groups open ->
  Forall (fun l => (length l < max_len)%nat) lines ->
  existsb opens_blank (fst (fold_left group_step lines (groups, open))
                       ++ [snd (fold_left group_step lines (groups, open))]) = false ->
  fold_left split_step lines (List.map join_newline groups, join_newline open)
  = (List.map join_newline (fst (fold_left group_step lines (groups, open))),
     join_newline (snd (fold_left group_step lines (groups, open)))) /\
  groups_invariant (fst (fold_left group_step lines (groups, open)))
    (snd (fold_left group_step lines (groups, open))) /\
  concat (fst (fold_left group_step lines (groups, open)))
    ++ snd (fold_left group_step lines (groups, open))
  = (concat groups ++ open) ++ lines /\
  (lines <> [] -> snd (fold_left group_step lines (groups, open)) <> []).
Proof.
  induction lines as [|l lines IH]; intros groups open Hinv Hlines Hgood;
    cbn [fold_left] in Hgood |- *.
  - cbn [fst snd]. rewrite app_nil_r. repeat split; try apply Hinv. congruence.
  - apply Forall_cons_1 in Hlines as [Hl Hlines].
    assert (Hopen : opens_blank open = false).
    { destruct (existsb opens_blank (groups ++ [open])) eqn:Hnow.
      - apply (fold_group_step_keeps_blank (l :: lines)) in Hnow. cbn [fold_left] in Hnow.
        congruence.
      - rewrite existsb_snoc in Hnow. now apply orb_false_elim in Hnow. }
    rewrite (split_step_groups groups open l Hopen Hl).
    destruct (group_step_invariant groups open l Hinv Hl) as (Hinv1 & Hcat1 & Hne1).
    destruct (group_step (groups, open) l) as [groups1 open1] eqn:Hstep.
    cbn [fst snd] in *.
    destruct (IH groups1 open1 Hinv1 Hlines Hgood) as (Hrun & Hinv' & Hcat & Hlast).
    split; [exact Hrun|]. split; [exact Hinv'|]. split.
    + rewrite Hcat, Hcat1, <- !app_assoc. reflexivity.
    + intros _. destruct lines as [|l' lines]; [exact Hne1|]. apply Hlast. discriminate.
Qed.

(** C7, as the code has it. A content longer than the limit, whose lines
    are all shorter than the limit and in which no blank line opens a part,
    is split into at least two parts of at most 4000 characters; the parts
    are the lines of the content gathered in consecutive groups, each
    joined by newlines, so that no part ends inside a line; and the parts
    joined by newlines are the content. Blank lines inside a part are
    kept. *)
Theorem telegram_parts_rejoin :
  forall content : str,
    (max_len < length content)%nat ->
    Forall (fun line => (length line < max_len)%nat) (split_newline content) ->
    blank_opens_part content = false ->
    (2 <= length (telegram_parts content))%nat /\
    Forall (fun part => (length part <= max_len)%nat) (telegram_parts content) /\
    telegram_parts content = List.map join_newline (line_groups (split_newline content)) /\
    Forall (fun g => g <> []) (line_groups (split_newline content)) /\
    concat (line_groups (split_newline content)) = split_newline content /\
    join_newline (telegram_parts content) = content.
Proof.
  intros content Hlong Hlines Hgood.
  unfold blank_opens_part, line_groups in *.
  assert (Hinit : groups_invariant [] []) by (repeat split; try constructor; cbn; lia).
  pose proof (split_fold_groups (split_newline content) [] [] Hinit Hlines) as Hfold.
  destruct (fold_left group_step (split_newline content) ([], [])) as [groups open] eqn:Hrun.
  cbn [fst snd] in Hfold.
  assert (Hopen : open <> [] -> existsb opens_blank (groups ++ [open]) = false).
  { intros Hne. now rewrite (is_empty_false open Hne) in Hgood. }
  destruct open as [|o open].
  - exfalso. cbn [is_empty] in Hgood.
    assert (Hall : existsb opens_blank (groups ++ [[]]) = false)
      by (rewrite existsb_snoc, Hgood; reflexivity).
    destruct (Hfold Hall) as (_ & _ & _ & Hlast).
    exact (Hlast (split_newline_nonempty content) eq_refl).
  - specialize (Hopen ltac:(discriminate)).
    destruct (Hfold Hopen) as (Hsplit & (Hne & Hlen & Hlast) & Hcat & _).
    cbn [is_empty]. rewrite existsb_snoc in Hopen. apply orb_false_elim in Hopen as [_ Ho].
    assert (Hparts : telegram_parts content = List.map join_newline (groups ++ [o :: open])).
    { unfold telegram_parts. apply Nat.leb_gt in Hlong. rewrite Hlong.
      change (List.map join_newline [], join_newline []) with (@nil str, @nil char) in Hsplit.
      rewrite Hsplit.
      rewrite is_empty_false by (apply join_newline_empty; [exact Ho|discriminate]).
      now rewrite map_app. }
    assert (Hall : Forall (fun g => g <> []) (groups ++ [o :: open]))
      by (apply Forall_app; split; [exact Hne|now constructor]).
    assert (Hconcat : concat (groups ++ [o :: open]) = split_newline content)
      by (rewrite concat_app; cbn [concat]; now rewrite app_nil_r, Hcat).
    assert (Hjoin : join_newline (telegram_parts content) = content)
      by (now rewrite Hparts, join_newline_concat, Hconcat, join_split_newline).
    assert (Hbound : Forall (fun part => (length part <= max_len)%nat) (telegram_parts content)).
    { rewrite Hparts, map_app. apply Forall_app. split.
      - apply Forall_map. exact Hlen.
      - constructor; [exact Hlast|constructor]. }
    split; [|split; [exact Hbound|split; [exact Hparts|split; [exact Hall|split;
      [exact Hconcat|exact Hjoin]]]]].
    destruct (telegram_parts content) as [|p [|p' ps]] eqn:Hp; cbn [length]; [| |lia].
    + cbn in Hjoin. subst content. cbn in Hlong. lia.
    + cbn in Hjoin. subst p. apply Forall_cons_1 in Hbound as [Hb _]. lia.
Qed.

Lemma telegram_parts_rejoin_witness :
  (2 <= length (telegram_parts blank_inside_content))%nat /\
  Forall (fun part => (length part <= max_len)%nat) (telegram_parts blank_inside_content) /\
  telegram_parts blank_inside_content
  = List.map join_newline (line_groups (split_newline blank_inside_content)) /\
  Forall (fun g => g <> []) (line_groups (split_newline blank_inside_content)) /\
  concat (line_groups (split_newline blank_inside_content))
  = split_newline blank_inside_content /\
  join_newline (telegram_parts blank_inside_content) = blank_inside_content.
Proof.
  apply (telegram_parts_rejoin blank_inside_content).
  - apply Nat.ltb_lt. vm_compute. reflexivity.
  - apply (bool_decide_unpack _). vm_compute. exact I.
  - vm_compute. reflexivity.
Defined.

(** C7, as stated, fails on a report whose blank line falls on a part
    boundary: the content has 4003 characters in lines shorter than the
    limit, the split makes two parts, and joining them with a newline gives
    4002 characters: the blank line, which opens the second part, is
    lost. *)
Theorem telegram_parts_lose_blank_line :
  length blank_boundary_content = 4003%nat /\
  forallb (fun line => (length line <? max_len)%nat) (split_newline blank_boundary_content)
    = true /\
  telegram_parts blank_boundary_content
    = [repeat 0x61%N 1999 ++ NEWLINE :: repeat 0x61%N 2000; lit "b"] /\
  length (join_newline (telegram_parts blank_boundary_content)) = 4002%nat /\
  blank_opens_part blank_boundary_content = true /\
  join_newline (telegram_parts blank_boundary_content) <> blank_boundary_content.
Proof.
  split; [vm_compute; reflexivity|]. split; [vm_compute; reflexivity|].
  split; [vm_compute; reflexivity|]. split; [vm_compute; reflexivity|].
  split; [vm_compute; reflexivity|].
  intros H. apply (f_equal (@length _)) in H. vm_compute in H. discriminate.
Qed.

Lemma effective_ratio_guarded_witness :
  DeveloperStats.effective_ratio (DeveloperStats.new (lit "Dev") (lit "dev@example.com"))
  = Ok 0%Q.
Proof.
  apply (proj1 (effective_ratio_guarded
                  (DeveloperStats.new (lit "Dev") (lit "dev@example.com")))).
  reflexivity.
Defined.

(** * Further properties *)

(** ** The paginated listing *)

Lemma get_all_loop_raises {A} (ev : nat -> nat -> event) (listing : nat -> nat -> result (list A)) :
  forall k fuel page results t e,
    (forall i, (i < k)%nat ->
       exists data, listing 100%nat (page + i)%nat = Ok data /\ (100 <= length data)%nat) ->
    listing 100%nat (page + k)%nat = Raise e ->
    (k < fuel)%nat ->
    _get_all_loop fuel (fun per_page p => emit (ev per_page p) ;; lift (listing per_page p))
      page results t
    = Some (Raise e, t ++ List.map (ev 100%nat) (seq page (S k))).
Proof.
  induction k as [|k IH]; intros fuel page results t e Hfull Hlast Hfuel;
    (destruct fuel as [|fuel]; [lia|]); cbn [_get_all_loop]; unfold bind at 1.
  - rewrite Nat.add_0_r in Hlast. unfold bind, emit, lift. rewrite Hlast. reflexivity.
  - destruct (Hfull 0%nat ltac:(lia)) as (data & Hdata & Hlen).
    rewrite Nat.add_0_r in Hdata. unfold bind at 1, emit, lift. rewrite Hdata.
    destruct data as [|x data]; [cbn in Hlen; lia|]. cbn [is_empty].
    assert (Hge : (length (x :: data) <? 100)%nat = false) by (apply Nat.ltb_ge; exact Hlen).
    rewrite Hge.
    etransitivity;
      [apply (IH fuel (page + 1)%nat (results ++ x :: data) (t ++ [ev 100%nat page]) e)|].
    4: { rewrite Nat.add_1_r.
         change (seq page (S (S k))) with (page :: seq (S page) (S k)).
         cbn [List.map]. now rewrite <- app_assoc. }
    + intros i Hi. destruct (Hfull (S i) ltac:(lia)) as (d & Hd & Hl).
      exists d. split; [|exact Hl]. rewrite <- Hd. f_equal. lia.
    + rewrite <- Hlast. f_equal. lia.
    + lia.
Qed.

Lemma get_all_loop_endless {A} (ev : nat -> nat -> event) (listing : nat -> nat -> result (list A)) :
  (forall page, exists data, listing 100%nat page = Ok data /\ (100 <= length data)%nat) ->
  forall fuel page results t,
    _get_all_loop fuel (fun per_page p => emit (ev per_page p) ;; lift (listing per_page p))
      page results t = None.
Proof.
  intros Hfull. induction fuel as [|fuel IH]; intros page results t; cbn [_get_all_loop];
    [reflexivity|].
  destruct (Hfull page) as (data & Hdata & Hlen).
  unfold bind at 1. unfold bind at 1, emit, lift. rewrite Hdata.
  destruct data as [|x data]; [cbn in Hlen; lia|]. cbn [is_empty].
  assert (Hge : (length (x :: data) <? 100)%nat = false) by (apply Nat.ltb_ge; exact Hlen).
  rewrite Hge. apply IH.
Qed.

(** X1. When a page of a listing fails after full pages, the listing
    raises the exception of that page: the items of the pages before are
    not returned, and no page after it is requested. This holds for the
    commits of a project and, whatever the prefixes, for the projects of a
    group. *)
Theorem listing_error_propagates :
  forall world client fuel k e t,
    (1 <= k <= fuel)%nat ->
    (forall project since until,
        (forall i, (1 <= i < k)%nat ->
           exists data, commits_page world client project since until 100%nat i = Ok data /\
                        (100 <= length data)%nat) ->
        commits_page world client project since until 100%nat k = Raise e ->
        get_project_commits world fuel client project since until t
        = Some (Raise e, t ++ List.map (commits_request client project since until) (seq 1 k))) /\
    (forall prefixes group,
        (forall i, (1 <= i < k)%nat ->
           exists data, projects_page world client group 100%nat i = Ok data /\
                        (100 <= length data)%nat) ->
        projects_page world client group 100%nat k = Raise e ->
        get_group_projects world fuel prefixes client group t
        = Some (Raise e, t ++ List.map (projects_request client group) (seq 1 k))).
Proof.
  intros world client fuel k e t Hk. destruct k as [|k]; [lia|]. split.
  - intros project since until Hfull Hlast.
    unfold get_project_commits, _get_all.
    apply (get_all_loop_raises
             (fun per_page page =>
                Get client (ProjectCommits project since until) (Some (per_page, page)))
             (commits_page world client project since until) k fuel 1%nat [] t e).
    + intros i Hi. apply Hfull. lia.
    + exact Hlast.
    + lia.
  - intros prefixes group Hfull Hlast.
    assert (Hrun : _get_all_loop fuel (_get_projects world client group) 1%nat [] t
                   = Some (Raise e,
                           t ++ List.map (projects_request client group) (seq 1 (S k)))).
    { apply (get_all_loop_raises
               (fun per_page page => Get client (GroupProjects group) (Some (per_page, page)))
               (projects_page world client group) k fuel 1%nat [] t e);
        [|exact Hlast|lia].
      intros i Hi. apply Hfull. lia. }
    unfold get_group_projects, _get_all, bind. now rewrite Hrun.
Qed.

Lemma listing_error_propagates_witness :
  get_project_commits broken_second_page_world 5 sample_client 7 [] [] []
  = Some (Raise (HTTPError 502),
          [] ++ List.map (commits_request sample_client 7 [] []) (seq 1 2)).
Proof.
  apply (proj1 (listing_error_propagates broken_second_page_world sample_client 5 2
                  (HTTPError 502) [] ltac:(lia)) 7%Z [] []).
  - intros i Hi. assert (i = 1)%nat as -> by lia. eexists. split; [reflexivity|].
    rewrite repeat_length. lia.
  - reflexivity.
Defined.

(** X2. The listing has no bound of its own on the number of pages: while
    every page has at least 100 items it requests the next one, so on an
    API whose pages are all full it returns nothing, however long it
    runs. *)
Theorem listing_of_full_pages_never_ends :
  forall world client project since until,
    (forall page, exists data,
        commits_page world client project since until 100%nat page = Ok data /\
        (100 <= length data)%nat) ->
    forall fuel t, get_project_commits world fuel client project since until t = None.
Proof.
  intros world client project since until Hfull fuel t.
  unfold get_project_commits, _get_all.
  apply (get_all_loop_endless
           (fun per_page page =>
              Get client (ProjectCommits project since until) (Some (per_page, page)))
           (commits_page world client project since until) Hfull).
Qed.

Lemma listing_of_full_pages_never_ends_witness :
  get_project_commits endless_world 50 sample_client 7 [] [] [] = None.
Proof.
  apply (listing_of_full_pages_never_ends endless_world sample_client 7 [] []).
  intros page. eexists. split; [reflexivity|]. rewrite repeat_length. lia.
Defined.

(** ** The client and the configuration *)

Lemma rev_repeat_same {A} (x : A) k : rev (repeat x k) = repeat x k.
Proof.
  induction k as [|k IH]; [reflexivity|]. cbn [repeat rev]. rewrite IH.
  symmetry. apply repeat_cons.
Qed.

Lemma lstrip_slash_spec l :
  exists k, l = repeat 0x2f%N k ++ lstrip_slash l /\ head (lstrip_slash l) <> Some 0x2f%N.
Proof.
  induction l as [|c l (k & Hl & Hh)]; cbn [lstrip_slash].
  - exists 0%nat. split; [reflexivity|discriminate].
  - destruct (N.eqb c 0x2f) eqn:Hc.
    + apply N.eqb_eq in Hc as ->. exists (S k). split; [|exact Hh].
      cbn [repeat app]. now f_equal.
    + exists 0%nat. split; [reflexivity|]. cbn. intros [= ->]. discriminate.
Qed.

Lemma lstrip_slash_fixed l : head l <> Some 0x2f%N -> lstrip_slash l = l.
Proof.
  destruct l as [|c l]; [reflexivity|]. cbn [lstrip_slash head]. intros Hh.
  destruct (N.eqb c 0x2f) eqn:Hc; [|reflexivity].
  apply N.eqb_eq in Hc as ->. congruence.
Qed.

(** X3. The client keeps the base URL without its trailing slashes: the
    URL given is the kept one followed by slashes only, the kept one does
    not end with a slash, and building a client from it changes nothing. *)
Theorem client_url_without_trailing_slash :
  forall u tok,
    (exists k, u = url (new_client u tok) ++ repeat 0x2f%N k) /\
    endswith (url (new_client u tok)) (lit "/") = false /\
    url (new_client (url (new_client u tok)) tok) = url (new_client u tok) /\
    token (new_client u tok) = tok.
Proof.
  intros u tok. cbn [new_client url token]. unfold rstrip_slash.
  destruct (lstrip_slash_spec (rev u)) as (k & Hrev & Hhead).
  split; [|split; [|split; [|reflexivity]]].
  - exists k. rewrite <- (rev_involutive u), Hrev at 1.
    now rewrite rev_app_distr, rev_repeat_same.
  - unfold endswith. rewrite rev_involutive.
    destruct (lstrip_slash (rev u)) as [|c l]; [reflexivity|].
    change (startswith (c :: l) (rev (lit "/"))) with (N.eqb 0x2f c && true).
    rewrite andb_true_r. apply N.eqb_neq. intros <-. now apply Hhead.
  - rewrite rev_involutive. now rewrite lstrip_slash_fixed.
Qed.

Lemma lstrip_spec s :
  exists pre, s = pre ++ lstrip s /\ forallb is_space pre = true /\
              forall c, head (lstrip s) = Some c -> is_space c = false.
Proof.
  induction s as [|c s (pre & Hs & Hpre & Hh)]; cbn [lstrip].
  - exists []. repeat split. discriminate.
  - destruct (is_space c) eqn:Hc.
    + exists (c :: pre). cbn [app forallb]. rewrite Hc, Hpre. repeat split; [now f_equal|exact Hh].
    + exists []. repeat split. cbn. now intros c' [= <-].
Qed.

Lemma head_rev_last {A} (l : list A) : head (rev l) = last l.
Proof.
  induction l as [|x l IH] using rev_ind; [reflexivity|].
  rewrite rev_app_distr, last_snoc. reflexivity.
Qed.

Lemma last_app_nonempty {A} (a b : list A) : b <> [] -> last (a ++ b) = last b.
Proof.
  intros Hb. destruct b as [|x b _] using rev_ind; [congruence|].
  now rewrite app_assoc, !last_snoc.
Qed.

Lemma strip_ends s :
  (forall c, head (strip s) = Some c -> is_space c = false) /\
  (forall c, last (strip s) = Some c -> is_space c = false) /\
  (forall c, In c (strip s) -> In c s).
Proof.
  unfold strip.
  destruct (lstrip_spec s) as (pre & Hs & _ & Hhead).
  destruct (lstrip_spec (rev (lstrip s))) as (post & Hrev & _ & Hlast).
  set (a := lstrip s) in *. set (b := lstrip (rev a)) in *.
  assert (Ha : a = rev b ++ rev post).
  { rewrite <- (rev_involutive a), Hrev. apply rev_app_distr. }
  split; [|split].
  - intros c Hc. apply Hhead. rewrite Ha.
    destruct (rev b) as [|x l]; [discriminate|]. exact Hc.
  - intros c Hc. apply Hlast. rewrite <- head_rev_last, rev_involutive in Hc. exact Hc.
  - intros c Hc. rewrite Hs, Ha. apply in_or_app. right. apply in_or_app. now left.
Qed.

Lemma split_on_without_separator sep s :
  Forall (fun l => ~ In sep l) (split_on sep s).
Proof.
  induction s as [|c s IH]; cbn [split_on].
  - constructor; [intros []|constructor].
  - destruct (N.eqb c sep) eqn:Hc.
    + constructor; [intros []|exact IH].
    + apply N.eqb_neq in Hc. destruct (split_on sep s) as [|l ls].
      * constructor; [|constructor]. intros [H|[]]. congruence.
      * apply Forall_cons_1 in IH as [Hl Hls]. constructor; [|exact Hls].
        intros [H|H]; [congruence|now apply Hl].
Qed.

(** X4. Every project prefix read from the configuration is non-empty,
    holds no comma, and neither begins nor ends with white space: a stray
    comma or a blank field never yields the empty prefix, which every
    project name would start with. *)
Theorem project_prefixes_are_stripped :
  forall _prefix_env p,
    In p (parse_project_prefixes _prefix_env) ->
    p <> [] /\
    ~ In COMMA p /\
    (forall c, head p = Some c -> is_space c = false) /\
    (forall c, last p = Some c -> is_space c = false).
Proof.
  intros env p Hp. unfold parse_project_prefixes in Hp.
  destruct (is_empty env); [destruct Hp|].
  apply filter_In in Hp as [Hp Hne]. apply in_map_iff in Hp as (field & <- & Hfield).
  destruct (strip_ends field) as (Hhead & Hlast & Hsub).
  split; [|split; [|split]].
  - destruct (strip field); [discriminate|discriminate].
  - intros Hc. apply Hsub in Hc.
    pose proof (split_on_without_separator COMMA env) as Hall.
    rewrite List.Forall_forall in Hall. exact (Hall field Hfield Hc).
  - exact Hhead.
  - exact Hlast.
Qed.

Lemma project_prefixes_are_stripped_witness :
  lit "app-" <> [] /\
  ~ In COMMA (lit "app-") /\
  (forall c, head (lit "app-") = Some c -> is_space c = false) /\
  (forall c, last (lit "app-") = Some c -> is_space c = false).
Proof.
  apply (project_prefixes_are_stripped (lit " app-, ,service- ,") (lit "app-")).
  vm_compute. left. reflexivity.
Defined.

(** ** The aggregates of a pass *)

Lemma insert_processed_lookup world client developers pc key :
  insert_processed world client developers pc !! key =
  if decide (commit_email (snd pc) = key)
  then Some (apply_commit world client
               (default (DeveloperStats.new (commit_name (snd pc)) key) (developers !! key)) pc)
  else developers !! key.
Proof.
  unfold insert_processed, insert_analysed, record_commit.
  destruct (decide (commit_email (snd pc) = key)) as [<-|Hne].
  - now rewrite lookup_insert_eq.
  - now rewrite lookup_insert_ne.
Qed.

Lemma processed_lookup world client processed : forall developers key,
  fold_left (insert_processed world client) processed developers !! key =
  match commits_of key processed with
  | [] => developers !! key
  | pc :: rest =>
      Some (fold_left (apply_commit world client) (pc :: rest)
              (default (DeveloperStats.new (commit_name (snd pc)) key) (developers !! key)))
  end.
Proof.
  induction processed as [|pc processed IH]; intros developers key; [reflexivity|].
  cbn [fold_left]. rewrite IH, insert_processed_lookup. unfold commits_of.
  cbn [List.filter]. fold (commits_of key processed).
  destruct (decide (commit_email (snd pc) = key)) as [Heq|Hne].
  - rewrite (bool_decide_eq_true_2 _ Heq). now destruct (commits_of key processed).
  - rewrite (bool_decide_eq_false_2 _ Hne). reflexivity.
Qed.

Lemma apply_commits_fields world client pcs : forall base,
  let dev := fold_left (apply_commit world client) pcs base in
  DeveloperStats.name dev = DeveloperStats.name base /\
  DeveloperStats.email dev = DeveloperStats.email base /\
  DeveloperStats.commits dev
    = DeveloperStats.commits base ++ List.map (commit_record world client) pcs /\
  DeveloperStats.total_additions dev
    = (DeveloperStats.total_additions base
       + sum_Z (List.map (fun pc => reported_additions (snd pc)) pcs))%Z /\
  DeveloperStats.total_deletions dev
    = (DeveloperStats.total_deletions base
       + sum_Z (List.map (fun pc => reported_deletions (snd pc)) pcs))%Z /\
  DeveloperStats.effective_additions dev
    = (DeveloperStats.effective_additions base
       + sum_Z (List.map (fun pc => analysed world client (project_id (fst pc))
                                      (commit_id (snd pc))) pcs))%Z /\
  DeveloperStats.files_changed dev = DeveloperStats.files_changed base /\
  DeveloperStats.projects dev
    = DeveloperStats.projects base ∪ list_to_set (List.map (fun pc => project_name (fst pc)) pcs).
Proof.
  induction pcs as [|pc pcs IH]; intros base; cbn [fold_left List.map].
  - cbn. rewrite app_nil_r, !Z.add_0_r. repeat split. now rewrite (right_id_L ∅ (∪)).
  - destruct (IH (apply_commit world client base pc)) as (H1 & H2 & H3 & H4 & H5 & H6 & H7 & H8).
    cbn zeta. rewrite H1, H2, H3, H4, H5, H6, H7, H8. cbn [apply_commit
      DeveloperStats.name DeveloperStats.email DeveloperStats.commits
      DeveloperStats.total_additions DeveloperStats.total_deletions
      DeveloperStats.effective_additions DeveloperStats.files_changed DeveloperStats.projects
      sum_Z fold_right list_to_set].
    repeat split; try (unfold sum_Z; lia).
    + now rewrite <- app_assoc.
    + rewrite (comm_L (∪) {[ project_name (fst pc) ]}). now rewrite (assoc_L (∪)).
Qed.

(** X5. When the listings of the API end, the aggregate of an email holds
    exactly the commits of that email among those the API lists, in the
    order of the listings, one record for each; it carries that email; and
    an email without a listed commit has no aggregate. *)
Theorem aggregate_holds_its_commits :
  forall world fuel prefixes group client date projects commits_in t,
    api_lists world fuel prefixes group client date projects commits_in ->
    exists developers t',
      collect_stats world fuel prefixes group client date t = Some (Ok developers, t') /\
      forall key,
        match developers !! key with
        | None =>
            commits_of key (in_listing_order (selected prefixes projects) commits_in) = []
        | Some dev =>
            commits_of key (in_listing_order (selected prefixes projects) commits_in) <> [] /\
            DeveloperStats.email dev = key /\
            DeveloperStats.commits dev
              = List.map (commit_record world client)
                  (commits_of key (in_listing_order (selected prefixes projects) commits_in))
        end.
Proof.
  intros world fuel prefixes group client date projects commits_in t Hlists.
  destruct (collect_stats_listed _ _ _ _ _ _ _ _ t Hlists) as (t' & Hrun).
  eexists _, t'. split; [exact Hrun|].
  intros key. rewrite processed_lookup, lookup_empty.
  destruct (commits_of key _) as [|pc rest]; [reflexivity|].
  split; [discriminate|].
  destruct (apply_commits_fields world client (pc :: rest)
              (DeveloperStats.new (commit_name (snd pc)) key)) as (_ & H2 & H3 & _).
  cbn zeta in H2, H3. cbn [default]. rewrite H2, H3. split; reflexivity.
Qed.

Lemma aggregate_holds_its_commits_witness :
  exists developers t',
    collect_stats renaming_world 1 [] (lit "team") sample_client sample_date []
      = Some (Ok developers, t') /\
    forall key,
      match developers !! key with
      | None =>
          commits_of key
            (in_listing_order (selected [] [sample_project])
               (fun _ => [sample_commit "Alice" (Some 3%Z); sample_commit "Alicia" (Some 3%Z)]))
          = []
      | Some dev =>
          commits_of key
            (in_listing_order (selected [] [sample_project])
               (fun _ => [sample_commit "Alice" (Some 3%Z); sample_commit "Alicia" (Some 3%Z)]))
          <> [] /\
          DeveloperStats.email dev = key /\
          DeveloperStats.commits dev
            = List.map (commit_record renaming_world sample_client)
                (commits_of key
                   (in_listing_order (selected [] [sample_project])
                      (fun _ => [sample_commit "Alice" (Some 3%Z);
                                 sample_commit "Alicia" (Some 3%Z)])))
      end.
Proof.
  apply (aggregate_holds_its_commits renaming_world 1 [] (lit "team") sample_client
           sample_date [sample_project]
           (fun _ => [sample_commit "Alice" (Some 3%Z); sample_commit "Alicia" (Some 3%Z)]) []).
  apply sample_world_lists; cbn; lia.
Defined.

Lemma collected_aggregate world fuel prefixes group client date t developers t' key dev :
  collect_stats world fuel prefixes group client date t = Some (Ok developers, t') ->
  developers !! key = Some dev ->
  exists processed pc rest,
    Forall (fun pc => served world client (project_id (fst pc)) (snd pc)) processed /\
    commits_of key processed = pc :: rest /\
    dev = fold_left (apply_commit world client) (pc :: rest)
            (DeveloperStats.new (commit_name (snd pc)) key).
Proof.
  intros Hrun Hdev. apply collect_stats_processed in Hrun as (processed & Hserved & ->).
  rewrite processed_lookup, lookup_empty in Hdev.
  destruct (commits_of key processed) as [|pc rest] eqn:Hof; [discriminate|].
  injection Hdev as <-. now exists processed, pc, rest.
Qed.

Lemma sum_Z_map_map {A B} (f : A -> B) (g : B -> Z) l :
  sum_Z (List.map g (List.map f l)) = sum_Z (List.map (fun x => g (f x)) l).
Proof. now rewrite map_map. Qed.

(** X6. After a collection pass the totals of every aggregate are the sums
    over its own commit records: additions, deletions and effective
    additions; the aggregate has at least one commit; and its count of
    changed files, which nothing updates, is 0. *)
Theorem totals_are_sums_of_records :
  forall world fuel prefixes group client date t developers t',
    collect_stats world fuel prefixes group client date t = Some (Ok developers, t') ->
    forall key dev,
      developers !! key = Some dev ->
      DeveloperStats.total_additions dev
        = sum_Z (List.map CommitStats.additions (DeveloperStats.commits dev)) /\
      DeveloperStats.total_deletions dev
        = sum_Z (List.map CommitStats.deletions (DeveloperStats.commits dev)) /\
      DeveloperStats.effective_additions dev
        = sum_Z (List.map CommitStats.effective_additions (DeveloperStats.commits dev)) /\
      (1 <= DeveloperStats.commit_count dev)%Z /\
      DeveloperStats.files_changed dev = 0%Z.
Proof.
  intros world fuel prefixes group client date t developers t' Hrun key dev Hdev.
  destruct (collected_aggregate _ _ _ _ _ _ _ _ _ _ _ Hrun Hdev)
    as (processed & pc & rest & _ & _ & ->).
  destruct (apply_commits_fields world client (pc :: rest)
              (DeveloperStats.new (commit_name (snd pc)) key))
    as (_ & _ & H3 & H4 & H5 & H6 & H7 & _).
  cbn zeta in *. unfold DeveloperStats.commit_count.
  rewrite H3, H4, H5, H6, H7. cbn [DeveloperStats.new DeveloperStats.commits
    DeveloperStats.total_additions DeveloperStats.total_deletions
    DeveloperStats.effective_additions DeveloperStats.files_changed app].
  rewrite !sum_Z_map_map. cbn [commit_record CommitStats.additions CommitStats.deletions
    CommitStats.effective_additions].
  repeat split; try reflexivity.
  rewrite length_map. cbn [length]. lia.
Qed.

Lemma totals_are_sums_of_records_witness :
  exists developers t dev,
    collect_stats renaming_world 1 [] (lit "team") sample_client sample_date []
      = Some (Ok developers, t) /\
    developers !! lit "dev@example.com" = Some dev /\
    DeveloperStats.total_additions dev
      = sum_Z (List.map CommitStats.additions (DeveloperStats.commits dev)) /\
    DeveloperStats.total_deletions dev
      = sum_Z (List.map CommitStats.deletions (DeveloperStats.commits dev)) /\
    DeveloperStats.effective_additions dev
      = sum_Z (List.map CommitStats.effective_additions (DeveloperStats.commits dev)) /\
    (1 <= DeveloperStats.commit_count dev)%Z /\
    DeveloperStats.files_changed dev = 0%Z.
Proof.
  assert (Hrun : exists developers t,
             collect_stats renaming_world 1 [] (lit "team") sample_client sample_date []
               = Some (Ok developers, t) /\
             exists dev, developers !! lit "dev@example.com" = Some dev).
  { do 2 eexists. split; [vm_compute; reflexivity|]. eexists. vm_compute. reflexivity. }
  destruct Hrun as (developers & t & Hrun & dev & Hdev).
  exists developers, t, dev. split; [exact Hrun|]. split; [exact Hdev|].
  exact (totals_are_sums_of_records _ _ _ _ _ _ _ _ _ Hrun _ _ Hdev).
Defined.

Lemma commits_of_In key processed pc :
  In pc (commits_of key processed) -> In pc processed /\ commit_email (snd pc) = key.
Proof.
  unfold commits_of. intros H. apply filter_In in H as [Hin Hkey].
  split; [exact Hin|]. now apply bool_decide_eq_true_1 in Hkey.
Qed.

(** X7. Every commit record of a collected aggregate comes from a commit
    the API listed under the email of the aggregate: its sha is the first
    8 characters of the commit id, its message the first 50 characters of
    the title (empty without a title), and its count of changed files,
    which nothing fills in, is 0. *)
Theorem records_are_truncated_commits :
  forall world fuel prefixes group client date t developers t',
    collect_stats world fuel prefixes group client date t = Some (Ok developers, t') ->
    forall key dev record,
      developers !! key = Some dev ->
      In record (DeveloperStats.commits dev) ->
      exists project commit,
        served world client (project_id project) commit /\
        commit_email commit = key /\
        CommitStats.sha record = take 8 (commit_id commit) /\
        CommitStats.message record = take 50 (default [] (title commit)) /\
        (length (CommitStats.sha record) <= 8)%nat /\
        (length (CommitStats.message record) <= 50)%nat /\
        CommitStats.additions record = reported_additions commit /\
        CommitStats.deletions record = reported_deletions commit /\
        CommitStats.files_changed record = 0%Z.
Proof.
  intros world fuel prefixes group client date t developers t' Hrun key dev record Hdev Hrec.
  destruct (collected_aggregate _ _ _ _ _ _ _ _ _ _ _ Hrun Hdev)
    as (processed & pc & rest & Hserved & Hof & ->).
  destruct (apply_commits_fields world client (pc :: rest)
              (DeveloperStats.new (commit_name (snd pc)) key)) as (_ & _ & H3 & _).
  cbn zeta in H3. rewrite H3 in Hrec. cbn [DeveloperStats.new DeveloperStats.commits app] in Hrec.
  apply in_map_iff in Hrec as ([project commit] & <- & Hin).
  rewrite <- Hof in Hin. apply commits_of_In in Hin as [Hin Hkey].
  rewrite List.Forall_forall in Hserved. specialize (Hserved _ Hin).
  exists project, commit. cbn [commit_record CommitStats.sha CommitStats.message
    CommitStats.additions CommitStats.deletions CommitStats.files_changed fst snd] in *.
  repeat split; try assumption; rewrite length_take; lia.
Qed.

Lemma records_are_truncated_commits_witness :
  exists developers t dev record project commit,
    collect_stats renaming_world 1 [] (lit "team") sample_client sample_date []
      = Some (Ok developers, t) /\
    developers !! lit "dev@example.com" = Some dev /\
    In record (DeveloperStats.commits dev) /\
    served renaming_world sample_client (project_id project) commit /\
    commit_email commit = lit "dev@example.com" /\
    CommitStats.sha record = take 8 (commit_id commit) /\
    CommitStats.message record = take 50 (default [] (title commit)) /\
    (length (CommitStats.sha record) <= 8)%nat /\
    (length (CommitStats.message record) <= 50)%nat /\
    CommitStats.additions record = reported_additions commit /\
    CommitStats.deletions record = reported_deletions commit /\
    CommitStats.files_changed record = 0%Z.
Proof.
  assert (Hrun : exists developers t,
             collect_stats renaming_world 1 [] (lit "team") sample_client sample_date []
               = Some (Ok developers, t) /\
             exists dev, developers !! lit "dev@example.com" = Some dev /\
               exists record, In record (DeveloperStats.commits dev)).
  { do 2 eexists. split; [vm_compute; reflexivity|]. eexists. split; [vm_compute; reflexivity|].
    eexists. cbn. left. reflexivity. }
  destruct Hrun as (developers & t & Hrun & dev & Hdev & record & Hrec).
  destruct (records_are_truncated_commits _ _ _ _ _ _ _ _ _ Hrun _ _ _ Hdev Hrec)
    as (project & commit & H).
  exists developers, t, dev, record, project, commit.
  split; [exact Hrun|]. split; [exact Hdev|]. split; [exact Hrec|exact H].
Defined.

Lemma in_listing_order_In projects commits_in project commit :
  In (project, commit) (in_listing_order projects commits_in) <->
  In project projects /\ In commit (commits_in project).
Proof.
  unfold in_listing_order. rewrite in_flat_map. split.
  - intros (p & Hp & Hin). apply in_map_iff in Hin as (c & [= <- <-] & Hc). now split.
  - intros [Hp Hc]. exists project. split; [exact Hp|]. apply in_map_iff. now exists commit.
Qed.

(** X8. When the listings of the API end, the set of projects of an
    aggregate is the set of the names of the selected projects in which the
    API lists a commit of its email: no other project, and none of these
    missing. *)
Theorem projects_are_those_of_the_commits :
  forall world fuel prefixes group client date projects commits_in t,
    api_lists world fuel prefixes group client date projects commits_in ->
    exists developers t',
      collect_stats world fuel prefixes group client date t = Some (Ok developers, t') /\
      forall key dev,
        developers !! key = Some dev ->
        forall name,
          name ∈ DeveloperStats.projects dev <->
          exists project commit,
            In project (selected prefixes projects) /\
            In commit (commits_in project) /\
            commit_email commit = key /\
            project_name project = name.
Proof.
  intros world fuel prefixes group client date projects commits_in t Hlists.
  destruct (collect_stats_listed _ _ _ _ _ _ _ _ t Hlists) as (t' & Hrun).
  eexists _, t'. split; [exact Hrun|]. intros key dev Hdev name.
  rewrite processed_lookup, lookup_empty in Hdev.
  destruct (commits_of key _) as [|pc rest] eqn:Hof; [discriminate|].
  injection Hdev as <-.
  destruct (apply_commits_fields world client (pc :: rest)
              (DeveloperStats.new (commit_name (snd pc)) key)) as (_ & _ & _ & _ & _ & _ & _ & H8).
  cbn zeta in H8. cbn [fold_left] in H8 |- *. rewrite H8.
  cbn [DeveloperStats.new DeveloperStats.projects].
  rewrite (left_id_L ∅ (∪)), elem_of_list_to_set, <- Hof, list_elem_of_In, in_map_iff.
  split.
  - intros ([project commit] & Hname & Hin). apply commits_of_In in Hin as [Hin Hkey].
    apply in_listing_order_In in Hin as [Hp Hc]. now exists project, commit.
  - intros (project & commit & Hp & Hc & Hkey & Hname). exists (project, commit).
    split; [exact Hname|]. unfold commits_of. apply filter_In. split.
    + apply in_listing_order_In. now split.
    + now apply bool_decide_eq_true_2.
Qed.

Lemma projects_are_those_of_the_commits_witness :
  exists developers t',
    collect_stats renaming_world 1 [] (lit "team") sample_client sample_date []
      = Some (Ok developers, t') /\
    forall key dev,
      developers !! key = Some dev ->
      forall name,
        name ∈ DeveloperStats.projects dev <->
        exists project commit,
          In project (selected [] [sample_project]) /\
          In commit [sample_commit "Alice" (Some 3%Z); sample_commit "Alicia" (Some 3%Z)] /\
          commit_email commit = key /\
          project_name project = name.
Proof.
  apply (projects_are_those_of_the_commits renaming_world 1 [] (lit "team") sample_client
           sample_date [sample_project]
           (fun _ => [sample_commit "Alice" (Some 3%Z); sample_commit "Alicia" (Some 3%Z)]) []).
  apply sample_world_lists; cbn; lia.
Defined.

(** ** The runs of [main] *)

(** X9. When one of the three required variables is empty, [main] prints
    that the first of them that is empty, in the order GITLAB_URL,
    GITLAB_TOKEN, GITLAB_GROUP, is missing, and ends with exit code 1,
    before any request, file or notification. *)
Theorem missing_configuration_exits_early :
  forall world fuel env render date t,
    (is_empty (GITLAB_URL env) = true ->
     main world fuel env render date t
     = Some (Ok 1%Z, t ++ [Print (MissingVariable "GITLAB_URL")])) /\
    (is_empty (GITLAB_URL env) = false ->
     is_empty (GITLAB_TOKEN env) = true ->
     main world fuel env render date t
     = Some (Ok 1%Z, t ++ [Print (MissingVariable "GITLAB_TOKEN")])) /\
    (is_empty (GITLAB_URL env) = false ->
     is_empty (GITLAB_TOKEN env) = false ->
     is_empty (GITLAB_GROUP env) = true ->
     main world fuel env render date t
     = Some (Ok 1%Z, t ++ [Print (MissingVariable "GITLAB_GROUP")])).
Proof.
  intros world fuel env render date t. unfold main. split; [|split].
  - intros ->. reflexivity.
  - intros -> ->. reflexivity.
  - intros -> -> ->. reflexivity.
Qed.

Lemma missing_configuration_exits_early_witness :
  main consistent_world 1 tokenless_env sample_renderer sample_date []
  = Some (Ok 1%Z, [] ++ [Print (MissingVariable "GITLAB_TOKEN")]).
Proof.
  apply (proj1 (proj2 (missing_configuration_exits_early consistent_world 1 tokenless_env
                         sample_renderer sample_date [])));
    reflexivity.
Defined.

Lemma main_configured world fuel env render date t :
  configured env ->
  main world fuel env render date t =
  match main_collection world fuel env date (main_prologue t date) with
  | Some (Ok stats, t1) =>
      if bool_decide (stats = ∅) then Some (Ok 0%Z, t1 ++ [Print NoCommits])
      else
        match generate_report render stats date with
        | Raise e => Some (Ok 1%Z, t1 ++ [Print (StatsFailed e); Print (Traceback e)])
        | Ok text_report =>
            match generate_markdown_report render stats date with
            | Raise e => Some (Ok 1%Z, t1 ++ [Print (StatsFailed e); Print (Traceback e)])
            | Ok md_report =>
                let t2 := t1 ++ [Print (Report text_report);
                                 WriteFile (report_path env date) md_report] in
                match write_file world (report_path env date) md_report with
                | Raise e => Some (Ok 1%Z, t2 ++ [Print (StatsFailed e); Print (Traceback e)])
                | Ok _ =>
                    match send_notifications world env md_report
                            (t2 ++ [Print (ReportSaved (report_path env date))]) with
                    | Some (Ok _, t3) => Some (Ok 0%Z, t3)
                    | Some (Raise e, t3) =>
                        Some (Ok 1%Z, t3 ++ [Print (StatsFailed e); Print (Traceback e)])
                    | None => None
                    end
                end
            end
        end
  | Some (Raise e, t1) => Some (Ok 1%Z, t1 ++ [Print (StatsFailed e); Print (Traceback e)])
  | None => None
  end.
Proof.
  intros (Hurl & Htoken & Hgroup). unfold main. rewrite Hurl, Htoken, Hgroup.
  unfold main_collection, main_prologue.
  unfold bind at 1 2 3, print at 1 2 3, emit at 1 2 3, try_except.
  unfold bind at 1.
  destruct (collect_stats _ _ _ _ _ _ _) as [[[stats|e] t1]|]; [| |reflexivity].
  2: { unfold print, bind, emit, ret. now rewrite <- app_assoc. }
  destruct (bool_decide (stats = ∅)); [reflexivity|].
  fold (report_path env date).
  unfold bind at 1, lift at 1.
  destruct (generate_report render stats date) as [text_report|e].
  2: { unfold print, bind, emit, ret. now rewrite <- app_assoc. }
  unfold bind at 1, lift at 1.
  destruct (generate_markdown_report render stats date) as [md_report|e].
  2: { unfold print, bind, emit, ret. now rewrite <- app_assoc. }
  unfold bind at 1 2 3, print at 1, emit at 1 2, lift at 1.
  destruct (write_file world (report_path env date) md_report) as [[]|e].
  2: { unfold print, bind, emit, ret. cbn zeta. now rewrite <- !app_assoc. }
  unfold bind at 1, print at 1, emit at 1. cbn zeta. rewrite <- !app_assoc. cbn [app].
  unfold bind at 1.
  destruct (send_notifications world env md_report _) as [[[[]|e] t3]|]; [reflexivity| |reflexivity].
  unfold print, bind, emit, ret. now rewrite <- app_assoc.
Qed.

Lemma quiet_projects_run world fuel client date projects :
  (1 <= fuel)%nat ->
  (forall project, In project projects ->
     commits_page world client (project_id project) (window_start date) (window_end date)
       100%nat 1%nat = Ok []) ->
  forall t,
    for_each projects (collect_project world fuel client (window_start date) (window_end date))
      ∅ t
    = Some (Ok ∅, t ++ flat_map (quiet_project_events client date) projects).
Proof.
  intros Hfuel. induction projects as [|project projects IH]; intros Hquiet t.
  - cbn. now rewrite app_nil_r.
  - cbn [for_each flat_map]. unfold bind at 1. unfold collect_project at 1.
    unfold bind at 1, print at 1, emit at 1. unfold bind at 1.
    rewrite (get_project_commits_listing world fuel client (project_id project)
               (window_start date) (window_end date) 1 [] _
               (listing_of_one_page _ [] (Hquiet project (or_introl eq_refl)) ltac:(cbn; lia))
               Hfuel).
    unfold bind at 1, print at 1, emit at 1. cbn [for_each length seq List.map]. unfold ret at 1.
    rewrite (IH (fun p Hp => Hquiet p (or_intror Hp))).
    unfold quiet_project_events at 2. now rewrite <- !app_assoc.
Qed.

(** X11. When the listing of the projects ends and the first page of
    commits of every selected project is empty, the collection returns no
    aggregate after one request per project, and [main] prints that there
    is no commit and ends with exit code 0: no report is rendered or
    written and no notification is sent. *)
Theorem no_commit_is_success :
  forall world fuel env render date t n projects,
    configured env ->
    listing_ends
      (projects_page world (new_client (GITLAB_URL env) (GITLAB_TOKEN env)) (GITLAB_GROUP env)
         100%nat) n projects ->
    (n <= fuel)%nat ->
    (forall project,
        In project (selected (PROJECT_PREFIXES env) projects) ->
        commits_page world (new_client (GITLAB_URL env) (GITLAB_TOKEN env)) (project_id project)
          (window_start date) (window_end date) 100%nat 1%nat = Ok []) ->
    main_collection world fuel env date (main_prologue t date)
    = Some (Ok ∅,
            main_prologue t date ++
            quiet_collection_events (new_client (GITLAB_URL env) (GITLAB_TOKEN env))
              (GITLAB_GROUP env) date n (selected (PROJECT_PREFIXES env) projects)) /\
    main world fuel env render date t
    = Some (Ok 0%Z,
            (main_prologue t date ++
             quiet_collection_events (new_client (GITLAB_URL env) (GITLAB_TOKEN env))
               (GITLAB_GROUP env) date n (selected (PROJECT_PREFIXES env) projects)) ++
            [Print NoCommits]).
Proof.
  intros world fuel env render date t n projects Hconf Hlist Hfuel Hquiet.
  assert (Hrun : main_collection world fuel env date (main_prologue t date)
                 = Some (Ok ∅,
                         main_prologue t date ++
                         quiet_collection_events (new_client (GITLAB_URL env) (GITLAB_TOKEN env))
                           (GITLAB_GROUP env) date n (selected (PROJECT_PREFIXES env) projects))).
  { unfold main_collection, collect_stats.
    unfold bind at 1, print at 1, emit at 1. unfold bind at 1.
    rewrite (get_group_projects_listing _ _ _ _ _ _ _ _ Hlist Hfuel).
    unfold bind at 1, print at 1, emit at 1.
    fold (window_start date). fold (window_end date).
    rewrite quiet_projects_run; [|destruct Hlist; lia|exact Hquiet].
    unfold quiet_collection_events. rewrite <- !app_assoc. reflexivity. }
  split; [exact Hrun|].
  rewrite (main_configured _ _ _ _ _ _ Hconf), Hrun.
  now rewrite bool_decide_eq_true_2.
Qed.

Lemma no_commit_is_success_witness :
  main quiet_world 1 sample_env sample_renderer sample_date []
  = Some (Ok 0%Z,
          (main_prologue [] sample_date ++
           quiet_collection_events (new_client (GITLAB_URL sample_env) (GITLAB_TOKEN sample_env))
             (GITLAB_GROUP sample_env) sample_date 1
             (selected (PROJECT_PREFIXES sample_env) [sample_project])) ++
          [Print NoCommits]).
Proof.
  apply (no_commit_is_success quiet_world 1 sample_env sample_renderer sample_date [] 1
           [sample_project]).
  - repeat split.
  - apply listing_of_one_page; [reflexivity|cbn; lia].
  - lia.
  - intros project _. reflexivity.
Defined.

(** X12. A failure of the first page of the commit listing of a project is
    not recovered: the loop over the projects raises the exception at that
    project, after one request, and the aggregates built from the
    projects before it are not returned. *)
Theorem commit_listing_failure_aborts :
  forall world fuel client since until developers project rest t e,
    (1 <= fuel)%nat ->
    commits_page world client (project_id project) since until 100%nat 1%nat = Raise e ->
    for_each (project :: rest) (collect_project world fuel client since until) developers t
    = Some (Raise e,
            t ++ [Print (AnalyzingProject (project_name project));
                  commits_request client (project_id project) since until 1]).
Proof.
  intros world fuel client since until developers project rest t e Hfuel Hpage.
  destruct fuel as [|fuel]; [lia|].
  cbn [for_each]. unfold bind at 1. unfold collect_project at 1.
  unfold bind at 1, print at 1, emit at 1. unfold bind at 1.
  unfold get_project_commits, _get_all. cbn [_get_all_loop].
  unfold bind at 1. unfold _get_commits at 1, bind, emit, lift. rewrite Hpage.
  unfold commits_request. now rewrite <- app_assoc.
Qed.

Lemma commit_listing_failure_aborts_witness :
  for_each [sample_project; sample_project]
    (collect_project refused_commits_world 1 sample_client [] []) ∅ []
  = Some (Raise (HTTPError 403),
          [] ++ [Print (AnalyzingProject (project_name sample_project));
                 commits_request sample_client (project_id sample_project) [] [] 1]).
Proof.
  apply (commit_listing_failure_aborts refused_commits_world 1 sample_client [] [] ∅
           sample_project [sample_project] [] (HTTPError 403)); [lia|reflexivity].
Defined.

(** X13. When the first page of the project listing fails, [main] prints
    the failure and ends with exit code 1 after this one request: nothing
    is analysed, written or sent. *)
Theorem project_listing_failure_exits_1 :
  forall world fuel env render date t e,
    configured env ->
    (1 <= fuel)%nat ->
    projects_page world (new_client (GITLAB_URL env) (GITLAB_TOKEN env)) (GITLAB_GROUP env)
      100%nat 1%nat = Raise e ->
    main world fuel env render date t
    = Some (Ok 1%Z,
            main_prologue t date ++
            [Print (TimeRange (window_start date) (window_end date));
             projects_request (new_client (GITLAB_URL env) (GITLAB_TOKEN env))
               (GITLAB_GROUP env) 1;
             Print (StatsFailed e); Print (Traceback e)]).
Proof.
  intros world fuel env render date t e Hconf Hfuel Hpage.
  rewrite (main_configured _ _ _ _ _ _ Hconf).
  destruct fuel as [|fuel]; [lia|].
  unfold main_collection, collect_stats. unfold bind at 1, print at 1, emit at 1.
  unfold bind at 1. unfold get_group_projects, _get_all. cbn [_get_all_loop].
  unfold bind at 1. unfold bind at 1. unfold _get_projects at 1, bind, emit, lift.
  rewrite Hpage. unfold window_start, window_end, projects_request.
  now rewrite <- !app_assoc.
Qed.

Lemma project_listing_failure_exits_1_witness :
  main offline_world 1 sample_env sample_renderer sample_date []
  = Some (Ok 1%Z,
          main_prologue [] sample_date ++
          [Print (TimeRange (window_start sample_date) (window_end sample_date));
           projects_request (new_client (GITLAB_URL sample_env) (GITLAB_TOKEN sample_env))
             (GITLAB_GROUP sample_env) 1;
           Print (StatsFailed (RequestException (lit "connection refused")));
           Print (Traceback (RequestException (lit "connection refused")))]).
Proof.
  apply (project_listing_failure_exits_1 offline_world 1 sample_env sample_renderer
           sample_date [] (RequestException (lit "connection refused")));
    [repeat split|lia|reflexivity].
Defined.

(** X14. When the report file cannot be written, [main] prints the failure
    and ends with exit code 1 without sending any notification, although
    the statistics were collected and both reports rendered. *)
Theorem write_failure_sends_nothing :
  forall world fuel env render date t stats t1 text_report md_report e,
    configured env ->
    main_collection world fuel env date (main_prologue t date) = Some (Ok stats, t1) ->
    stats <> ∅ ->
    generate_report render stats date = Ok text_report ->
    generate_markdown_report render stats date = Ok md_report ->
    write_file world (report_path env date) md_report = Raise e ->
    main world fuel env render date t
    = Some (Ok 1%Z,
            t1 ++ [Print (Report text_report); WriteFile (report_path env date) md_report;
                   Print (StatsFailed e); Print (Traceback e)]) /\
    posted [Print (Report text_report); WriteFile (report_path env date) md_report;
            Print (StatsFailed e); Print (Traceback e)] = [].
Proof.
  intros world fuel env render date t stats t1 text_report md_report e Hconf Hrun Hstats
    Htext Hmd Hwrite.
  split; [|reflexivity].
  rewrite (main_configured _ _ _ _ _ _ Hconf), Hrun, (bool_decide_eq_false_2 _ Hstats),
    Htext, Hmd. cbn zeta. rewrite Hwrite. now rewrite <- app_assoc.
Qed.

Lemma write_failure_sends_nothing_witness :
  exists t1,
    main read_only_world 1 sample_env sample_renderer sample_date []
    = Some (Ok 1%Z,
            t1 ++ [Print (Report (lit "report"));
                   WriteFile (report_path sample_env sample_date) (lit "# report");
                   Print (StatsFailed (OSError (lit "read-only file system")));
                   Print (Traceback (OSError (lit "read-only file system")))]) /\
    posted [Print (Report (lit "report"));
            WriteFile (report_path sample_env sample_date) (lit "# report");
            Print (StatsFailed (OSError (lit "read-only file system")));
            Print (Traceback (OSError (lit "read-only file system")))] = [].
Proof.
  assert (Hrun : exists stats t1,
             main_collection read_only_world 1 sample_env sample_date
               (main_prologue [] sample_date) = Some (Ok stats, t1) /\
             exists dev, stats !! lit "dev@example.com" = Some dev).
  { do 2 eexists. split; [vm_compute; reflexivity|]. eexists. vm_compute. reflexivity. }
  destruct Hrun as (stats & t1 & Hrun & dev & Hdev). exists t1.
  apply (write_failure_sends_nothing read_only_world 1 sample_env sample_renderer sample_date
           [] stats t1 (lit "report") (lit "# report") (OSError (lit "read-only file system")));
    try reflexivity.
  - repeat split.
  - exact Hrun.
  - intros Hempty. rewrite Hempty, lookup_empty in Hdev. discriminate.
Defined.

(** ** The standards and the ratio *)

(** X15. When the ratio of an aggregate is computed, the evaluation passes
    exactly when the aggregate has at least 80 effective additions, at
    least 2 commits, and either at most 50 total additions or a ratio not
    below the threshold; it reports at most three issues, and never the
    ratio issue for an aggregate of at most 50 total additions. *)
Theorem passes_iff_thresholds_met :
  forall self ratio,
    DeveloperStats.effective_ratio self = Ok ratio ->
    exists passed issues,
      DeveloperStats.meets_standard self = Ok (passed, issues) /\
      (passed = true <->
       (80 <= DeveloperStats.effective_additions self)%Z /\
       (2 <= DeveloperStats.commit_count self)%Z /\
       ((DeveloperStats.total_additions self <= 50)%Z \/
        float_lt ratio (effective_ratio_threshold SENIOR_ENGINEER_STANDARDS) = false)) /\
      (length issues <= 3)%nat /\
      ((DeveloperStats.total_additions self <= 50)%Z ->
       forall actual required, ~ In (LowEffectiveRatio actual required) issues).
Proof.
  intros self ratio Hratio. unfold DeveloperStats.meets_standard. rewrite Hratio.
  cbn [result_bind].
  change (min_effective_lines SENIOR_ENGINEER_STANDARDS) with 80%Z.
  change (min_commits SENIOR_ENGINEER_STANDARDS) with 2%Z.
  destruct (DeveloperStats.effective_additions self <? 80)%Z eqn:Hlines;
    destruct (DeveloperStats.commit_count self <? 2)%Z eqn:Hcommits;
    destruct (float_lt ratio (effective_ratio_threshold SENIOR_ENGINEER_STANDARDS)) eqn:Hlow;
    destruct (50 <? DeveloperStats.total_additions self)%Z eqn:Hfloor;
    cbn [andb app];
    (eexists _, _; split; [reflexivity|]);
    rewrite ?Z.ltb_lt, ?Z.ltb_ge in *; cbn [length Nat.eqb];
    (split; [split; [discriminate || (intros _; repeat split; auto; lia)
                    |intros (H1 & H2 & [H3|H3]); try reflexivity; try lia; discriminate]
            |split; [lia|]]);
    intros Hle actual required Hin; cbn [In] in Hin;
    repeat (destruct Hin as [Hin|Hin]; [try discriminate Hin; lia|]); exact Hin.
Qed.

Lemma passes_iff_thresholds_met_witness :
  exists ratio,
    DeveloperStats.effective_ratio passing_aggregate = Ok ratio /\
    exists passed issues,
      DeveloperStats.meets_standard passing_aggregate = Ok (passed, issues) /\
      (passed = true <->
       (80 <= DeveloperStats.effective_additions passing_aggregate)%Z /\
       (2 <= DeveloperStats.commit_count passing_aggregate)%Z /\
       ((DeveloperStats.total_additions passing_aggregate <= 50)%Z \/
        float_lt ratio (effective_ratio_threshold SENIOR_ENGINEER_STANDARDS) = false)) /\
      (length issues <= 3)%nat /\
      ((DeveloperStats.total_additions passing_aggregate <= 50)%Z ->
       forall actual required, ~ In (LowEffectiveRatio actual required) issues).
Proof.
  assert (Hratio : exists ratio, DeveloperStats.effective_ratio passing_aggregate = Ok ratio).
  { eexists. vm_compute. reflexivity. }
  destruct Hratio as (ratio & Hratio). exists ratio. split; [exact Hratio|].
  exact (passes_iff_thresholds_met passing_aggregate ratio Hratio).
Defined.

Lemma round_half_even_bounds x d b :
  (0 <= x <= d * b)%Z -> (0 < d)%Z -> (0 <= round_half_even x d <= b)%Z.
Proof.
  intros Hx Hd. unfold round_half_even.
  pose proof (Z.div_pos x d ltac:(lia) Hd) as Hq.
  pose proof (Z.mod_pos_bound x d Hd) as Hr.
  pose proof (Z.div_mod x d ltac:(lia)) as Hdm.
  assert (Hqb : (x / d <= b)%Z) by (apply Z.div_le_upper_bound; lia).
  assert (Hstrict : (x / d = b -> x mod d = 0)%Z) by nia.
  destruct (2 * (x mod d) <? d)%Z eqn:H1; [lia|]. apply Z.ltb_ge in H1.
  assert (Hlt : (x / d < b)%Z)
    by (destruct (Z.eq_dec (x / d)%Z b) as [Heq|]; [apply Hstrict in Heq|]; lia).
  destruct (d <? 2 * (x mod d))%Z; [lia|]. destruct (Z.even (x / d)); lia.
Qed.

Lemma nearest_binary64_unit n d :
  (0 < n <= d)%Z -> (0 <= nearest_binary64 n d <= 1)%Q.
Proof.
  intros Hn. unfold nearest_binary64.
  assert (He : (floor_log2_ratio n d <= 0)%Z).
  { unfold floor_log2_ratio. pose proof (Z.log2_le_mono n d ltac:(lia)).
    destruct (if (0 <=? Z.log2 n - Z.log2 d)%Z then _ else _); lia. }
  set (e := floor_log2_ratio n d) in *.
  set (ulp := (Z.max e (-1022) - 52)%Z).
  assert (Hulp : (ulp < 0)%Z) by (unfold ulp; lia).
  apply Z.ltb_lt in Hulp as Hsign. rewrite Z.leb_antisym, Hsign. cbn [negb].
  assert (Hp : (0 < 2 ^ (- ulp))%Z) by (apply Z.pow_pos_nonneg; lia).
  pose proof (round_half_even_bounds (n * 2 ^ (- ulp)) d (2 ^ (- ulp)) ltac:(nia) ltac:(lia))
    as Hm.
  rewrite Qred_correct. unfold Qle. cbn [Qnum Qden].
  rewrite Z2Pos.id by lia. lia.
Qed.

(** X16. For an aggregate whose effective additions lie between 0 and its
    total additions, the total being positive, the ratio is computed
    without error and lies between 0 and 1. *)
Theorem effective_ratio_in_unit_interval :
  forall self,
    (0 <= DeveloperStats.effective_additions self <= DeveloperStats.total_additions self)%Z ->
    (0 < DeveloperStats.total_additions self)%Z ->
    exists ratio,
      DeveloperStats.effective_ratio self = Ok ratio /\ (0 <= ratio <= 1)%Q.
Proof.
  intros self Heff Htotal. unfold DeveloperStats.effective_ratio, int_truediv.
  assert (Ht : (DeveloperStats.total_additions self =? 0)%Z = false) by (apply Z.eqb_neq; lia).
  rewrite Ht.
  destruct (DeveloperStats.effective_additions self =? 0)%Z eqn:Hz.
  - exists 0%Q. split; [reflexivity|]. split; [apply Qle_refl|discriminate].
  - apply Z.eqb_neq in Hz.
    rewrite !Z.abs_eq by lia.
    pose proof (nearest_binary64_unit (DeveloperStats.effective_additions self)
                  (DeveloperStats.total_additions self) ltac:(lia)) as [Hlo Hhi].
    assert (Hover : Qle_bool (inject_Z (2 ^ 1024))
                      (nearest_binary64 (DeveloperStats.effective_additions self)
                         (DeveloperStats.total_additions self)) = false).
    { apply not_true_is_false. rewrite Qle_bool_iff. intros Hle.
      assert (Hone : (inject_Z (2 ^ 1024) <= 1)%Q) by (eapply Qle_trans; eauto).
      apply Qle_bool_iff in Hone. vm_compute in Hone. discriminate. }
    rewrite Hover.
    assert (Hsgn : (Z.sgn (DeveloperStats.effective_additions self)
                    * Z.sgn (DeveloperStats.total_additions self) <? 0)%Z = false).
    { apply Z.ltb_ge. rewrite !Z.sgn_pos by lia. lia. }
    rewrite Hsgn. eexists. split; [reflexivity|]. now split.
Qed.

Lemma effective_ratio_in_unit_interval_witness :
  exists ratio,
    DeveloperStats.effective_ratio passing_aggregate = Ok ratio /\ (0 <= ratio <= 1)%Q.
Proof.
  apply (effective_ratio_in_unit_interval passing_aggregate); cbn; lia.
Defined.

(** ** The messages of the bot channel *)

(** X17. A content of at most 4000 characters, the empty content
    included, is sent as it is in a single message, whose outcome is
    logged as part 1 of 1. *)
Theorem short_content_is_one_message :
  forall world bot_token chat_id content t resp,
    (length content <= max_len)%nat ->
    http_post world (telegram_url bot_token) (TelegramMessage chat_id content) = Ok resp ->
    telegram_parts content = [content] /\
    send_telegram world bot_token chat_id content t
    = Some (Ok tt,
            t ++ [Post (telegram_url bot_token) (TelegramMessage chat_id content);
                  Print (part_outcome resp 1 1)]).
Proof.
  intros world bot_token chat_id content t resp Hshort Hpost.
  assert (Hparts : telegram_parts content = [content]).
  { unfold telegram_parts. apply Nat.leb_le in Hshort. now rewrite Hshort. }
  split; [exact Hparts|].
  unfold send_telegram. fold (telegram_url bot_token). rewrite Hparts.
  cbn [for_each length]. unfold bind at 1. unfold bind at 1.
  unfold send_part, post, print, bind, emit, lift, part_outcome. rewrite Hpost.
  destruct (status_code resp =? 200)%Z; cbn; unfold ret; now rewrite <- app_assoc.
Qed.

Lemma short_content_is_one_message_witness :
  telegram_parts [] = [[]] /\
  send_telegram rejecting_world (lit "42:secret") (lit "-1001") [] []
  = Some (Ok tt,
          [] ++ [Post (telegram_url (lit "42:secret")) (TelegramMessage (lit "-1001") []);
                 Print (part_outcome {| status_code := 500; text := lit "internal error" |}
                          1 1)]).
Proof.
  apply (short_content_is_one_message rejecting_world (lit "42:secret") (lit "-1001") [] []
           {| status_code := 500; text := lit "internal error" |}).
  - cbn. lia.
  - reflexivity.
Defined.

Lemma split_fold_keeps_parts lines : forall parts current,
  exists more current',
    fold_left split_step lines (parts, current) = (parts ++ more, current').
Proof.
  induction lines as [|l lines IH]; intros parts current; cbn [fold_left].
  - exists [], current. now rewrite app_nil_r.
  - unfold split_step at 2.
    destruct (max_len <? length current + length l + 1)%nat.
    + destruct (IH (parts ++ [current]) l) as (more & current' & Hrun).
      exists (current :: more), current'. rewrite Hrun. now rewrite <- app_assoc.
    + apply IH.
Qed.

(** X18. When a content longer than 4000 characters begins with a line of
    4000 characters or more, the first part of the split is the empty
    string: the first message sent to the bot has no text. *)
Theorem long_first_line_gives_empty_part :
  forall content,
    (max_len < length content)%nat ->
    (max_len <= length (hd [] (split_newline content)))%nat ->
    exists rest, telegram_parts content = [] :: rest.
Proof.
  intros content Hlong Hfirst. unfold telegram_parts.
  apply Nat.leb_gt in Hlong. rewrite Hlong.
  destruct (split_newline content) as [|l lines] eqn:Hsplit;
    [now apply split_newline_nonempty in Hsplit|].
  cbn [hd] in Hfirst. cbn [fold_left]. unfold split_step at 2. cbn [length Nat.add].
  assert (Hfull : (max_len <? length l + 1)%nat = true) by (apply Nat.ltb_lt; lia).
  rewrite Hfull. cbn [app].
  destruct (split_fold_keeps_parts lines [[]] l) as (more & current' & Hrun).
  rewrite Hrun. cbn [app]. destruct (is_empty current'); eexists; reflexivity.
Qed.

Lemma long_first_line_gives_empty_part_witness :
  exists rest, telegram_parts long_first_line_content = [] :: rest.
Proof.
  apply (long_first_line_gives_empty_part long_first_line_content).
  - apply Nat.ltb_lt. vm_compute. reflexivity.
  - apply Nat.leb_le. vm_compute. reflexivity.
Defined.

Lemma size_app a b : size (a ++ b) = (size a + size b)%nat.
Proof. induction a as [|x a IH]; cbn [app size]; [reflexivity|rewrite IH; lia]. Qed.

Lemma length_join_newline lines : length (join_newline lines) = (size lines - 1)%nat.
Proof.
  induction lines as [|l lines IH]; [reflexivity|].
  destruct lines as [|l' lines].
  - cbn. lia.
  - rewrite join_newline_cons by discriminate. rewrite length_app. cbn [length].
    rewrite IH. cbn [size]. lia.
Qed.

(** A step of the loop adds at most the line and its newline. *)
Lemma split_step_size st line :
  (length line < max_len)%nat ->
  (size (parts_of (split_step st line)) <= size (parts_of st) + S (length line))%nat.
Proof.
  intros Hline. destruct st as [parts current]. unfold split_step, parts_of.
  destruct (max_len <? length current + length line + 1)%nat eqn:Hfull; cbn [fst snd].
  - apply Nat.ltb_lt in Hfull.
    destruct current as [|c current]; [cbn in Hfull; lia|]. cbn [is_empty].
    destruct line as [|x line]; cbn [is_empty]; rewrite ?size_app; cbn [size length]; lia.
  - destruct current as [|c current]; cbn [is_empty].
    + destruct line as [|x line]; cbn [is_empty]; rewrite ?size_app; cbn [size length]; lia.
    + cbn [app is_empty]. rewrite !size_app. cbn [size length].
      rewrite length_app. cbn [length]. lia.
Qed.

Lemma split_fold_size lines : forall st,
  Forall (fun l => (length l < max_len)%nat) lines ->
  (size (parts_of (fold_left split_step lines st)) <= size (parts_of st) + size lines)%nat.
Proof.
  induction lines as [|l lines IH]; intros st Hlines; cbn [fold_left].
  - cbn [size]. lia.
  - apply Forall_cons_1 in Hlines as [Hl Hlines].
    pose proof (IH (split_step st l) Hlines). pose proof (split_step_size st l Hl).
    cbn [size]. lia.
Qed.

(** A blank line that opens a group is a part of its own to the loop,
    which takes it for no part: the step adds nothing. *)
Lemma split_step_loss groups open line :
  existsb opens_blank (groups ++ [open]) = false ->
  (length line < max_len)%nat ->
  existsb opens_blank (fst (group_step (groups, open) line)
                       ++ [snd (group_step (groups, open) line)]) = true ->
  parts_of (split_step (List.map join_newline groups, join_newline open) line)
  = parts_of (List.map join_newline groups, join_newline open) /\ line = [].
Proof.
  rewrite existsb_snoc. intros Hgood Hline Hbad.
  apply orb_false_elim in Hgood as [Hgroups Hopen].
  unfold group_step in Hbad. unfold split_step, parts_of.
  destruct open as [|o open]; cbn [is_empty] in Hbad.
  - cbn [fst snd] in Hbad. rewrite existsb_snoc, Hgroups in Hbad. cbn [orb] in Hbad.
    destruct line as [|x line]; [|discriminate]. split; [|reflexivity].
    cbn [join_newline length Nat.add]. reflexivity.
  - destruct (max_len <? length (join_newline (o :: open)) + length line + 1)%nat eqn:Hfull;
      cbn [fst snd] in Hbad.
    + rewrite !existsb_snoc, Hgroups, Hopen in Hbad. cbn [orb] in Hbad.
      destruct line as [|x line]; [|discriminate]. split; [|reflexivity].
      cbn [fst snd is_empty].
      now rewrite is_empty_false by (apply join_newline_empty; [exact Hopen|discriminate]).
    + rewrite existsb_snoc, Hgroups in Hbad. cbn [orb] in Hbad.
      destruct o; cbn in Hbad, Hopen; congruence.
Qed.

Lemma split_fold_loss lines : forall groups open,
  existsb opens_blank (groups ++ [open]) = false ->
  Forall (fun l => (length l < max_len)%nat) lines ->
  existsb opens_blank (fst (fold_left group_step lines (groups, open))
                       ++ [snd (fold_left group_step lines (groups, open))]) = true ->
  (size (parts_of (fold_left split_step lines (List.map join_newline groups, join_newline open)))
   < size (parts_of (List.map join_newline groups, join_newline open)) + size lines)%nat.
Proof.
  induction lines as [|l lines IH]; intros groups open Hgood Hlines Hbad;
    cbn [fold_left] in Hbad |- *; [cbn [fst snd] in Hbad; congruence|].
  apply Forall_cons_1 in Hlines as [Hl Hlines].
  cbn [size].
  destruct (existsb opens_blank (fst (group_step (groups, open) l)
                                 ++ [snd (group_step (groups, open) l)])) eqn:Hstep.
  - destruct (split_step_loss groups open l Hgood Hl Hstep) as [Hsame ->].
    pose proof (split_fold_size lines
                  (split_step (List.map join_newline groups, join_newline open) []) Hlines).
    rewrite Hsame in H. cbn [length]. lia.
  - assert (Hopen : opens_blank open = false)
      by (rewrite existsb_snoc in Hgood; now apply orb_false_elim in Hgood).
    pose proof (split_step_size (List.map join_newline groups, join_newline open) l Hl).
    rewrite (split_step_groups groups open l Hopen Hl) in *.
    destruct (group_step (groups, open) l) as [groups1 open1]. cbn [fst snd] in *.
    pose proof (IH groups1 open1 Hstep Hlines Hbad). lia.
Qed.

(** X23. When a blank line opens a part of a content longer than the
    limit whose lines are all shorter than the limit, the parts joined by
    newlines are shorter than the content: the loop takes the part that
    holds only the blank line for no part, and its newline is lost. *)
Theorem blank_opening_loses_a_newline :
  forall content : str,
    (max_len < length content)%nat ->
    Forall (fun line => (length line < max_len)%nat) (split_newline content) ->
    blank_opens_part content = true ->
    (length (join_newline (telegram_parts content)) < length content)%nat.
Proof.
  intros content Hlong Hlines Hbad.
  unfold blank_opens_part, line_groups in Hbad.
  pose proof (split_fold_loss (split_newline content) [] [] eq_refl Hlines) as Hloss.
  destruct (fold_left group_step (split_newline content) ([], [])) as [groups open] eqn:Hrun.
  cbn [fst snd] in Hloss.
  assert (Hall : existsb opens_blank (groups ++ [open]) = true).
  { destruct open as [|o open]; cbn [is_empty] in Hbad.
    - rewrite existsb_snoc, Hbad. reflexivity.
    - exact Hbad. }
  specialize (Hloss Hall).
  change (List.map join_newline [], join_newline []) with (@nil str, @nil char) in Hloss.
  assert (Hparts : telegram_parts content
                   = parts_of (fold_left split_step (split_newline content) ([], []))).
  { unfold telegram_parts, parts_of. apply Nat.leb_gt in Hlong. rewrite Hlong.
    now destruct (fold_left split_step (split_newline content) ([], [])). }
  rewrite Hparts, length_join_newline.
  rewrite <- (join_split_newline content) at 2. rewrite length_join_newline.
  assert (Hsize : (1 < size (split_newline content))%nat).
  { rewrite <- (join_split_newline content), length_join_newline in Hlong.
    unfold max_len in Hlong. lia. }
  unfold parts_of at 2 in Hloss. cbn [fst snd is_empty size] in Hloss. lia.
Qed.

Lemma blank_opening_loses_a_newline_witness :
  (length (join_newline (telegram_parts blank_boundary_content))
   < length blank_boundary_content)%nat.
Proof.
  apply (blank_opening_loses_a_newline blank_boundary_content).
  - apply Nat.ltb_lt. vm_compute. reflexivity.
  - apply (bool_decide_unpack _). vm_compute. exact I.
  - vm_compute. reflexivity.
Defined.

(** ** Indentation and the first visible character *)

Lemma indentable_inv p :
  indentable p = true ->
  p = [Bol; Star Space; Eol] \/
  exists m body, p = Bol :: Star Space :: One (Chr m) :: body /\
                 is_space m = false /\ no_bol body = true.
Proof.
  intros H.
  destruct p as [|[| |a1|a1|a1|a1] p]; try discriminate.
  destruct p as [|[| |a2|a2|a2|a2] p]; try discriminate.
  destruct a2; try discriminate.
  destruct p as [|[| |a3|a3|a3|a3] p]; try discriminate.
  - destruct p; [now left|discriminate].
  - destruct a3 as [m| | |]; try discriminate. right. exists m, p.
    cbn [indentable] in H. apply andb_prop in H as [Hm Hb].
    apply negb_true_iff in Hm. auto.
Qed.

Lemma visible_split ws : forall pre line c r,
  spaces ws -> forallb is_space pre = true -> is_space c = false ->
  ws ++ line = pre ++ c :: r ->
  exists mid, pre = ws ++ mid /\ line = mid ++ c :: r.
Proof.
  induction ws as [|w ws IH]; intros pre line c r Hws Hpre Hc Heq.
  - now exists pre.
  - unfold spaces in Hws. cbn [forallb] in Hws. apply andb_prop in Hws as [Hw Hws].
    destruct pre as [|p pre]; cbn [app] in Heq.
    + injection Heq as -> _. congruence.
    + injection Heq as <- Heq. cbn [forallb] in Hpre. apply andb_prop in Hpre as [_ Hpre].
      destruct (IH pre line c r Hws Hpre Hc Heq) as (mid & -> & ->). now exists mid.
Qed.

Lemma bool_eq_of_iff (a b : bool) : (a = true <-> b = true) -> a = b.
Proof. destruct a, b; intros [H1 H2]; auto; symmetry; auto. Qed.

Lemma re_match_lead m body line :
  is_space m = false -> no_bol body = true ->
  re_match (Bol :: Star Space :: One (Chr m) :: body) line = true <->
  exists ws rest, spaces ws /\ line = ws ++ m :: rest /\ accepts body rest.
Proof.
  intros Hm Hb. rewrite (re_match_accepts (Star Space :: One (Chr m) :: body)) by exact Hb.
  cbn [accepts atom_matches]. split.
  - intros (ws & rest & -> & Hws & c & s' & -> & Hc & Hbody).
    apply N.eqb_eq in Hc as <-. now exists ws, s'.
  - intros (ws & rest & Hws & -> & Hbody). exists ws, (m :: rest).
    split; [reflexivity|]. split; [exact Hws|]. exists m, rest.
    split; [reflexivity|]. split; [apply N.eqb_refl|exact Hbody].
Qed.

Lemma re_match_indent p ws line :
  indentable p = true -> spaces ws -> re_match p (ws ++ line) = re_match p line.
Proof.
  intros Hp Hws. apply bool_eq_of_iff.
  destruct (indentable_inv p Hp) as [->|(m & body & -> & Hm & Hb)].
  - rewrite !blank_pattern. unfold blank_line. rewrite spaces_app. tauto.
  - rewrite !re_match_lead by assumption. split.
    + intros (pre & rest & Hpre & Heq & Hbody).
      destruct (visible_split ws pre line m rest Hws Hpre Hm Heq) as (mid & -> & ->).
      apply spaces_app in Hpre as [_ Hmid]. now exists mid, rest.
    + intros (pre & rest & Hpre & -> & Hbody). exists (ws ++ pre), rest.
      split; [now apply spaces_app|]. split; [now rewrite <- app_assoc|exact Hbody].
Qed.

Lemma exclude_patterns_shape :
  forallb (fun p => indentable p && lead_is_marker p) EXCLUDE_PATTERNS = true.
Proof. vm_compute. reflexivity. Qed.

Lemma first_match_indent ws line :
  spaces ws -> first_match EXCLUDE_PATTERNS (ws ++ line) = first_match EXCLUDE_PATTERNS line.
Proof.
  intros Hws. pose proof exclude_patterns_shape as Hshape.
  induction EXCLUDE_PATTERNS as [|p ps IH]; [reflexivity|].
  cbn [forallb] in Hshape. apply andb_prop in Hshape as [Hp Hps].
  apply andb_prop in Hp as [Hp _]. cbn [first_match].
  rewrite (re_match_indent p ws line Hp Hws), (IH Hps). reflexivity.
Qed.

(** X19. The indentation of a line does not count: white space put before
    a line leaves its classification as it is, and so does the removal of
    the white space with which it begins. *)
Theorem indentation_is_ignored :
  forall ws line,
    spaces ws ->
    is_effective_line (ws ++ line) = is_effective_line line /\
    is_effective_line (lstrip (ws ++ line)) = is_effective_line line.
Proof.
  intros ws line Hws. unfold is_effective_line.
  assert (H1 : first_match EXCLUDE_PATTERNS (ws ++ line) = first_match EXCLUDE_PATTERNS line)
    by now apply first_match_indent.
  split; [now rewrite H1|].
  destruct (lstrip_spec (ws ++ line)) as (pre & Hsplit & Hpre & _).
  rewrite <- H1. rewrite Hsplit at 2. now rewrite (first_match_indent pre _ Hpre).
Qed.

Lemma indentation_is_ignored_witness :
  is_effective_line (lit "    " ++ lit "@Override") = is_effective_line (lit "@Override") /\
  is_effective_line (lstrip (lit "    " ++ lit "@Override")) = is_effective_line (lit "@Override").
Proof.
  apply (indentation_is_ignored (lit "    ") (lit "@Override")). reflexivity.
Defined.

Lemma re_match_visible p c r :
  indentable p = true -> is_space c = false ->
  (forall m, pattern_lead p = Some m -> m <> c) ->
  re_match p (c :: r) = false.
Proof.
  intros Hp Hc Hlead. apply not_true_is_false.
  destruct (indentable_inv p Hp) as [->|(m & body & -> & Hm & Hb)].
  - rewrite blank_pattern. unfold blank_line, spaces. cbn [forallb]. rewrite Hc. discriminate.
  - rewrite re_match_lead by assumption. intros (ws & rest & Hws & Heq & _).
    destruct ws as [|w ws]; cbn [app] in Heq; injection Heq as Heq _.
    + now apply (Hlead m).
    + subst w. unfold spaces in Hws. cbn [forallb] in Hws. rewrite Hc in Hws. discriminate.
Qed.

(** X20. A line whose first visible character is none of the characters
    / * @ } { ) i p is effective: only a line that is blank or that begins,
    after its indentation, with one of them is ever left out. *)
Theorem visible_lead_is_effective :
  forall line c,
    first_visible line = Some c ->
    ~ In c MARKERS ->
    is_effective_line line = true.
Proof.
  intros line c Hfirst Hc. unfold first_visible in Hfirst.
  destruct (lstrip_spec line) as (pre & Hsplit & Hpre & Hhead).
  destruct (lstrip line) as [|c' r] eqn:Hstrip; [discriminate|].
  injection Hfirst as ->. specialize (Hhead c eq_refl).
  unfold is_effective_line. rewrite Hsplit, (first_match_indent pre _ Hpre).
  apply negb_true_iff. pose proof exclude_patterns_shape as Hshape.
  induction EXCLUDE_PATTERNS as [|p ps IH]; [reflexivity|].
  cbn [forallb] in Hshape. apply andb_prop in Hshape as [Hp Hps].
  apply andb_prop in Hp as [Hp Hmark]. cbn [first_match].
  rewrite (re_match_visible p c r Hp Hhead); [exact (IH Hps)|].
  intros m Hm <-. unfold lead_is_marker in Hmark. rewrite Hm in Hmark.
  apply Hc. apply existsb_exists in Hmark as (x & Hin & Hx).
  now apply N.eqb_eq in Hx as ->.
Qed.

Lemma visible_lead_is_effective_witness :
  is_effective_line (lit "    return x;") = true.
Proof.
  apply (visible_lead_is_effective (lit "    return x;") 0x72%N).
  - reflexivity.
  - vm_compute. intuition discriminate.
Defined.

(** ** The count over a diff text *)

Lemma split_newline_app a b :
  split_newline (a ++ NEWLINE :: b) = split_newline a ++ split_newline b.
Proof.
  induction a as [|c a IH]; cbn [app split_newline].
  - now rewrite N.eqb_refl.
  - destruct (N.eqb c NEWLINE); [now rewrite IH|].
    rewrite IH. destruct (split_newline a) as [|l ls] eqn:Ha; [|reflexivity].
    now apply split_newline_nonempty in Ha.
Qed.

(** X21. The count of effective additions of a diff text is taken line by
    line: the count of two texts joined by a newline is the sum of their
    counts, and the count of a text lies between 0 and its number of
    lines. *)
Theorem count_is_additive_over_lines :
  forall a b,
    count_effective_lines (a ++ NEWLINE :: b)
    = (count_effective_lines a + count_effective_lines b)%Z /\
    (0 <= count_effective_lines a <= Z.of_nat (length (split_newline a)))%Z.
Proof.
  intros a b. rewrite !count_effective_lines_counted. split.
  - rewrite split_newline_app, List.filter_app, length_app. lia.
  - pose proof (List.filter_length_le counted_line (split_newline a)). lia.
Qed.

(** ** Malformed diff entries *)

Lemma analyze_step_raises effective d e :
  analyze_step effective d = Raise e -> e = AttributeError.
Proof.
  unfold analyze_step. destruct (new_path d) as [|path|]; cbn [as_text result_bind].
  - change (endswith [] (lit ".java")) with false. discriminate.
  - destruct (endswith path (lit ".java")); [|discriminate].
    destruct (diff d); cbn [as_text result_bind]; congruence.
  - congruence.
Qed.

Lemma analyze_loop_malformed diffs : forall effective,
  existsb malformed diffs = true -> analyze_loop diffs effective = Raise AttributeError.
Proof.
  induction diffs as [|d diffs IH]; intros effective Hbad; [discriminate|].
  cbn [existsb analyze_loop] in *.
  destruct (analyze_step effective d) as [n|e] eqn:Hstep; cbn [result_bind].
  - apply IH. destruct (malformed d) eqn:Hd; [|exact Hbad].
    exfalso. unfold malformed, analyze_step in *.
    destruct (new_path d) as [|path|]; try discriminate; cbn [as_text result_bind] in Hstep.
    destruct (diff d); try discriminate. rewrite Hd in Hstep. discriminate.
  - now apply analyze_step_raises in Hstep as ->.
Qed.

(** X22. One malformed entry voids the analysis of the whole commit: when
    the diff listing holds an entry whose path is no string, or a Java
    entry whose diff text is no string, the commit counts 0 effective
    additions, whatever its other entries add, and a warning is logged. *)
Theorem malformed_entry_voids_the_commit :
  forall world client project sha diffs t,
    commit_diff world client project sha = Ok diffs ->
    existsb malformed diffs = true ->
    analyze_commit_diff world client project sha t
    = Some (Ok 0%Z,
            t ++ [Get client (CommitDiff project sha) None;
                  Print (AnalyzeWarning sha AttributeError)]).
Proof.
  intros world client project sha diffs t Hdiffs Hbad.
  rewrite analyze_commit_diff_run. unfold analysed, analysis_events, analysis.
  rewrite Hdiffs. cbn [result_bind]. unfold analyze_diffs.
  now rewrite (analyze_loop_malformed diffs 0%Z Hbad).
Qed.

Lemma malformed_entry_voids_the_commit_witness :
  counted_additions sample_diffs = 1%Z /\
  analyze_commit_diff mixed_diff_world sample_client 7 (lit "0123456789abcdef") []
  = Some (Ok 0%Z,
          [] ++ [Get sample_client (CommitDiff 7 (lit "0123456789abcdef")) None;
                 Print (AnalyzeWarning (lit "0123456789abcdef") AttributeError)]).
Proof.
  split; [vm_compute; reflexivity|].
  apply (malformed_entry_voids_the_commit mixed_diff_world sample_client 7%Z
           (lit "0123456789abcdef") mixed_diffs [] eq_refl).
  vm_compute. reflexivity.
Defined.
